(** * WorldChunk: a shallow embedding of [src/components/classes/world-chunk.ts]

    The chunk owns a dense grid of cells ([data]), one instanced mesh per
    non-empty block type ([children]) and a reference to the shared
    [DataStore].  Methods become functions on an explicit [WorldChunk] value
    (and on the store, where they write to it); a thrown JavaScript error
    ([TypeError] for a property access on [undefined], [RangeError] for a
    typed array of negative length) is the [Throw] outcome of the [result]
    monad, and aborts the call.

    Coordinates, sizes, block ids, instance ids and counts are integers;
    noise values, scales and thresholds are numbers of an abstract type
    ([Numeric]).  The modules the chunk imports but does not define - the
    block registry, the seeded noise and the data store - are interfaces
    ([Blocks], [Simplex], [DataStoreOps]).

    The file has five parts: the model, the vocabulary of the specification,
    the proofs, the statements C1-C10 of the specification followed by further
    properties of the chunk (X1-X22), and an example of each statement on a
    small concrete world ([Demo], and [DemoNaN] for a terrain height that is
    NaN). *)

From stdpp Require Import base numbers option list gmap.
From Stdlib Require Import QArith.QArith QArith.Qround.

Local Open Scope Z_scope.

(** ** Outcomes of a method call *)

Inductive error : Type :=
  | TypeError
  | RangeError.

Inductive result (A : Type) : Type :=
  | Ok (a : A)
  | Throw (e : error).
Arguments Ok {A} a.
Arguments Throw {A} e.

Global Instance result_ret : MRet result := λ A a, Ok a.
Global Instance result_bind : MBind result := λ A B f m,
  match m with
  | Ok a => f a
  | Throw e => Throw e
  end.

(** Reading a property of [undefined] throws. *)
Definition defined {A} (o : option A) : result A :=
  match o with
  | Some a => Ok a
  | None => Throw TypeError
  end.

(** [for (const a of l) s = body(a, s)], stopping at the first throw. *)
Fixpoint foldM {A S} (body : A → S → result S) (l : list A) (s : S) : result S :=
  match l with
  | [] => Ok s
  | a :: l' => s' ← body a s; foldM body l' s'
  end.

(** [for (let i = 0; i < n; i++) s = body(i, s)]. *)
Definition for_range {S} (n : Z) (body : Z → S → result S) (s : S) : result S :=
  foldM body (seqZ 0 n) s.

(** The outcome [r] with [g] applied to its value. *)
Definition on_result {A B} (g : A → B) (r : result A) : result B :=
  a ← r; Ok (g a).

(** [arr[i]] on a JavaScript array: [undefined] outside the array. *)
Definition arr_get {A} (l : list A) (i : Z) : option A :=
  if bool_decide (0 ≤ i) then l !! Z.to_nat i else None.

(** ** The modules the chunk imports *)

(** What [Math.floor] can return. *)
Inductive jsint : Type :=
  | NaN
  | NegInf
  | PosInf
  | Int (z : Z).

(** JavaScript numbers that are not known to be integers (noise values,
    scales, thresholds), with the operations the chunk applies to them. *)
Class Numeric := {
  num : Type;
  num_of_Z : Z → num;
  num_add : num → num → num;
  num_mul : num → num → num;
  num_div : num → num → num;
  num_gtb : num → num → bool;
  num_floor : num → jsint;
}.

(** An entry of [resources] in [@/lib/blocks]. *)
Record Resource `{Numeric} := {
  res_id : Z;
  res_scale_x : num;
  res_scale_y : num;
  res_scale_z : num;
  res_scarcity : num;
}.

(** [@/lib/blocks]: the ids of [blocks.empty], [blocks.grass] and
    [blocks.dirt], the ids of the remaining values of [blocks], and the
    [resources] list in iteration order. *)
Class Blocks `{Numeric} := {
  blocks_empty_id : Z;
  blocks_grass_id : Z;
  blocks_dirt_id : Z;
  blocks_other_ids : list Z;
  resources : list Resource;
}.

(** The ids of [Object.values(blocks)]. *)
Definition blocks_ids `{Blocks} : list Z :=
  blocks_empty_id :: blocks_grass_id :: blocks_dirt_id :: blocks_other_ids.

(** [new RNG(seed)] feeds two [SimplexNoise] generators in turn:
    [noise3d seed] is the first one's [noise3d] (resources), [noise seed]
    the second one's [noise] (terrain). *)
Class Simplex `{Numeric} := {
  noise3d : Z → num → num → num → num;
  noise : Z → num → num → num;
}.

(** [@/components/classes/data-store]: keyed by chunk origin (x, z) and local
    block coordinate. *)
Class DataStoreOps := {
  DataStore : Type;
  ds_contains : DataStore → Z → Z → Z → Z → Z → bool;
  ds_get : DataStore → Z → Z → Z → Z → Z → Z;
  ds_set : DataStore → Z → Z → Z → Z → Z → Z → DataStore;
}.

(** ** Data model *)

Record Cell := {
  id : Z;
  instanceId : option Z;
}.

Record ChunkSize := {
  width : Z;
  height : Z;
}.

(** [this.position]: the chunk's origin, an integer world offset. *)
Record Vector3 := {
  pos_x : Z;
  pos_y : Z;
  pos_z : Z;
}.

(** A [THREE.InstancedMesh]: the number of active instances, the number of
    matrices its buffer holds, and the translation stored at each slot (a
    slot with no entry holds no valid position). *)
Record InstancedMesh := {
  count : Z;
  capacity : Z;
  instanceMatrix : gmap Z (Z * Z * Z);
}.

Definition setMatrixAt (mesh : InstancedMesh) (i : Z) (m : option (Z * Z * Z)) : InstancedMesh :=
  if bool_decide (0 ≤ i < capacity mesh) then
    {| count := count mesh; capacity := capacity mesh;
       instanceMatrix :=
         match m with
         | Some p => <[i := p]> (instanceMatrix mesh)
         | None => delete i (instanceMatrix mesh)
         end |}
  else mesh.

Definition getMatrixAt (mesh : InstancedMesh) (i : Z) : option (Z * Z * Z) :=
  if bool_decide (0 ≤ i < capacity mesh) then instanceMatrix mesh !! i else None.

Definition set_count (mesh : InstancedMesh) (n : Z) : InstancedMesh :=
  {| count := n; capacity := capacity mesh; instanceMatrix := instanceMatrix mesh |}.

Section WorldChunk.
Context `{NU : Numeric} `{!Blocks} `{!Simplex} `{DS : DataStoreOps}.

Record Terrain := {
  scale : num;
  magnitude : num;
  offset : num;
}.

Record Params := {
  seed : Z;
  terrain : Terrain;
}.

(** [children] is the group's list of meshes, looked up by name (the block
    id); names are unique, so it is a map from block id to mesh. *)
Record WorldChunk := {
  data : list (list (list Cell));
  loaded : bool;
  size : ChunkSize;
  params : Params;
  position : Vector3;
  children : gmap Z InstancedMesh;
}.

Definition with_data (c : WorldChunk) (d : list (list (list Cell))) : WorldChunk :=
  {| data := d; loaded := loaded c; size := size c; params := params c;
     position := position c; children := children c |}.

Definition with_children (c : WorldChunk) (m : gmap Z InstancedMesh) : WorldChunk :=
  {| data := data c; loaded := loaded c; size := size c; params := params c;
     position := position c; children := m |}.

Definition with_loaded (c : WorldChunk) (b : bool) : WorldChunk :=
  {| data := data c; loaded := b; size := size c; params := params c;
     position := position c; children := children c |}.

(** The constructor. *)
Definition new_WorldChunk (sz : ChunkSize) (p : Params) (pos : Vector3) : WorldChunk :=
  {| data := []; loaded := false; size := sz; params := p; position := pos;
     children := ∅ |}.

(** ** Cell access *)

Definition inBounds (c : WorldChunk) (x y z : Z) : bool :=
  (0 <=? x) && (x <? width (size c)) &&
  (0 <=? y) && (y <? height (size c)) &&
  (0 <=? z) && (z <? width (size c)).

Definition getBlock (c : WorldChunk) (x y z : Z) : result (option Cell) :=
  if inBounds c x y z then
    slice ← defined (arr_get (data c) x);
    row ← defined (arr_get slice y);
    Ok (arr_get row z)
  else Ok None.

(** [this.data[x][y][z].field = v]. *)
Definition assign_cell (f : Cell → Cell) (c : WorldChunk) (x y z : Z) : result WorldChunk :=
  slice ← defined (arr_get (data c) x);
  row ← defined (arr_get slice y);
  cell ← defined (arr_get row z);
  Ok (with_data c
        (<[Z.to_nat x := <[Z.to_nat y := <[Z.to_nat z := f cell]> row]> slice]> (data c))).

Definition setBlockId (c : WorldChunk) (x y z : Z) (i : Z) : result WorldChunk :=
  if inBounds c x y z then
    assign_cell (λ cell, {| id := i; instanceId := instanceId cell |}) c x y z
  else Ok c.

Definition setBlockInstanceId (c : WorldChunk) (x y z : Z) (i : option Z) : result WorldChunk :=
  if inBounds c x y z then
    assign_cell (λ cell, {| id := id cell; instanceId := i |}) c x y z
  else Ok c.

(** [this.getBlock(x, y, z)?.id ?? blocks.empty.id]. *)
Definition block_id_or_empty (c : WorldChunk) (x y z : Z) : result Z :=
  b ← getBlock c x y z;
  Ok (from_option id blocks_empty_id b).

Definition isBlockObscured (c : WorldChunk) (x y z : Z) : result bool :=
  up ← block_id_or_empty c x (y + 1) z;
  down ← block_id_or_empty c x (y - 1) z;
  left ← block_id_or_empty c (x + 1) y z;
  right ← block_id_or_empty c (x - 1) y z;
  forward ← block_id_or_empty c x y (z + 1);
  back ← block_id_or_empty c x y (z - 1);
  Ok (if (up =? blocks_empty_id) || (down =? blocks_empty_id) ||
         (left =? blocks_empty_id) || (right =? blocks_empty_id) ||
         (forward =? blocks_empty_id) || (back =? blocks_empty_id)
      then false else true).

(** ** Generation *)

Definition initializeTerrain (c : WorldChunk) : WorldChunk :=
  with_data c
    ((λ _ : Z,
       (λ _ : Z,
         (λ _ : Z, {| id := blocks_empty_id; instanceId := None |})
           <$> seqZ 0 (width (size c)))
         <$> seqZ 0 (height (size c)))
       <$> seqZ 0 (width (size c))).

(** [size], [params] and [position] are assigned by no method of the chunk;
    each generation step reads them once on entry. *)

(** [value > resource.scarcity] at local (x, y, z). *)
Definition resource_hit (ps : Params) (pos : Vector3) (resource : Resource)
    (x y z : Z) : bool :=
  num_gtb
    (noise3d (seed ps)
       (num_div (num_of_Z (pos_x pos + x)) (res_scale_x resource))
       (num_div (num_of_Z (pos_y pos + y)) (res_scale_y resource))
       (num_div (num_of_Z (pos_z pos + z)) (res_scale_z resource)))
    (res_scarcity resource).

Definition place_resource (ps : Params) (pos : Vector3) (resource : Resource)
    (x y z : Z) (c : WorldChunk) : result WorldChunk :=
  if resource_hit ps pos resource x y z
  then setBlockId c x y z (res_id resource)
  else Ok c.

Definition generateResources (c : WorldChunk) : result WorldChunk :=
  let w := width (size c) in
  let h := height (size c) in
  foldM (λ resource,
    for_range w (λ x,
      for_range h (λ y,
        for_range w (λ z, place_resource (params c) (position c) resource x y z))))
    resources c.

(** [Math.max(0, Math.min(height, h - 1))]; [None] is NaN. *)
Definition clamp_height (raw : jsint) (h : Z) : option Z :=
  match raw with
  | NaN => None
  | NegInf => Some 0
  | PosInf => Some (Z.max 0 (h - 1))
  | Int v => Some (Z.max 0 (Z.min v (h - 1)))
  end.

(** The clamped terrain height of column (x, z). *)
Definition column_height (sz : ChunkSize) (ps : Params) (pos : Vector3)
    (x z : Z) : option Z :=
  let value :=
    noise (seed ps)
      (num_div (num_of_Z (pos_x pos + x)) (scale (terrain ps)))
      (num_div (num_of_Z (pos_z pos + z)) (scale (terrain ps))) in
  let scaledNoise :=
    num_add (offset (terrain ps)) (num_mul (magnitude (terrain ps)) value) in
  clamp_height (num_floor (num_mul (num_of_Z (height sz)) scaledNoise)) (height sz).

(** Comparisons of a loop counter with a height that may be NaN. *)
Definition lt_height (y : Z) (h : option Z) : bool := from_option (Z.ltb y) false h.
Definition eq_height (y : Z) (h : option Z) : bool := from_option (Z.eqb y) false h.
Definition gt_height (y : Z) (h : option Z) : bool := from_option (Z.gtb y) false h.

Definition fill_column_cell (h : option Z) (x z y : Z) (c : WorldChunk) :
    result WorldChunk :=
  let otherwise :=
    if eq_height y h then setBlockId c x y z blocks_grass_id
    else if gt_height y h then setBlockId c x y z blocks_empty_id
    else Ok c in
  if lt_height y h then
    b ← getBlock c x y z;
    if bool_decide (id <$> b = Some blocks_empty_id)
    then setBlockId c x y z blocks_dirt_id
    else otherwise
  else otherwise.

Definition generateTerrain (c : WorldChunk) : result WorldChunk :=
  let w := width (size c) in
  let h := height (size c) in
  for_range w (λ x,
    for_range w (λ z,
      let height := column_height (size c) (params c) (position c) x z in
      for_range (h + 1) (fill_column_cell height x z))) c.

Definition load_change (store : DataStore) (pos : Vector3) (x y z : Z)
    (c : WorldChunk) : result WorldChunk :=
  if ds_contains store (pos_x pos) (pos_z pos) x y z
  then setBlockId c x y z (ds_get store (pos_x pos) (pos_z pos) x y z)
  else Ok c.

Definition loadPlayerChanges (store : DataStore) (c : WorldChunk) : result WorldChunk :=
  let w := width (size c) in
  let h := height (size c) in
  for_range w (λ x,
    for_range h (λ y,
      for_range w (λ z, load_change store (position c) x y z))) c.

(** [new THREE.InstancedMesh(geometry, material, maxCount)] with its count
    reset to 0; the matrix buffer is a typed array, whose allocation throws
    for a negative length. *)
Definition new_InstancedMesh (maxCount : Z) : result InstancedMesh :=
  if bool_decide (0 ≤ maxCount)
  then Ok {| count := 0; capacity := maxCount; instanceMatrix := ∅ |}
  else Throw RangeError.

(** The [meshes] lookup table: one fresh mesh per non-empty block type. *)
Definition build_meshes (maxCount : Z) : result (gmap Z InstancedMesh) :=
  foldM (λ blockType meshes,
           mesh ← new_InstancedMesh maxCount;
           Ok (<[blockType := mesh]> meshes))
    (filter (λ blockType, blockType ≠ blocks_empty_id) blocks_ids) ∅.

Definition mesh_cell (x y z : Z) (st : WorldChunk * gmap Z InstancedMesh) :
    result (WorldChunk * gmap Z InstancedMesh) :=
  let '(c, meshes) := st in
  b ← getBlock c x y z;
  match b with
  | Some cell =>
      if id cell =? blocks_empty_id then Ok (c, meshes)
      else
        mesh ← defined (meshes !! id cell);
        let instance := count mesh in
        obscured ← isBlockObscured c x y z;
        if (obscured : bool) then Ok (c, meshes)
        else
          let mesh := setMatrixAt mesh instance (Some (x, y, z)) in
          c ← setBlockInstanceId c x y z (Some instance);
          Ok (c, <[id cell := set_count mesh (count mesh + 1)]> meshes)
  | None =>
      (* [meshes[undefined]] is [undefined]: [mesh.count] throws *)
      Throw TypeError
  end.

Definition generateMeshes (c : WorldChunk) : result WorldChunk :=
  let c := with_children c ∅ in
  let w := width (size c) in
  let h := height (size c) in
  let maxCount := w * h * w in
  meshes ← build_meshes maxCount;
  '(c, meshes) ←
    for_range w (λ x, for_range h (λ y, for_range w (λ z, mesh_cell x y z)))
      (c, meshes);
  Ok (with_children c meshes).

Definition generate (store : DataStore) (c : WorldChunk) : result WorldChunk :=
  let c := initializeTerrain c in
  c ← generateResources c;
  c ← generateTerrain c;
  c ← loadPlayerChanges store c;
  c ← generateMeshes c;
  Ok (with_loaded c true).

(** ** Incremental updates *)

Definition addBlockInstance (c : WorldChunk) (x y z : Z) : result WorldChunk :=
  block ← getBlock c x y z;
  match block with
  | Some b =>
      if negb (id b =? blocks_empty_id) && bool_decide (instanceId b = None) then
        mesh ← defined (children c !! id b);
        let instance := count mesh in
        let mesh := set_count mesh (count mesh + 1) in
        c ← setBlockInstanceId (with_children c (<[id b := mesh]> (children c)))
              x y z (Some instance);
        Ok (with_children c
              (<[id b := setMatrixAt mesh instance (Some (x, y, z))]> (children c)))
      else Ok c
  | None => Ok c
  end.

Definition deleteBlockInstance (c : WorldChunk) (x y z : Z) : result WorldChunk :=
  block ← getBlock c x y z;
  match block with
  | Some b =>
      match instanceId b with
      | None => Ok c
      | Some instance =>
          mesh ← defined (children c !! id b);
          let lastMatrix := getMatrixAt mesh (count mesh - 1) in
          c ← match lastMatrix with
              | Some (vx, vy, vz) => setBlockInstanceId c vx vy vz (Some instance)
              | None => Ok c
              end;
          let mesh := set_count (setMatrixAt mesh instance lastMatrix) (count mesh - 1) in
          setBlockInstanceId (with_children c (<[id b := mesh]> (children c))) x y z None
      end
  | None =>
      (* no mesh is named [undefined]: [mesh.getMatrixAt] throws *)
      Throw TypeError
  end.

Definition addBlock (store : DataStore) (c : WorldChunk) (x y z blockId : Z) :
    result (WorldChunk * DataStore) :=
  block ← getBlock c x y z;
  match block with
  | Some b =>
      if id b =? blocks_empty_id then
        c ← setBlockId c x y z blockId;
        c ← addBlockInstance c x y z;
        Ok (c, ds_set store (pos_x (position c)) (pos_z (position c)) x y z blockId)
      else Ok (c, store)
  | None => Ok (c, store)
  end.

Definition removeBlock (store : DataStore) (c : WorldChunk) (x y z : Z) :
    result (WorldChunk * DataStore) :=
  block ← getBlock c x y z;
  match block with
  | Some b =>
      if negb (id b =? blocks_empty_id) then
        c ← deleteBlockInstance c x y z;
        c ← setBlockId c x y z blocks_empty_id;
        Ok (c, ds_set store (pos_x (position c)) (pos_z (position c)) x y z
                 blocks_empty_id)
      else Ok (c, store)
  | None => Ok (c, store)
  end.

(** ** Disposal *)

(** [disposeInstances]: every instanced mesh of the group is disposed of (its
    buffers are released) and the group is cleared; the grid is not touched. *)
Definition disposeInstances (c : WorldChunk) : WorldChunk :=
  with_children c ∅.

(** ** Vocabulary of the specification *)

(** The cell stored at a coordinate, if any. *)
Definition cell_at (c : WorldChunk) (p : Z * Z * Z) : option Cell :=
  slice ← arr_get (data c) p.1.1;
  row ← arr_get slice p.1.2;
  arr_get row p.2.

(** The grid stores a cell exactly at the coordinates inside the bounds. *)
Definition shaped (c : WorldChunk) : Prop :=
  ∀ x y z, is_Some (cell_at c (x, y, z)) ↔ inBounds c x y z = true.

(** The index triples visited by three nested counting loops, in order. *)
Definition grid3 (a b d : Z) : list (Z * Z * Z) :=
  i ← seqZ 0 a; j ← seqZ 0 b; k ← seqZ 0 d; [(i, j, k)].

(** The coordinates visited by the x / y / z loop nest, in scan order. *)
Definition coords (w h : Z) : list (Z * Z * Z) := grid3 w h w.

(** The coordinates visited by the terrain loop nest (x, then z, then y up
    to and including the height), as (x, y, z). *)
Definition column_coords (w h : Z) : list (Z * Z * Z) :=
  (λ p, (p.1.1, p.2, p.1.2)) <$> grid3 w w (h + 1).

Definition chunk_coords (c : WorldChunk) : list (Z * Z * Z) :=
  coords (width (size c)) (height (size c)).

(** The methods that write cells leave every other field alone. *)
Definition same_fields (c c' : WorldChunk) : Prop :=
  size c' = size c ∧ params c' = params c ∧ position c' = position c ∧
  children c' = children c ∧ loaded c' = loaded c.

(** [c'] is [c] with [f] applied to the cell at [p] (if there is one). *)
Definition updated (f : Cell → Cell) (p : Z * Z * Z) (c c' : WorldChunk) : Prop :=
  same_fields c c' ∧
  ∀ q, cell_at c' q = if decide (q = p) then f <$> cell_at c q else cell_at c q.

Definition set_id (i : Z) (cell : Cell) : Cell :=
  {| id := i; instanceId := instanceId cell |}.

Definition set_instanceId (i : option Z) (cell : Cell) : Cell :=
  {| id := id cell; instanceId := i |}.

(** Block ids before and after a generation step that rewrites ids only:
    [F q i] is the new id of the cell at [q] whose id was [i]. *)
Definition remapped (F : Z * Z * Z → Z → Z) (c c' : WorldChunk) : Prop :=
  same_fields c c' ∧
  ∀ q, cell_at c' q = (λ cell, set_id (F q (id cell)) cell) <$> cell_at c q.

(** The id left at (x, y, z) by the resources [rs], taken in order. *)
Definition stamp (ps : Params) (pos : Vector3) (rs : list Resource)
    (q : Z * Z * Z) (i : Z) : Z :=
  foldl (λ acc r, if resource_hit ps pos r q.1.1 q.1.2 q.2 then res_id r else acc) i rs.

(** The id left by the column fill, for height [h], at level [y]. *)
Definition terrain_id (h : option Z) (y : Z) (i : Z) : Z :=
  if lt_height y h && (i =? blocks_empty_id) then blocks_dirt_id
  else if eq_height y h then blocks_grass_id
  else if gt_height y h then blocks_empty_id
  else i.

(** The id left by the overlay of stored player changes. *)
Definition overlay_id (store : DataStore) (pos : Vector3) (q : Z * Z * Z) (i : Z) : Z :=
  if ds_contains store (pos_x pos) (pos_z pos) q.1.1 q.1.2 q.2
  then ds_get store (pos_x pos) (pos_z pos) q.1.1 q.1.2 q.2
  else i.

(** [this.getBlock(q)?.id ?? blocks.empty.id], read off the grid. *)
Definition id_at (c : WorldChunk) (q : Z * Z * Z) : Z :=
  from_option id blocks_empty_id (cell_at c q).

(** The six axis-aligned neighbours, in the order [isBlockObscured] reads
    them: up, down, left, right, forward, back. *)
Definition neighbours (q : Z * Z * Z) : list (Z * Z * Z) :=
  let '(x, y, z) := q in
  [(x, y + 1, z); (x, y - 1, z); (x + 1, y, z); (x - 1, y, z);
   (x, y, z + 1); (x, y, z - 1)].

(** All six neighbours hold a non-empty block. *)
Definition obscured (c : WorldChunk) (q : Z * Z * Z) : bool :=
  forallb (λ n, negb (id_at c n =? blocks_empty_id)) (neighbours q).

Definition max_count (c : WorldChunk) : Z :=
  width (size c) * height (size c) * width (size c).

(** The table [build_meshes] returns when it does not throw. *)
Definition new_mesh (maxCount : Z) : InstancedMesh :=
  {| count := 0; capacity := maxCount; instanceMatrix := ∅ |}.

Definition fresh_meshes (maxCount : Z) : gmap Z InstancedMesh :=
  foldl (λ meshes blockType, <[blockType := new_mesh maxCount]> meshes) ∅
    (filter (λ blockType, blockType ≠ blocks_empty_id) blocks_ids).

(** Cells and mesh slots point at one another: a cell with an instance id
    owns that slot of the mesh of its block type, the slot holds the cell's
    local position, and every active slot is owned by such a cell.  There is
    one mesh per non-empty registered block type, sized for the whole chunk. *)
Record linked (c : WorldChunk) (meshes : gmap Z InstancedMesh) : Prop := {
  linked_cell : ∀ q cell i,
    cell_at c q = Some cell → instanceId cell = Some i →
    ∃ mesh, meshes !! id cell = Some mesh ∧ 0 ≤ i < count mesh ∧
            instanceMatrix mesh !! i = Some q;
  linked_slot : ∀ b mesh i,
    meshes !! b = Some mesh → 0 ≤ i < count mesh →
    ∃ q cell, instanceMatrix mesh !! i = Some q ∧ cell_at c q = Some cell ∧
              id cell = b ∧ instanceId cell = Some i;
  linked_keys : ∀ b,
    is_Some (meshes !! b) ↔ b ∈ blocks_ids ∧ b ≠ blocks_empty_id;
  linked_mesh : ∀ b mesh,
    meshes !! b = Some mesh → capacity mesh = max_count c ∧ 0 ≤ count mesh;
}.

(** The state every completed operation leaves the chunk in. *)
Definition chunk_inv (c : WorldChunk) : Prop :=
  shaped c ∧ linked c (children c).

(** Everything generation reads besides the grid and the store. *)
Definition same_setup (c c' : WorldChunk) : Prop :=
  size c' = size c ∧ params c' = params c ∧ position c' = position c.

(** Every non-empty block in the grid is of a registered type. *)
Definition registered (c : WorldChunk) : Prop :=
  ∀ q cell, cell_at c q = Some cell → id cell ≠ blocks_empty_id → id cell ∈ blocks_ids.

(** The state of the mesh-building loop over the grid of [c0] once the
    coordinates [done] have been visited. *)
Record meshing (c0 : WorldChunk) (done : list (Z * Z * Z))
    (st : WorldChunk * gmap Z InstancedMesh) : Prop := {
  meshing_shaped : shaped st.1;
  meshing_fields : same_fields c0 st.1;
  meshing_ids : ∀ q, id <$> cell_at st.1 q = id <$> cell_at c0 q;
  meshing_linked : linked st.1 st.2;
  meshing_visible : ∀ q cell,
    cell_at st.1 q = Some cell →
    (is_Some (instanceId cell) ↔
     q ∈ done ∧ id cell ≠ blocks_empty_id ∧ obscured c0 q = false);
  meshing_count : ∀ b mesh,
    st.2 !! b = Some mesh → count mesh ≤ Z.of_nat (length done);
}.

(** The block id generation leaves at [q]: resources first, then the
    column fill, then the stored player changes. *)
Definition generated_id (store : DataStore) (c : WorldChunk) (q : Z * Z * Z) : Z :=
  overlay_id store (position c) q
    (terrain_id (column_height (size c) (params c) (position c) q.1.1 q.2) q.1.2
       (stamp (params c) (position c) resources q blocks_empty_id)).

(** The store holds no entry. *)
Definition store_empty (store : DataStore) : Prop :=
  ∀ ox oz x y z, ds_contains store ox oz x y z = false.

(** Every id the store holds for the chunk at [pos] is a registered block id. *)
Definition store_registered (store : DataStore) (pos : Vector3) : Prop :=
  ∀ x y z, ds_contains store (pos_x pos) (pos_z pos) x y z = true →
           ds_get store (pos_x pos) (pos_z pos) x y z ∈ blocks_ids.

(** Every resource is a registered block type. *)
Definition resources_registered : Prop :=
  Forall (λ r, res_id r ∈ blocks_ids) resources.

(** What the mesh-building loop has established once it has visited the
    whole grid. *)
Definition meshed (c c' : WorldChunk) : Prop :=
  same_setup c c' ∧ loaded c' = loaded c ∧
  (∀ q, id <$> cell_at c' q = id <$> cell_at c q) ∧
  chunk_inv c' ∧
  (∀ q cell, cell_at c' q = Some cell →
     (instanceId cell = None ↔
      id cell = blocks_empty_id ∨ obscured c' q = true)).

(** What a completed [generate] has established. *)
Definition generated (store : DataStore) (c c' : WorldChunk) : Prop :=
  same_setup c c' ∧ loaded c' = true ∧ chunk_inv c' ∧
  (∀ x y z cell, cell_at c' (x, y, z) = Some cell →
     id cell = generated_id store c (x, y, z)) ∧
  (∀ q cell, cell_at c' q = Some cell →
     (instanceId cell = None ↔
      id cell = blocks_empty_id ∨ obscured c' q = true)).

(** A chunk on which [generate] has completed, possibly followed by
    completed [addBlock] and [removeBlock] calls. *)
Inductive loaded_chunk : WorldChunk → Prop :=
  | loaded_generate store c c' :
      generate store c = Ok c' → loaded_chunk c'
  | loaded_addBlock store c x y z blockId c' store' :
      loaded_chunk c → addBlock store c x y z blockId = Ok (c', store') →
      loaded_chunk c'
  | loaded_removeBlock store c x y z c' store' :
      loaded_chunk c → removeBlock store c x y z = Ok (c', store') →
      loaded_chunk c'.

(** The cell at [q] is of block type [b] and has a render instance. *)
Definition has_instance (c : WorldChunk) (b : Z) (q : Z * Z * Z) : Prop :=
  ∃ cell, cell_at c q = Some cell ∧ id cell = b ∧ is_Some (instanceId cell).

Global Instance has_instance_dec c b q : Decision (has_instance c b q).
Proof.
  unfold has_instance. destruct (cell_at c q) as [cell|].
  - destruct (decide (id cell = b ∧ is_Some (instanceId cell))) as [Hyes|Hno].
    + left. exists cell. by destruct Hyes.
    + right. intros (cell' & Heq & Hid & Hinst). simplify_eq. by apply Hno.
  - right. by intros (cell' & Heq & _).
Defined.

(** The cells of block type [b] that have a render instance, in scan order,
    and their instance ids. *)
Definition visible_cells (c : WorldChunk) (b : Z) : list (Z * Z * Z) :=
  filter (has_instance c b) (chunk_coords c).

Definition instance_ids (c : WorldChunk) (b : Z) : list Z :=
  omap (λ q, cell_at c q ≫= instanceId) (visible_cells c b).

(** The batch count invariant: every non-empty block type has a batch, its
    count is the number of cells of that type with an instance, and their
    instance ids are exactly 0, ..., count - 1, each once. *)
Definition batch_count_invariant (c : WorldChunk) : Prop :=
  ∀ b, b ∈ blocks_ids → b ≠ blocks_empty_id →
    ∃ mesh, children c !! b = Some mesh ∧
      count mesh = Z.of_nat (length (visible_cells c b)) ∧
      instance_ids c b ≡ₚ seqZ 0 (count mesh).

(** The id of the last resource, in iteration order, whose noise value
    exceeds its scarcity at [q]; [None] when no resource qualifies. *)
Definition stamped (ps : Params) (pos : Vector3) (q : Z * Z * Z) : option Z :=
  foldl (λ acc r,
           if resource_hit ps pos r q.1.1 q.1.2 q.2 then Some (res_id r) else acc)
    None resources.

(** No resource carries the id of the empty block. *)
Definition resources_nonempty : Prop :=
  Forall (λ r, res_id r ≠ blocks_empty_id) resources.

(** [g] changes neither the grid nor what generation reads. *)
Definition grid_blind (g : WorldChunk → WorldChunk) : Prop :=
  ∀ c, data (g c) = data c ∧ size (g c) = size c ∧ params (g c) = params c ∧
       position (g c) = position c ∧ ∀ d, g (with_data c d) = with_data (g c) d.

(** [c] with other values in the fields that generation overwrites. *)
Definition restate (l : bool) (m : gmap Z InstancedMesh) (c : WorldChunk) : WorldChunk :=
  with_children (with_loaded c l) m.

(** [l] lists its elements in the order [R]: each one is [R]-before all the
    later ones. *)
Fixpoint in_order {A} (R : A → A → Prop) (l : list A) : Prop :=
  match l with
  | [] => True
  | x :: l' => Forall (R x) l' ∧ in_order R l'
  end.

(** The order in which the x / y / z loop nest visits the coordinates. *)
Definition scan_before (q1 q2 : Z * Z * Z) : Prop :=
  q1.1.1 < q2.1.1 ∨
  (q1.1.1 = q2.1.1 ∧ (q1.1.2 < q2.1.2 ∨ (q1.1.2 = q2.1.2 ∧ q1.2 < q2.2))).

(** Among the cells of one block type that have an instance, the instance
    ids grow in scan order. *)
Definition numbered_in_order (c : WorldChunk) : Prop :=
  ∀ q1 q2 cell1 cell2 i1 i2,
    cell_at c q1 = Some cell1 → cell_at c q2 = Some cell2 →
    id cell1 = id cell2 →
    instanceId cell1 = Some i1 → instanceId cell2 = Some i2 →
    scan_before q1 q2 → i1 < i2.

End WorldChunk.

(** ** A concrete world for examples *)

Module Demo.

Definition numeric : Numeric :=
  {| num := Q; num_of_Z := inject_Z; num_add := Qplus; num_mul := Qmult;
     num_div := Qdiv; num_gtb := λ a b, negb (Qle_bool a b);
     num_floor := λ q, Int (Qfloor q) |}.

(** empty, grass, dirt, stone, coal ore; stone appears where the noise is
    above -1/4, coal ore where it is above 1/4. *)
Definition blocks : @Blocks numeric :=
  {| blocks_empty_id := 0; blocks_grass_id := 1; blocks_dirt_id := 2;
     blocks_other_ids := [3; 4];
     resources :=
       [ @Build_Resource numeric 3 1%Q 1%Q 1%Q (- 1 # 4)%Q;
         @Build_Resource numeric 4 1%Q 1%Q 1%Q (1 # 4)%Q ] |}.

(** The resource noise grows with x only, from -1/2 at x = 0 in steps of
    1/2; the terrain noise is flat. *)
Definition simplex : @Simplex numeric :=
  @Build_Simplex numeric (λ _ x _ _, ((x - 1) / 2)%Q) (λ _ _ _, 0%Q).

Definition store_ops : DataStoreOps :=
  {| DataStore := gmap (Z * Z * Z * Z * Z) Z;
     ds_contains := λ s ox oz x y z, bool_decide (is_Some (s !! (ox, oz, x, y, z)));
     ds_get := λ s ox oz x y z, default 0 (s !! (ox, oz, x, y, z));
     ds_set := λ s ox oz x y z v, <[(ox, oz, x, y, z) := v]> s |}.

#[local] Existing Instances numeric blocks simplex store_ops.

Definition chunk_size : ChunkSize := {| width := 3; height := 4 |}.
Definition origin : Vector3 := {| pos_x := 0; pos_y := 0; pos_z := 0 |}.

(** Flat terrain of height 2 and of height 1. *)
Definition params_high : Params :=
  {| seed := 7; terrain := @Build_Terrain numeric 30%Q 0%Q (1 # 2)%Q |}.
Definition params_low : Params :=
  {| seed := 7; terrain := @Build_Terrain numeric 30%Q 0%Q (1 # 4)%Q |}.

Definition chunk_high : WorldChunk := new_WorldChunk chunk_size params_high origin.
Definition chunk_low : WorldChunk := new_WorldChunk chunk_size params_low origin.

Definition no_changes : DataStore := (∅ : gmap (Z * Z * Z * Z * Z) Z).

(** A stored stone block where generation puts dirt. *)
Definition one_change : DataStore :=
  ({[ (0, 0, 0, 0, 0) := 3 ]} : gmap (Z * Z * Z * Z * Z) Z).

Definition completed {A} (fallback : A) (r : result A) : A :=
  match r with
  | Ok a => a
  | Throw _ => fallback
  end.

Definition loaded_high : WorldChunk := Eval vm_compute in
  completed chunk_high (generate no_changes chunk_high).
Definition loaded_low : WorldChunk := Eval vm_compute in
  completed chunk_low (generate no_changes chunk_low).

(** [loaded_high] after placing stone at (0, 3, 0), and after then removing
    the dirt block at (0, 0, 1). *)
Definition placed : WorldChunk * DataStore := Eval vm_compute in
  completed (loaded_high, no_changes) (addBlock no_changes loaded_high 0 3 0 3).
Definition edited : WorldChunk * DataStore := Eval vm_compute in
  completed placed (removeBlock placed.2 placed.1 0 0 1).

(** [loaded_high] after removing the grass block at (2, 2, 2). *)
Definition removed_last : WorldChunk * DataStore := Eval vm_compute in
  completed (loaded_high, no_changes) (removeBlock no_changes loaded_high 2 2 2).

(** The grass batch of [loaded_high]. *)
Definition grass_batch : InstancedMesh := Eval vm_compute in
  default (new_mesh 0) (children loaded_high !! 1).

End Demo.

(** ** A world whose terrain height is NaN *)

Module DemoNaN.

(** Rationals and NaN ([None]): arithmetic on NaN gives NaN, a comparison
    with NaN is false, and so is the quotient 0 / 0, the only quotient by
    zero formed below. *)
Definition lift2 (f : Q → Q → Q) (a b : option Q) : option Q :=
  match a, b with
  | Some a, Some b => Some (f a b)
  | _, _ => None
  end.

Definition numeric : Numeric :=
  {| num := option Q;
     num_of_Z := λ z, Some (inject_Z z);
     num_add := lift2 Qplus;
     num_mul := lift2 Qmult;
     num_div := λ a b,
       match a, b with
       | Some a, Some b => if Qeq_bool b 0 then None else Some (a / b)%Q
       | _, _ => None
       end;
     num_gtb := λ a b,
       match a, b with
       | Some a, Some b => negb (Qle_bool a b)
       | _, _ => false
       end;
     num_floor := λ a,
       match a with
       | Some q => Int (Qfloor q)
       | None => NaN
       end |}.

(** empty, grass, dirt and stone; stone appears where the noise is above
    -1/4. *)
Definition blocks : @Blocks numeric :=
  {| blocks_empty_id := 0; blocks_grass_id := 1; blocks_dirt_id := 2;
     blocks_other_ids := [3];
     resources :=
       [ @Build_Resource numeric 3 (Some 1%Q) (Some 1%Q) (Some 1%Q)
           (Some (- 1 # 4)%Q) ] |}.

(** The resource noise is the y coordinate less 1/2; the terrain noise is
    the sum of its arguments. *)
Definition simplex : @Simplex numeric :=
  @Build_Simplex numeric
    (λ _ _ y _, lift2 Qminus y (Some (1 # 2)%Q))
    (λ _ x z, lift2 Qplus x z).

#[local] Existing Instances numeric blocks simplex Demo.store_ops.

(** A single column at the origin, with terrain scale 0. *)
Definition chunk_size : ChunkSize := {| width := 1; height := 3 |}.

Definition params_nan : Params :=
  {| seed := 7;
     terrain := @Build_Terrain numeric (Some 0%Q) (Some (1 # 2)%Q) (Some (1 # 2)%Q) |}.

Definition chunk_nan : WorldChunk := new_WorldChunk chunk_size params_nan Demo.origin.

End DemoNaN.

(** * Proofs *)

(** ** The result monad and its loops *)

Lemma bind_Ok {A B} (a : A) (k : A → result B) : (Ok a ≫= k) = k a.
Proof. reflexivity. Qed.

Lemma bind_Ok_inv {A B} (m : result A) (k : A → result B) (b : B) :
  (m ≫= k) = Ok b → ∃ a, m = Ok a ∧ k a = Ok b.
Proof. destruct m as [a|]; [eauto | discriminate]. Qed.

Lemma bind_ret_r {A} (m : result A) : (m ≫= Ok) = m.
Proof. by destruct m. Qed.

Lemma foldM_app {A S} (f : A → S → result S) l1 l2 s :
  foldM f (l1 ++ l2) s = (foldM f l1 s ≫= foldM f l2).
Proof.
  revert s. induction l1 as [|a l1 IH]; intros s; simpl; [done|].
  destruct (f a s) as [s'|]; simpl; [apply IH | done].
Qed.

Lemma foldM_ext {A S} (f g : A → S → result S) l s :
  (∀ a s, a ∈ l → f a s = g a s) → foldM f l s = foldM g l s.
Proof.
  revert s. induction l as [|a l IH]; intros s Hfg; simpl; [done|].
  rewrite Hfg by left. destruct (g a s) as [s'|]; simpl; [|done].
  apply IH. intros. apply Hfg. by right.
Qed.

Lemma foldM_bind {A B S} (f : B → S → result S) (g : A → list B) l s :
  foldM f (l ≫= g) s = foldM (λ a, foldM f (g a)) l s.
Proof.
  revert s. induction l as [|a l IH]; intros s; [done|].
  rewrite bind_cons, foldM_app. simpl.
  destruct (foldM f (g a) s) as [s'|]; simpl; [apply IH | done].
Qed.

(** The loop rule: an invariant indexed by the elements already visited. *)
Lemma foldM_inv {A S} (I : list A → S → Prop) (f : A → S → result S) l s :
  I [] s →
  (∀ done a rest s, l = done ++ a :: rest → I done s →
     ∃ s', f a s = Ok s' ∧ I (done ++ [a]) s') →
  ∃ s', foldM f l s = Ok s' ∧ I l s'.
Proof.
  intros H0 Hstep.
  cut (∀ rest done s, l = done ++ rest → I done s →
         ∃ s', foldM f rest s = Ok s' ∧ I l s').
  { intros Hcut. by apply (Hcut l []). }
  induction rest as [|a rest IH]; intros done s1 Hl HI; simpl.
  - exists s1. split; [done|]. by rewrite Hl, app_nil_r.
  - destruct (Hstep done a rest s1 Hl HI) as (s2 & -> & HI2). simpl.
    apply (IH (done ++ [a])); [|done]. by rewrite <-app_assoc.
Qed.

Lemma foldM_fmap {A B S} (f : B → S → result S) (g : A → B) l s :
  foldM f (g <$> l) s = foldM (λ a, f (g a)) l s.
Proof.
  revert s. induction l as [|a l IH]; intros s; simpl; [done|].
  destruct (f (g a) s) as [s'|]; simpl; [apply IH | done].
Qed.

(** The same rule for a loop that is known not to have thrown. *)
Lemma foldM_inv_Ok {A S} (I : list A → S → Prop) (f : A → S → result S) l s s' :
  (∀ done a rest s s', l = done ++ a :: rest → I done s → f a s = Ok s' →
     I (done ++ [a]) s') →
  I [] s → foldM f l s = Ok s' → I l s'.
Proof.
  intros Hstep.
  cut (∀ rest done s, l = done ++ rest → I done s → foldM f rest s = Ok s' → I l s').
  { intros Hcut. by apply (Hcut l []). }
  induction rest as [|a rest IH]; intros done s1 Hl HI; simpl.
  - intros [= <-]. by rewrite Hl, app_nil_r.
  - intros (s2 & Hrun & Hrest)%bind_Ok_inv.
    apply (IH (done ++ [a]) s2); [by rewrite <-app_assoc| |done]. eauto.
Qed.

(** Three nested counting loops visit [grid3] in order. *)
Lemma for_nest_grid3 {S} (body : Z → Z → Z → S → result S) a b d s :
  for_range a (λ i, for_range b (λ j, for_range d (λ k, body i j k))) s =
  foldM (λ p, body p.1.1 p.1.2 p.2) (grid3 a b d) s.
Proof.
  unfold grid3, for_range. rewrite foldM_bind.
  apply foldM_ext; intros i s1 _. rewrite foldM_bind.
  apply foldM_ext; intros j s2 _. rewrite foldM_bind.
  apply foldM_ext; intros k s3 _. simpl. by destruct (body i j k s3).
Qed.

Lemma elem_of_grid3 a b d i j k :
  (i, j, k) ∈ grid3 a b d ↔ (0 ≤ i < a) ∧ (0 ≤ j < b) ∧ (0 ≤ k < d).
Proof.
  unfold grid3. rewrite list_elem_of_bind. split.
  - intros (i' & Hin & Hi%elem_of_seqZ).
    apply list_elem_of_bind in Hin as (j' & Hin & Hj%elem_of_seqZ).
    apply list_elem_of_bind in Hin as (k' & Hin & Hk%elem_of_seqZ).
    apply list_elem_of_singleton in Hin. simplify_eq. lia.
  - intros (Hi & Hj & Hk). exists i. rewrite elem_of_seqZ. split; [|lia].
    apply list_elem_of_bind. exists j. rewrite elem_of_seqZ. split; [|lia].
    apply list_elem_of_bind. exists k. rewrite elem_of_seqZ. split; [|lia].
    by apply list_elem_of_singleton.
Qed.

Lemma NoDup_grid3 a b d : NoDup (grid3 a b d).
Proof.
  unfold grid3. apply NoDup_bind; [| |apply NoDup_seqZ].
  - intros i1 i2 p _ _ (j1 & Hin1 & _)%list_elem_of_bind (j2 & Hin2 & _)%list_elem_of_bind.
    apply list_elem_of_bind in Hin1 as (k1 & ->%list_elem_of_singleton & _).
    apply list_elem_of_bind in Hin2 as (k2 & ?%list_elem_of_singleton & _).
    by simplify_eq.
  - intros i _. apply NoDup_bind; [| |apply NoDup_seqZ].
    + intros j1 j2 p _ _ (k1 & ->%list_elem_of_singleton & _)%list_elem_of_bind
        (k2 & ?%list_elem_of_singleton & _)%list_elem_of_bind.
      by simplify_eq.
    + intros j _. apply NoDup_bind; [| |apply NoDup_seqZ].
      * intros k1 k2 p _ _ ->%list_elem_of_singleton ?%list_elem_of_singleton.
        by simplify_eq.
      * intros k _. apply NoDup_singleton.
Qed.

Lemma arr_get_insert {A} (l : list A) (i j : Z) (a v : A) :
  arr_get l i = Some a →
  arr_get (<[Z.to_nat i := v]> l) j = if decide (j = i) then Some v else arr_get l j.
Proof.
  unfold arr_get. intros Hi. case_bool_decide as Hi0; [|done].
  apply lookup_lt_Some in Hi.
  destruct (decide (j = i)) as [->|Hne].
  - rewrite bool_decide_true by done. by apply list_lookup_insert_eq.
  - case_bool_decide; [|done]. apply list_lookup_insert_ne. lia.
Qed.

Section Proofs.
Context `{NU : Numeric} `{!Blocks} `{!Simplex} `{DS : DataStoreOps}.
Implicit Types (c : WorldChunk) (p q : Z * Z * Z) (cell : Cell).

(** ** Cell access *)

Lemma inBounds_spec c x y z :
  inBounds c x y z = true ↔
  (0 ≤ x < width (size c)) ∧ (0 ≤ y < height (size c)) ∧ (0 ≤ z < width (size c)).
Proof. unfold inBounds. rewrite !andb_true_iff, !Z.leb_le, !Z.ltb_lt. lia. Qed.

Lemma getBlock_out_of_bounds c x y z :
  inBounds c x y z = false → getBlock c x y z = Ok None.
Proof. unfold getBlock. by intros ->. Qed.

Lemma setBlockId_out_of_bounds c x y z i :
  inBounds c x y z = false → setBlockId c x y z i = Ok c.
Proof. unfold setBlockId. by intros ->. Qed.

Lemma setBlockInstanceId_out_of_bounds c x y z i :
  inBounds c x y z = false → setBlockInstanceId c x y z i = Ok c.
Proof. unfold setBlockInstanceId. by intros ->. Qed.

Lemma getBlock_shaped c x y z :
  shaped c → getBlock c x y z = Ok (cell_at c (x, y, z)).
Proof.
  intros Hs. unfold getBlock. destruct (inBounds c x y z) eqn:Hb.
  - apply Hs in Hb as [cell Hcell]. unfold cell_at in *. simpl in *.
    destruct (arr_get (data c) x) as [slice|]; [simpl in *|done].
    by destruct (arr_get slice y) as [row|].
  - destruct (cell_at c (x, y, z)) as [cell|] eqn:Hcell; [|done].
    assert (inBounds c x y z = true) by (apply Hs; eauto). congruence.
Qed.

Lemma same_fields_refl c : same_fields c c.
Proof. by repeat split. Qed.

Lemma same_fields_trans c1 c2 c3 :
  same_fields c1 c2 → same_fields c2 c3 → same_fields c1 c3.
Proof.
  intros (? & ? & ? & ? & ?) (? & ? & ? & ? & ?). repeat split; congruence.
Qed.

Lemma updated_shaped f p c c' : shaped c → updated f p c c' → shaped c'.
Proof.
  intros Hs [(Hsz & _) Hcells] x y z.
  assert (inBounds c' x y z = inBounds c x y z) as -> by (unfold inBounds; by rewrite Hsz).
  rewrite <-(Hs x y z), Hcells.
  case_decide; [|done]. by rewrite fmap_is_Some.
Qed.

Lemma updated_absent f p c : cell_at c p = None → updated f p c c.
Proof.
  intros Hp. split; [apply same_fields_refl|]. intros q.
  case_decide as Hq; [|done]. subst q. by rewrite Hp.
Qed.

Lemma assign_cell_updated f c x y z cell :
  cell_at c (x, y, z) = Some cell →
  ∃ c', assign_cell f c x y z = Ok c' ∧ updated f (x, y, z) c c'.
Proof.
  unfold cell_at, assign_cell. simpl. intros Hcell.
  destruct (arr_get (data c) x) as [slice|] eqn:Hx; [simpl in *|done].
  destruct (arr_get slice y) as [row|] eqn:Hy; [simpl in *|done].
  rewrite Hcell. simpl. eexists. split; [done|]. split; [by repeat split|].
  intros [[x' y'] z']. unfold cell_at. simpl.
  rewrite (arr_get_insert _ _ _ _ _ Hx).
  destruct (decide (x' = x)) as [->|Hnx]; simpl.
  - rewrite (arr_get_insert _ _ _ _ _ Hy), Hx. simpl.
    destruct (decide (y' = y)) as [->|Hny]; simpl.
    + rewrite (arr_get_insert _ _ _ _ _ Hcell), Hy. simpl.
      destruct (decide (z' = z)) as [->|Hnz].
      * rewrite decide_True by done. by rewrite Hcell.
      * rewrite decide_False by congruence. done.
    + rewrite decide_False by congruence. done.
  - rewrite decide_False by congruence. done.
Qed.

Lemma setBlockId_updated c x y z i :
  shaped c → ∃ c', setBlockId c x y z i = Ok c' ∧ updated (set_id i) (x, y, z) c c'.
Proof.
  intros Hs. unfold setBlockId. destruct (inBounds c x y z) eqn:Hb.
  - apply Hs in Hb as [cell Hcell]. by apply assign_cell_updated with cell.
  - exists c. split; [done|]. apply updated_absent.
    apply eq_None_not_Some. intros Hsome%Hs. congruence.
Qed.

Lemma setBlockInstanceId_updated c x y z i :
  shaped c →
  ∃ c', setBlockInstanceId c x y z i = Ok c' ∧ updated (set_instanceId i) (x, y, z) c c'.
Proof.
  intros Hs. unfold setBlockInstanceId. destruct (inBounds c x y z) eqn:Hb.
  - apply Hs in Hb as [cell Hcell]. by apply assign_cell_updated with cell.
  - exists c. split; [done|]. apply updated_absent.
    apply eq_None_not_Some. intros Hsome%Hs. congruence.
Qed.

(** ** Steps that rewrite block ids cell by cell *)

Lemma set_id_same cell : set_id (id cell) cell = cell.
Proof. by destruct cell. Qed.

Lemma updated_ext f f' p c c' :
  (∀ cell, cell_at c p = Some cell → f cell = f' cell) →
  updated f p c c' → updated f' p c c'.
Proof.
  intros Hff' [Hsame Hcells]. split; [done|]. intros q. rewrite Hcells.
  case_decide as Hq; [subst q|done].
  destruct (cell_at c p) as [cell|] eqn:Hp; [simpl|done]. by rewrite Hff'.
Qed.

Lemma updated_refl p c : updated (λ cell, cell) p c c.
Proof.
  split; [apply same_fields_refl|]. intros q. case_decide; [|done].
  by destruct (cell_at c q).
Qed.

Lemma shaped_absent c q :
  shaped c → q ∉ chunk_coords c → cell_at c q = None.
Proof.
  intros Hs Hq. apply eq_None_not_Some. destruct q as [[x y] z].
  intros Hsome%Hs%inBounds_spec. apply Hq. by apply elem_of_grid3.
Qed.

Lemma remapped_shaped F c c' : shaped c → remapped F c c' → shaped c'.
Proof.
  intros Hs [(Hsz & _) Hcells] x y z.
  assert (inBounds c' x y z = inBounds c x y z) as -> by (unfold inBounds; by rewrite Hsz).
  by rewrite <-(Hs x y z), Hcells, fmap_is_Some.
Qed.

Lemma remapped_trans F G c1 c2 c3 :
  remapped F c1 c2 → remapped G c2 c3 → remapped (λ q i, G q (F q i)) c1 c3.
Proof.
  intros [Hs1 H1] [Hs2 H2]. split; [by eapply same_fields_trans|].
  intros q. rewrite H2, H1. by destruct (cell_at c1 q).
Qed.

Lemma remapped_ext F G c c' :
  (∀ q i, F q i = G q i) → remapped F c c' → remapped G c c'.
Proof.
  intros HFG [Hs Hc]. split; [done|]. intros q. rewrite Hc.
  destruct (cell_at c q); [simpl|done]. by rewrite HFG.
Qed.

(** A loop whose body at [p] rewrites the id of the cell at [p] only. *)
Lemma foldM_remapped (F : Z * Z * Z → Z → Z)
    (body : Z * Z * Z → WorldChunk → result WorldChunk) (sz : ChunkSize) l :
  NoDup l →
  (∀ q, q ∈ coords (width sz) (height sz) → q ∈ l) →
  (∀ p c, shaped c → size c = sz →
     ∃ c', body p c = Ok c' ∧ updated (λ cell, set_id (F p (id cell)) cell) p c c') →
  ∀ c, shaped c → size c = sz →
  ∃ c', foldM body l c = Ok c' ∧ remapped F c c'.
Proof.
  intros Hnd Hall Hbody c Hs Hsz.
  cut (∃ c', foldM body l c = Ok c' ∧ same_fields c c' ∧
         ∀ q, cell_at c' q =
           if decide (q ∈ l) then (λ cell, set_id (F q (id cell)) cell) <$> cell_at c q
           else cell_at c q).
  { intros (c' & Hrun & Hsame & Hcells). exists c'. split; [done|]. split; [done|].
    intros q. rewrite Hcells. case_decide as Hq; [done|].
    rewrite shaped_absent; [done..|]. unfold chunk_coords. rewrite Hsz. naive_solver. }
  clear Hall. revert c Hs Hsz.
  induction Hnd as [|p l Hp Hnd IH]; intros c Hs Hsz; cbn [foldM].
  - exists c. split; [done|]. split; [apply same_fields_refl|]. intros q.
    by rewrite decide_False by apply not_elem_of_nil.
  - destruct (Hbody p c Hs Hsz) as (c1 & -> & Hupd). rewrite bind_Ok.
    destruct (IH c1) as (c' & Hrun & Hsame & Hcells).
    { by eapply updated_shaped. }
    { destruct Hupd as [(-> & _) _]. done. }
    exists c'. split; [done|]. split; [eapply same_fields_trans; [apply Hupd|done]|].
    intros q. rewrite Hcells. destruct Hupd as [_ Hupd]. rewrite !Hupd.
    destruct (decide (q = p)) as [->|Hne].
    + rewrite decide_False by done. rewrite decide_True by left. done.
    + destruct (decide (q ∈ l)) as [Hin|Hnin].
      * by rewrite decide_True by by right.
      * rewrite decide_False; [done|]. by intros [?|?]%elem_of_cons.
Qed.

(** ** initializeTerrain *)

Lemma arr_get_fmap_seqZ {A} (f : Z → A) n i :
  arr_get (f <$> seqZ 0 n) i = if decide (0 ≤ i < n) then Some (f i) else None.
Proof.
  unfold arr_get. case_bool_decide.
  - rewrite list_lookup_fmap. destruct (decide (i < n)).
    + rewrite lookup_seqZ_lt by lia. rewrite decide_True by lia. simpl.
      do 2 f_equal. lia.
    + rewrite lookup_seqZ_ge by lia. by rewrite decide_False by lia.
  - by rewrite decide_False by lia.
Qed.

Lemma initializeTerrain_cell c x y z :
  cell_at (initializeTerrain c) (x, y, z) =
  if inBounds c x y z then Some {| id := blocks_empty_id; instanceId := None |} else None.
Proof.
  unfold cell_at, initializeTerrain. simpl. rewrite arr_get_fmap_seqZ.
  destruct (inBounds c x y z) eqn:Hb.
  - apply inBounds_spec in Hb as (Hx & Hy & Hz).
    rewrite decide_True by done. simpl. rewrite arr_get_fmap_seqZ.
    rewrite decide_True by done. simpl. rewrite arr_get_fmap_seqZ.
    by rewrite decide_True by done.
  - case_decide as Hx; [simpl|done]. rewrite arr_get_fmap_seqZ.
    case_decide as Hy; [simpl|done]. rewrite arr_get_fmap_seqZ.
    case_decide as Hz; [|done].
    assert (inBounds c x y z = true) by (by apply inBounds_spec). congruence.
Qed.

Lemma initializeTerrain_shaped c : shaped (initializeTerrain c).
Proof.
  intros x y z. rewrite initializeTerrain_cell.
  change (inBounds (initializeTerrain c) x y z) with (inBounds c x y z).
  destruct (inBounds c x y z); [by eauto|]. split; [by intros [? ?]|done].
Qed.

(** ** generateResources *)

Lemma place_resource_updated ps pos r x y z c :
  shaped c →
  ∃ c', place_resource ps pos r x y z c = Ok c' ∧
        updated (λ cell, set_id (if resource_hit ps pos r x y z then res_id r else id cell) cell)
          (x, y, z) c c'.
Proof.
  intros Hs. unfold place_resource. destruct (resource_hit ps pos r x y z).
  - by apply setBlockId_updated.
  - exists c. split; [done|]. eapply updated_ext; [|apply updated_refl].
    intros cell _. simpl. by rewrite set_id_same.
Qed.

Lemma place_resources_remapped sz ps pos rs c :
  shaped c → size c = sz →
  ∃ c',
    foldM (λ resource,
      for_range (width sz) (λ x,
        for_range (height sz) (λ y,
          for_range (width sz) (λ z, place_resource ps pos resource x y z))))
      rs c = Ok c' ∧
    remapped (stamp ps pos rs) c c'.
Proof.
  revert c. induction rs as [|r rs IH]; intros c Hs Hsz; cbn [foldM].
  - exists c. split; [done|]. split; [apply same_fields_refl|]. intros q.
    destruct (cell_at c q) as [cell|]; [simpl|done]. by rewrite set_id_same.
  - rewrite for_nest_grid3.
    destruct (foldM_remapped
                (λ q i, if resource_hit ps pos r q.1.1 q.1.2 q.2 then res_id r else i)
                (λ p, place_resource ps pos r p.1.1 p.1.2 p.2) sz
                (grid3 (width sz) (height sz) (width sz))) with c
      as (c1 & -> & Hmap); [apply NoDup_grid3|done| |done..|].
    { intros [[x y] z] c0 Hs0 _. simpl. by apply place_resource_updated. }
    rewrite bind_Ok. destruct (IH c1) as (c' & -> & Hmap').
    { by eapply remapped_shaped. }
    { destruct Hmap as [(-> & _) _]. done. }
    exists c'. split; [done|].
    eapply remapped_ext; [|by eapply remapped_trans]. done.
Qed.

Lemma generateResources_remapped c :
  shaped c →
  ∃ c', generateResources c = Ok c' ∧
        remapped (stamp (params c) (position c) resources) c c'.
Proof. intros Hs. by apply place_resources_remapped. Qed.

(** ** generateTerrain *)

Lemma fill_column_cell_updated h x y z c :
  shaped c →
  ∃ c', fill_column_cell h x z y c = Ok c' ∧
        updated (λ cell, set_id (terrain_id h y (id cell)) cell) (x, y, z) c c'.
Proof.
  intros Hs. unfold fill_column_cell, terrain_id.
  assert (∃ c',
    (if eq_height y h then setBlockId c x y z blocks_grass_id
     else if gt_height y h then setBlockId c x y z blocks_empty_id else Ok c) = Ok c' ∧
    updated (λ cell, set_id (if eq_height y h then blocks_grass_id
                             else if gt_height y h then blocks_empty_id
                             else id cell) cell) (x, y, z) c c') as Hrest.
  { destruct (eq_height y h); [by apply setBlockId_updated|].
    destruct (gt_height y h); [by apply setBlockId_updated|].
    exists c. split; [done|]. eapply updated_ext; [|apply updated_refl].
    intros cell _. simpl. by rewrite set_id_same. }
  destruct (lt_height y h) eqn:Hlt; [|done].
  rewrite getBlock_shaped by done. rewrite bind_Ok.
  destruct (cell_at c (x, y, z)) as [cell|] eqn:Hcell; simpl.
  - case_bool_decide as Hid.
    + destruct (setBlockId_updated c x y z blocks_dirt_id Hs) as (c' & -> & Hupd).
      exists c'. split; [done|]. eapply updated_ext; [|done].
      intros cell' Hcell'. simplify_eq. simpl.
      by rewrite (proj2 (Z.eqb_eq _ _)) by congruence.
    + destruct Hrest as (c' & -> & Hupd). exists c'. split; [done|].
      eapply updated_ext; [|done]. intros cell' Hcell'. simplify_eq. simpl.
      rewrite (proj2 (Z.eqb_neq _ _)); [done|]. congruence.
  - destruct Hrest as (c' & -> & Hupd). exists c'. split; [done|].
    eapply updated_ext; [|done]. intros cell' Hcell'. congruence.
Qed.

Lemma elem_of_column_coords w h x y z :
  (x, y, z) ∈ column_coords w h ↔ (0 ≤ x < w) ∧ (0 ≤ y < h + 1) ∧ (0 ≤ z < w).
Proof.
  unfold column_coords. rewrite list_elem_of_fmap. split.
  - intros ([[i j] k] & Heq & Hin%elem_of_grid3). simpl in *. simplify_eq. lia.
  - intros (Hx & Hy & Hz). exists (x, z, y). split; [done|]. by apply elem_of_grid3.
Qed.

Lemma NoDup_column_coords w h : NoDup (column_coords w h).
Proof.
  unfold column_coords. apply NoDup_fmap_2; [|apply NoDup_grid3].
  intros [[i j] k] [[i' j'] k'] Heq. simpl in *. by simplify_eq.
Qed.

(** The terrain loop nest visits [column_coords] in order. *)
Lemma generateTerrain_columns c :
  generateTerrain c =
  foldM (λ p, fill_column_cell (column_height (size c) (params c) (position c) p.1.1 p.2)
                p.1.1 p.2 p.1.2)
    (column_coords (width (size c)) (height (size c))) c.
Proof.
  unfold generateTerrain, column_coords. rewrite foldM_fmap.
  exact (for_nest_grid3
           (λ x z y, fill_column_cell
                       (column_height (size c) (params c) (position c) x z) x z y)
           _ _ _ c).
Qed.

Lemma generateTerrain_remapped c :
  shaped c →
  ∃ c', generateTerrain c = Ok c' ∧
        remapped (λ q, terrain_id (column_height (size c) (params c) (position c) q.1.1 q.2)
                         q.1.2) c c'.
Proof.
  intros Hs. rewrite generateTerrain_columns.
  apply foldM_remapped with (size c); [apply NoDup_column_coords| | |done..].
  - intros [[x y] z] (? & ? & ?)%elem_of_grid3. apply elem_of_column_coords. lia.
  - intros [[x y] z] c0 Hs0 _. simpl. by apply fill_column_cell_updated.
Qed.

(** ** loadPlayerChanges *)

Lemma load_change_updated store pos x y z c :
  shaped c →
  ∃ c', load_change store pos x y z c = Ok c' ∧
        updated (λ cell, set_id (overlay_id store pos (x, y, z) (id cell)) cell)
          (x, y, z) c c'.
Proof.
  intros Hs. unfold load_change, overlay_id. simpl.
  destruct (ds_contains store (pos_x pos) (pos_z pos) x y z).
  - by apply setBlockId_updated.
  - exists c. split; [done|]. eapply updated_ext; [|apply updated_refl].
    intros cell _. simpl. by rewrite set_id_same.
Qed.

Lemma loadPlayerChanges_remapped store c :
  shaped c →
  ∃ c', loadPlayerChanges store c = Ok c' ∧
        remapped (overlay_id store (position c)) c c'.
Proof.
  intros Hs. unfold loadPlayerChanges. rewrite for_nest_grid3.
  apply foldM_remapped with (size c); [apply NoDup_grid3|done| |done..].
  intros [[x y] z] c0 Hs0 _. simpl. by apply load_change_updated.
Qed.

(** ** Occlusion *)

Lemma block_id_or_empty_shaped c x y z :
  shaped c → block_id_or_empty c x y z = Ok (id_at c (x, y, z)).
Proof. intros Hs. unfold block_id_or_empty. by rewrite getBlock_shaped. Qed.

Lemma isBlockObscured_shaped c x y z :
  shaped c → isBlockObscured c x y z = Ok (obscured c (x, y, z)).
Proof.
  intros Hs. unfold isBlockObscured. rewrite !block_id_or_empty_shaped by done.
  rewrite !bind_Ok. f_equal. unfold obscured. simpl.
  repeat (destruct (_ =? blocks_empty_id); simpl; [done|]). done.
Qed.

Lemma id_at_ext c c' q :
  id <$> cell_at c' q = id <$> cell_at c q → id_at c' q = id_at c q.
Proof.
  unfold id_at. destruct (cell_at c' q), (cell_at c q); simpl; congruence.
Qed.

Lemma obscured_ext c c' q :
  (∀ q, id <$> cell_at c' q = id <$> cell_at c q) → obscured c' q = obscured c q.
Proof.
  intros Hids. unfold obscured. destruct q as [[x y] z]. simpl.
  by rewrite !(id_at_ext c c') by done.
Qed.

(** A neighbour outside the bounds counts as empty. *)
Lemma id_at_out_of_bounds c x y z :
  shaped c → inBounds c x y z = false → id_at c (x, y, z) = blocks_empty_id.
Proof.
  intros Hs Hb. unfold id_at.
  destruct (cell_at c (x, y, z)) as [cell|] eqn:Hcell; [|done].
  assert (inBounds c x y z = true) by (apply Hs; eauto). congruence.
Qed.

Lemma obscured_true c q :
  obscured c q = true ↔ ∀ n, n ∈ neighbours q → id_at c n ≠ blocks_empty_id.
Proof.
  unfold obscured. rewrite forallb_forall. setoid_rewrite <-list_elem_of_In.
  setoid_rewrite negb_true_iff. setoid_rewrite Z.eqb_neq. done.
Qed.

(** ** generateMeshes *)

Lemma foldl_insert_lookup (v : InstancedMesh) (l : list Z) (m : gmap Z InstancedMesh) b :
  foldl (λ meshes k, <[k := v]> meshes) m l !! b =
  if decide (b ∈ l) then Some v else m !! b.
Proof.
  revert m. induction l as [|k l IH]; intros m; cbn [foldl].
  - by rewrite decide_False by apply not_elem_of_nil.
  - rewrite IH. destruct (decide (b ∈ l)) as [Hin|Hnin].
    + by rewrite decide_True by by right.
    + destruct (decide (b = k)) as [->|Hne].
      * by rewrite lookup_insert_eq, decide_True by left.
      * rewrite lookup_insert_ne by done. rewrite decide_False; [done|].
        by intros [?|?]%elem_of_cons.
Qed.

Lemma fresh_meshes_lookup n b :
  fresh_meshes n !! b =
  if decide (b ∈ blocks_ids ∧ b ≠ blocks_empty_id) then Some (new_mesh n) else None.
Proof.
  unfold fresh_meshes. rewrite foldl_insert_lookup, lookup_empty.
  destruct (decide (b ∈ blocks_ids ∧ b ≠ blocks_empty_id)) as [[Hin Hne]|Hno].
  - rewrite decide_True; [done|]. by apply list_elem_of_filter.
  - rewrite decide_False; [done|]. intros [? ?]%list_elem_of_filter. by apply Hno.
Qed.

Lemma build_meshes_ok n : 0 ≤ n → build_meshes n = Ok (fresh_meshes n).
Proof.
  intros Hn. unfold build_meshes, fresh_meshes, new_InstancedMesh.
  rewrite bool_decide_true by done. generalize (∅ : gmap Z InstancedMesh).
  induction (filter _ blocks_ids) as [|b l IH]; intros m; [done|].
  cbn [foldM foldl]. rewrite !bind_Ok. apply IH.
Qed.

Lemma build_meshes_Ok n m : build_meshes n = Ok m → m = fresh_meshes n.
Proof.
  unfold build_meshes, fresh_meshes, new_InstancedMesh.
  generalize (∅ : gmap Z InstancedMesh).
  induction (filter _ blocks_ids) as [|b l IH]; intros m0; cbn [foldM foldl].
  - congruence.
  - case_bool_decide; [|done]. rewrite !bind_Ok. apply IH.
Qed.

Lemma length_bind_const {A B} (f : A → list B) (l : list A) (n : nat) :
  (∀ a, length (f a) = n) → length (l ≫= f) = (length l * n)%nat.
Proof.
  intros Hf. induction l as [|a l IH]; [done|].
  rewrite bind_cons, length_app, Hf, IH. simpl. lia.
Qed.

Lemma length_grid3 a b d :
  length (grid3 a b d) = (Z.to_nat a * (Z.to_nat b * Z.to_nat d))%nat.
Proof.
  unfold grid3.
  rewrite (length_bind_const _ _ (Z.to_nat b * Z.to_nat d)), length_seqZ; [done|].
  intros i. rewrite (length_bind_const _ _ (Z.to_nat d)), length_seqZ; [done|].
  intros j. rewrite (length_bind_const _ _ 1), length_seqZ; [lia|done].
Qed.

(** While a coordinate is still to be visited, the visited ones are fewer
    than the capacity of a mesh. *)
Lemma length_done_lt_max_count c done p rest :
  chunk_coords c = done ++ p :: rest → Z.of_nat (length done) < max_count c.
Proof.
  intros Hl. assert (p ∈ chunk_coords c) as Hp.
  { rewrite Hl. apply elem_of_app. right. left. }
  destruct p as [[x y] z]. apply elem_of_grid3 in Hp as (Hx & Hy & Hz).
  assert (length (chunk_coords c) = S (length done + length rest)) as Hlen.
  { rewrite Hl, length_app. simpl. lia. }
  unfold chunk_coords, coords in Hlen. rewrite length_grid3 in Hlen.
  unfold max_count.
  assert (Z.of_nat (Z.to_nat (width (size c)) *
            (Z.to_nat (height (size c)) * Z.to_nat (width (size c)))) =
          width (size c) * height (size c) * width (size c)) as Hprod.
  { rewrite !Nat2Z.inj_mul, !Z2Nat.id by lia. lia. }
  lia.
Qed.

Lemma same_fields_max_count c c' : same_fields c c' → max_count c' = max_count c.
Proof. intros (Hsz & _). unfold max_count. by rewrite Hsz. Qed.

(** Visiting a cell that gets no instance. *)
Lemma meshing_skip c0 done p st cell :
  meshing c0 done st →
  cell_at st.1 p = Some cell →
  instanceId cell = None →
  id cell = blocks_empty_id ∨ obscured c0 p = true →
  meshing c0 (done ++ [p]) st.
Proof.
  intros [Hs Hf Hids Hl Hv Hc] Hcell Hnone Hskip.
  split; [done..| |].
  - intros q cell' Hcell'. rewrite (Hv q cell' Hcell'). rewrite elem_of_app.
    rewrite list_elem_of_singleton.
    split; [intros (Hq & Hne & Hobs); split; [by left|done]|].
    intros ([Hq| ->] & Hne & Hobs); [done|]. simplify_eq.
    destruct Hskip; congruence.
  - intros b mesh Hmesh. apply Hc in Hmesh. rewrite length_app. simpl. lia.
Qed.

(** A cell without an instance takes the next slot of the mesh of [b]. *)
Lemma linked_claim c c' meshes p cell b mesh :
  linked c meshes →
  cell_at c p = Some cell → instanceId cell = None →
  meshes !! b = Some mesh →
  max_count c' = max_count c →
  (∀ q, cell_at c' q =
        if decide (q = p)
        then Some {| id := b; instanceId := Some (count mesh) |}
        else cell_at c q) →
  linked c'
    (<[b := {| count := count mesh + 1; capacity := capacity mesh;
               instanceMatrix := <[count mesh := p]> (instanceMatrix mesh) |}]> meshes).
Proof.
  intros Hlk Hcell Hnone Hmesh Hmax Hcells.
  destruct (linked_mesh _ _ Hlk _ _ Hmesh) as [Hcap Hcnt].
  assert (∀ q cell' i, cell_at c q = Some cell' → instanceId cell' = Some i → q ≠ p)
    as Hother.
  { intros q cell' i Hq Hi ->. congruence. }
  split.
  - intros q cell' i. rewrite Hcells. case_decide as Hq.
    + subst q. intros ? ?. simplify_eq. simpl in *. simplify_eq.
      eexists. rewrite lookup_insert_eq. split; [done|]. simpl.
      split; [lia|]. by rewrite lookup_insert_eq.
    + intros Hq' Hi.
      destruct (linked_cell _ _ Hlk _ _ _ Hq' Hi) as (m & Hm & Hrange & Hmat).
      destruct (decide (id cell' = b)) as [Heq|Hneq].
      * rewrite Heq, lookup_insert_eq. rewrite Heq in Hm. simplify_eq.
        eexists. split; [done|]. simpl. split; [lia|].
        rewrite lookup_insert_ne by lia. done.
      * rewrite lookup_insert_ne by done. eauto.
  - intros b' m i. destruct (decide (b' = b)) as [->|Hneq].
    + rewrite lookup_insert_eq. intros ? Hrange. simplify_eq. simpl in *.
      destruct (decide (i = count mesh)) as [->|Hni].
      * eexists p, _. rewrite lookup_insert_eq, Hcells, decide_True by done. done.
      * rewrite lookup_insert_ne by done.
        destruct (linked_slot _ _ Hlk _ _ i Hmesh) as (q & cell' & Hmat & Hq & Hid & Hi);
          [lia|].
        exists q, cell'. rewrite Hcells, decide_False by by eapply Hother. done.
    + rewrite lookup_insert_ne by done. intros Hm Hrange.
      destruct (linked_slot _ _ Hlk _ _ i Hm Hrange) as (q & cell' & Hmat & Hq & Hid & Hi).
      exists q, cell'. rewrite Hcells, decide_False by by eapply Hother. done.
  - intros b'. rewrite <-(linked_keys _ _ Hlk b').
    destruct (decide (b' = b)) as [->|Hneq].
    + rewrite lookup_insert_eq, Hmesh. split; eauto.
    + by rewrite lookup_insert_ne.
  - intros b' m. rewrite Hmax.
    destruct (decide (b' = b)) as [->|Hneq].
    + rewrite lookup_insert_eq. intros ?. simplify_eq. simpl. split; [done|lia].
    + rewrite lookup_insert_ne by done. by apply (linked_mesh _ _ Hlk).
Qed.

(** Visiting a visible cell: it takes the next slot of its mesh. *)
Lemma meshing_claim c0 done x y z rest c c' meshes mesh cell :
  chunk_coords c0 = done ++ (x, y, z) :: rest →
  meshing c0 done (c, meshes) →
  cell_at c (x, y, z) = Some cell →
  instanceId cell = None →
  id cell ≠ blocks_empty_id →
  obscured c0 (x, y, z) = false →
  meshes !! id cell = Some mesh →
  updated (set_instanceId (Some (count mesh))) (x, y, z) c c' →
  meshing c0 (done ++ [(x, y, z)])
    (c', <[id cell := set_count (setMatrixAt mesh (count mesh) (Some (x, y, z)))
                        (count mesh + 1)]> meshes).
Proof.
  intros Hl [Hs Hf Hids Hlk Hv Hc] Hcell Hnone Hne Hobs Hmesh Hupd. simpl in *.
  pose proof (length_done_lt_max_count _ _ _ _ Hl) as Hlen.
  destruct (linked_mesh _ _ Hlk _ _ Hmesh) as [Hcap Hcnt].
  pose proof (Hc _ _ Hmesh) as Hbound.
  assert (max_count c = max_count c0) as Hmax by by apply same_fields_max_count.
  assert (setMatrixAt mesh (count mesh) (Some (x, y, z)) =
          {| count := count mesh; capacity := capacity mesh;
             instanceMatrix := <[count mesh := (x, y, z)]> (instanceMatrix mesh) |})
    as Hset.
  { unfold setMatrixAt. rewrite bool_decide_true; [done|]. lia. }
  rewrite Hset. clear Hset. unfold set_count. simpl.
  destruct Hupd as [Hsame Hcells].
  split; simpl.
  - by eapply updated_shaped.
  - by eapply same_fields_trans.
  - intros q. rewrite Hcells, <-Hids. case_decide; [|done].
    by destruct (cell_at c q).
  - eapply linked_claim; [done..|by apply same_fields_max_count|].
    intros q. rewrite Hcells. case_decide; [|done]. subst q. by rewrite Hcell.
  - intros q cell'. rewrite Hcells, elem_of_app, list_elem_of_singleton.
    case_decide as Hq.
    + subst q. rewrite Hcell. simpl. intros ?. simplify_eq. simpl.
      split; [intros _; auto|by eauto].
    + intros Hq'. rewrite (Hv _ _ Hq').
      split; [intros (? & ? & ?); auto|]. by intros ([?|?] & ? & ?).
  - intros b m. rewrite length_app. simpl.
    destruct (decide (b = id cell)) as [->|Hneq].
    + rewrite lookup_insert_eq. intros ?. simplify_eq. simpl. lia.
    + rewrite lookup_insert_ne by done. intros Hm%Hc. lia.
Qed.

Lemma count_setMatrixAt mesh i m : count (setMatrixAt mesh i m) = count mesh.
Proof. unfold setMatrixAt. by case_bool_decide. Qed.

Lemma capacity_setMatrixAt mesh i m : capacity (setMatrixAt mesh i m) = capacity mesh.
Proof. unfold setMatrixAt. by case_bool_decide. Qed.

Lemma mesh_cell_step c0 done x y z rest c meshes :
  chunk_coords c0 = done ++ (x, y, z) :: rest →
  meshing c0 done (c, meshes) →
  (∀ cell, cell_at c (x, y, z) = Some cell → id cell ≠ blocks_empty_id →
           is_Some (meshes !! id cell)) →
  ∃ st', mesh_cell x y z (c, meshes) = Ok st' ∧ meshing c0 (done ++ [(x, y, z)]) st'.
Proof.
  intros Hl Hm Hreg.
  pose proof Hm as [Hs Hf Hids Hlk Hv Hc]. simpl in *.
  assert ((x, y, z) ∈ chunk_coords c0) as Hin.
  { rewrite Hl. apply elem_of_app. right. left. }
  assert ((x, y, z) ∉ done) as Hfresh.
  { pose proof (NoDup_grid3 (width (size c0)) (height (size c0)) (width (size c0))) as Hnd.
    fold (coords (width (size c0)) (height (size c0))) in Hnd.
    fold (chunk_coords c0) in Hnd. rewrite Hl in Hnd.
    apply NoDup_app in Hnd as (_ & Hnd & _). intros Hd. apply (Hnd _ Hd). left. }
  assert (is_Some (cell_at c (x, y, z))) as [cell Hcell].
  { apply Hs. apply inBounds_spec. destruct Hf as (-> & _).
    by apply elem_of_grid3 in Hin. }
  assert (instanceId cell = None) as Hnone.
  { apply eq_None_not_Some. intros Hsome. apply (Hv _ _ Hcell) in Hsome as (? & _). done. }
  unfold mesh_cell. rewrite getBlock_shaped, bind_Ok, Hcell by done.
  destruct (id cell =? blocks_empty_id) eqn:Hid.
  { apply Z.eqb_eq in Hid. exists (c, meshes). split; [done|].
    eapply meshing_skip; eauto. }
  apply Z.eqb_neq in Hid.
  destruct (Hreg cell) as [mesh Hmesh]; [done..|].
  rewrite Hmesh. simpl. rewrite isBlockObscured_shaped, bind_Ok by done.
  rewrite (obscured_ext c0 c) by done.
  destruct (obscured c0 (x, y, z)) eqn:Hobs.
  { exists (c, meshes). split; [done|]. eapply meshing_skip; eauto. }
  destruct (setBlockInstanceId_updated c x y z (Some (count mesh)) Hs)
    as (c' & -> & Hupd).
  rewrite bind_Ok, count_setMatrixAt. eexists. split; [done|].
  by eapply meshing_claim.
Qed.

(** With every block registered, the visit does not throw. *)
Lemma mesh_cell_registered c0 done x y z rest st :
  registered c0 →
  chunk_coords c0 = done ++ (x, y, z) :: rest →
  meshing c0 done st →
  ∃ st', mesh_cell x y z st = Ok st' ∧ meshing c0 (done ++ [(x, y, z)]) st'.
Proof.
  intros Hreg Hl Hm. destruct st as [c meshes]. apply mesh_cell_step with rest; [done..|].
  intros cell Hcell Hid. destruct Hm as [_ _ Hids Hlk _ _]. simpl in *.
  apply (linked_keys _ _ Hlk). split; [|done].
  pose proof (Hids (x, y, z)) as Hid0. rewrite Hcell in Hid0.
  destruct (cell_at c0 (x, y, z)) as [cell0|] eqn:Hcell0; [|done].
  simpl in Hid0. injection Hid0 as Hid0. rewrite Hid0.
  apply (Hreg _ _ Hcell0). congruence.
Qed.

(** A visit that did not throw found the mesh it needed. *)
Lemma mesh_cell_Ok c0 done x y z rest st st' :
  chunk_coords c0 = done ++ (x, y, z) :: rest →
  meshing c0 done st →
  mesh_cell x y z st = Ok st' →
  meshing c0 (done ++ [(x, y, z)]) st'.
Proof.
  intros Hl Hm Hrun. destruct st as [c meshes].
  destruct (mesh_cell_step c0 done x y z rest c meshes) as (st'' & Hrun' & Hm');
    [done..| |congruence].
  intros cell Hcell Hid. unfold mesh_cell in Hrun.
  rewrite getBlock_shaped, bind_Ok, Hcell in Hrun by apply Hm.
  rewrite (proj2 (Z.eqb_neq _ _) Hid) in Hrun.
  destruct (meshes !! id cell); [eauto|done].
Qed.

Lemma meshing_start c :
  shaped c →
  (∀ q cell, cell_at c q = Some cell → instanceId cell = None) →
  meshing (with_children c ∅) [] (with_children c ∅, fresh_meshes (max_count c)).
Proof.
  intros Hs Hnone. split; simpl.
  - done.
  - apply same_fields_refl.
  - done.
  - split.
    + intros q cell i Hcell Hi. rewrite (Hnone q cell) in Hi by done. done.
    + intros b mesh i. rewrite fresh_meshes_lookup. case_decide; [|done].
      intros ?. simplify_eq. simpl. lia.
    + intros b. rewrite fresh_meshes_lookup. case_decide as Hb.
      * split; [done|eauto].
      * split; [by intros [? ?]|done].
    + intros b mesh. rewrite fresh_meshes_lookup. case_decide; [|done].
      intros ?. by simplify_eq.
  - intros q cell Hcell. rewrite (Hnone q cell) by done.
    split; [by intros [? ?]|]. by intros (?%elem_of_nil & _).
  - intros b mesh. rewrite fresh_meshes_lookup. case_decide; [|done].
    intros ?. by simplify_eq.
Qed.

Lemma meshing_finish c c1 meshes :
  meshing (with_children c ∅) (chunk_coords c) (c1, meshes) →
  meshed c (with_children c1 meshes).
Proof.
  intros [Hs1 Hf Hids Hlk Hv Hc]. simpl in *.
  destruct Hf as (Hsz & Hps & Hpos & Hch & Hld).
  simpl in Hsz, Hps, Hpos, Hch, Hld.
  split; [done|]. split; [done|]. split; [done|]. split.
  { split; [done|]. simpl.
    destruct Hlk as [Hlc Hlsl Hlk Hlm]. split; try done. }
  intros q cell Hcell. change (cell_at c1 q = Some cell) in Hcell.
  rewrite (obscured_ext (with_children c ∅) (with_children c1 meshes)) by done.
  rewrite eq_None_not_Some, (Hv _ _ Hcell).
  assert (q ∈ chunk_coords c) as Hq.
  { destruct q as [[x y] z]. apply elem_of_grid3. rewrite <-Hsz.
    apply inBounds_spec. apply Hs1. eauto. }
  destruct (decide (id cell = blocks_empty_id)) as [Hid|Hid].
  { split; [auto|]. intros _ (_ & ? & _). done. }
  destruct (obscured (with_children c ∅) q) eqn:Hobs.
  { split; [auto|]. intros _ (_ & _ & ?). done. }
  split; [|by intros [?|?]]. intros Hneg. exfalso. by apply Hneg.
Qed.

(** [generateMeshes] on a grid without instances: it does not throw when
    every block is registered and the buffers can be allocated. *)
Lemma generateMeshes_spec c :
  0 ≤ max_count c →
  shaped c → registered c →
  (∀ q cell, cell_at c q = Some cell → instanceId cell = None) →
  ∃ c', generateMeshes c = Ok c' ∧ meshed c c'.
Proof.
  intros Hmax Hs Hreg Hnone. unfold generateMeshes. cbn zeta.
  change (width (size (with_children c ∅))) with (width (size c)).
  change (height (size (with_children c ∅))) with (height (size c)).
  fold (max_count c). rewrite build_meshes_ok, bind_Ok by done.
  rewrite for_nest_grid3.
  destruct (foldM_inv (meshing (with_children c ∅))
              (λ p, mesh_cell p.1.1 p.1.2 p.2)
              (grid3 (width (size c)) (height (size c)) (width (size c)))
              (with_children c ∅, fresh_meshes (max_count c)))
    as ([c1 meshes] & Hrun & Hm).
  { by apply meshing_start. }
  { intros done [[x y] z] rest st Hl Hm. simpl. by eapply mesh_cell_registered. }
  rewrite Hrun, bind_Ok. eexists. split; [done|]. by apply meshing_finish.
Qed.

(** ... and whenever it does not throw, it has established the same. *)
Lemma generateMeshes_Ok c c' :
  shaped c →
  (∀ q cell, cell_at c q = Some cell → instanceId cell = None) →
  generateMeshes c = Ok c' → meshed c c'.
Proof.
  intros Hs Hnone. unfold generateMeshes. cbn zeta.
  change (width (size (with_children c ∅))) with (width (size c)).
  change (height (size (with_children c ∅))) with (height (size c)).
  fold (max_count c).
  intros (meshes0 & ->%build_meshes_Ok & Hrun)%bind_Ok_inv.
  rewrite for_nest_grid3 in Hrun.
  apply bind_Ok_inv in Hrun as ([c1 meshes] & Hrun & Hret).
  injection Hret as <-. apply meshing_finish.
  eapply (foldM_inv_Ok (meshing (with_children c ∅))); [|by apply meshing_start|done].
  intros done [[x y] z] rest st st' Hl Hm. simpl. by eapply mesh_cell_Ok.
Qed.

(** ** generate *)

Lemma blocks_empty_registered : blocks_empty_id ∈ blocks_ids.
Proof. unfold blocks_ids. by left. Qed.

Lemma blocks_grass_registered : blocks_grass_id ∈ blocks_ids.
Proof. unfold blocks_ids. right. by left. Qed.

Lemma blocks_dirt_registered : blocks_dirt_id ∈ blocks_ids.
Proof. unfold blocks_ids. right. right. by left. Qed.

Lemma stamp_registered ps pos rs q i :
  Forall (λ r, res_id r ∈ blocks_ids) rs → i ∈ blocks_ids →
  stamp ps pos rs q i ∈ blocks_ids.
Proof.
  unfold stamp. intros Hrs. revert i.
  induction Hrs as [|r rs Hr Hrs IH]; intros i Hi; simpl; [done|].
  apply IH. by destruct (resource_hit _ _ _ _ _ _).
Qed.

Lemma terrain_id_registered h y i :
  i ∈ blocks_ids → terrain_id h y i ∈ blocks_ids.
Proof.
  intros Hi. unfold terrain_id.
  repeat case_match;
    auto using blocks_empty_registered, blocks_grass_registered, blocks_dirt_registered.
Qed.

Lemma generated_id_registered store c q :
  resources_registered → store_registered store (position c) →
  generated_id store c q ∈ blocks_ids.
Proof.
  intros Hres Hstore. unfold generated_id, overlay_id.
  destruct (ds_contains _ _ _ _ _ _) eqn:Hc; [by apply Hstore|].
  apply terrain_id_registered, stamp_registered; [done|].
  apply blocks_empty_registered.
Qed.

(** The grid before meshing: ids are [generated_id], no cell has an instance. *)
Lemma generate_grid store c :
  ∃ c3,
    (c1 ← generateResources (initializeTerrain c);
     c2 ← generateTerrain c1;
     loadPlayerChanges store c2) = Ok c3 ∧
    shaped c3 ∧ same_fields c c3 ∧
    ∀ x y z,
      cell_at c3 (x, y, z) =
      if inBounds c x y z
      then Some {| id := generated_id store c (x, y, z); instanceId := None |}
      else None.
Proof.
  pose proof (initializeTerrain_shaped c) as Hs0.
  destruct (generateResources_remapped _ Hs0) as (c1 & -> & Hm1).
  pose proof (remapped_shaped _ _ _ Hs0 Hm1) as Hs1. rewrite bind_Ok.
  destruct (generateTerrain_remapped _ Hs1) as (c2 & -> & Hm2).
  pose proof (remapped_shaped _ _ _ Hs1 Hm2) as Hs2. rewrite bind_Ok.
  destruct (loadPlayerChanges_remapped store _ Hs2) as (c3 & -> & Hm3).
  pose proof (remapped_shaped _ _ _ Hs2 Hm3) as Hs3.
  exists c3. split; [done|]. split; [done|].
  destruct Hm1 as [Hf1 Hc1], Hm2 as [Hf2 Hc2], Hm3 as [Hf3 Hc3].
  assert (same_fields c c1) as Hf01 by done.
  assert (same_fields c c2) as Hf02 by by eapply same_fields_trans.
  split; [by eapply same_fields_trans|].
  intros x y z. rewrite Hc3, Hc2, Hc1, initializeTerrain_cell.
  destruct (inBounds c x y z); [simpl|done].
  destruct Hf01 as (Hsz1 & Hps1 & Hpos1 & _), Hf02 as (Hsz2 & Hps2 & Hpos2 & _).
  unfold generated_id, set_id. simpl.
  by rewrite Hsz1, Hps1, Hpos1, Hpos2.
Qed.

Lemma generate_finish store c c3 c4 :
  same_fields c c3 →
  (∀ x y z,
     cell_at c3 (x, y, z) =
     if inBounds c x y z
     then Some {| id := generated_id store c (x, y, z); instanceId := None |}
     else None) →
  meshed c3 c4 →
  generated store c (with_loaded c4 true).
Proof.
  intros (Hsz & Hps & Hpos & Hch & Hld) Hcells
    ((Hsz4 & Hps4 & Hpos4) & Hld4 & Hids & Hinv & Hvis).
  split; [repeat split; simpl; congruence|]. split; [done|]. split.
  { destruct Hinv as [Hs4 [Hl1 Hl2 Hl3 Hl4]]. split; [done|]. by split. }
  split.
  - intros x y z cell Hcell. change (cell_at c4 (x, y, z) = Some cell) in Hcell.
    pose proof (Hids (x, y, z)) as Hid. rewrite Hcell, Hcells in Hid.
    destruct (inBounds c x y z); [|done]. simpl in Hid. by simplify_eq.
  - intros q cell Hcell. change (cell_at c4 q = Some cell) in Hcell.
    rewrite (Hvis _ _ Hcell).
    by rewrite (obscured_ext c4 (with_loaded c4 true)).
Qed.

(** [generate] does not throw when every generated block is registered and
    the mesh buffers can be allocated. *)
Lemma generate_spec store c :
  0 ≤ max_count c →
  (∀ x y z, inBounds c x y z = true →
     generated_id store c (x, y, z) ≠ blocks_empty_id →
     generated_id store c (x, y, z) ∈ blocks_ids) →
  ∃ c', generate store c = Ok c' ∧ generated store c c'.
Proof.
  intros Hmax Hreg. unfold generate.
  destruct (generate_grid store c) as (c3 & Hrun & Hs3 & Hf3 & Hcells).
  apply bind_Ok_inv in Hrun as (c1 & -> & Hrun).
  apply bind_Ok_inv in Hrun as (c2 & Hrun2 & Hrun3).
  rewrite bind_Ok, Hrun2, bind_Ok, Hrun3, bind_Ok.
  destruct (generateMeshes_spec c3) as (c4 & -> & Hmeshed).
  { unfold max_count. destruct Hf3 as (-> & _). done. }
  { done. }
  { intros [[x y] z] cell. rewrite Hcells.
    destruct (inBounds c x y z) eqn:Hb; [|done]. intros ?. simplify_eq. simpl.
    by apply Hreg. }
  { intros [[x y] z] cell. rewrite Hcells.
    destruct (inBounds c x y z); [|done]. intros ?. by simplify_eq. }
  rewrite bind_Ok. eexists. split; [done|]. by eapply generate_finish.
Qed.

(** ... and whenever it does not throw, it has established the same. *)
Lemma generate_Ok store c c' : generate store c = Ok c' → generated store c c'.
Proof.
  unfold generate.
  destruct (generate_grid store c) as (c3 & Hrun & Hs3 & Hf3 & Hcells).
  apply bind_Ok_inv in Hrun as (c1 & -> & Hrun).
  apply bind_Ok_inv in Hrun as (c2 & Hrun2 & Hrun3).
  rewrite bind_Ok, Hrun2, bind_Ok, Hrun3, bind_Ok.
  intros (c4 & Hrun4 & [= <-])%bind_Ok_inv.
  eapply generate_finish; [done..|]. apply generateMeshes_Ok; [done| |done].
  intros [[x y] z] cell. rewrite Hcells.
  destruct (inBounds c x y z); [|done]. intros ?. by simplify_eq.
Qed.

(** ** Writes that change nothing *)

Lemma arr_get_lookup {A} (l : list A) i a : arr_get l i = Some a → l !! Z.to_nat i = Some a.
Proof. unfold arr_get. by case_bool_decide. Qed.

Lemma with_data_same c : with_data c (data c) = c.
Proof. by destruct c. Qed.

Lemma assign_cell_same f c x y z cell :
  cell_at c (x, y, z) = Some cell → f cell = cell → assign_cell f c x y z = Ok c.
Proof.
  unfold cell_at, assign_cell. simpl. intros Hcell Hf.
  destruct (arr_get (data c) x) as [slice|] eqn:Hx; [simpl in *|done].
  destruct (arr_get slice y) as [row|] eqn:Hy; [simpl in *|done].
  rewrite Hcell. simpl. rewrite Hf.
  rewrite (list_insert_id row) by by apply arr_get_lookup.
  rewrite (list_insert_id slice) by by apply arr_get_lookup.
  rewrite (list_insert_id (data c)) by by apply arr_get_lookup.
  by rewrite with_data_same.
Qed.

Lemma setBlockId_same c x y z cell :
  cell_at c (x, y, z) = Some cell → setBlockId c x y z (id cell) = Ok c.
Proof.
  intros Hcell. unfold setBlockId. destruct (inBounds c x y z); [|done].
  apply assign_cell_same with cell; [done|]. by destruct cell.
Qed.

(** ** Counting instances *)

(** The active slots of a mesh hold distinct coordinates of the chunk, so
    cells that own no slot of the mesh leave room in it. *)
Lemma count_plus_free c b mesh (free : list (Z * Z * Z)) :
  chunk_inv c →
  0 ≤ max_count c →
  children c !! b = Some mesh →
  NoDup free →
  (∀ q, q ∈ free → ∃ cell, cell_at c q = Some cell ∧
                           (id cell ≠ b ∨ instanceId cell = None)) →
  count mesh + Z.of_nat (length free) ≤ max_count c.
Proof.
  intros [Hs Hlk] Hmax Hmesh Hnd Hfree.
  destruct (linked_mesh _ _ Hlk _ _ Hmesh) as [_ Hcnt].
  set (pos_of := λ i : Z, default (0, 0, 0) (instanceMatrix mesh !! i)).
  set (owned := pos_of <$> seqZ 0 (count mesh)).
  assert (∀ i, 0 ≤ i < count mesh →
            ∃ cell, cell_at c (pos_of i) = Some cell ∧ id cell = b ∧
                    instanceId cell = Some i) as Hslot.
  { intros i Hi. destruct (linked_slot _ _ Hlk _ _ i Hmesh Hi)
      as (q & cell & Hq & Hcell & Hid & Hinst).
    exists cell. unfold pos_of. by rewrite Hq. }
  assert (NoDup (owned ++ free)) as Hnd'.
  { apply NoDup_app. split_and!; [| |done].
    - apply NoDup_fmap_2_strong; [|apply NoDup_seqZ].
      intros i j Hi%elem_of_seqZ Hj%elem_of_seqZ Heq.
      destruct (Hslot i) as (ci & Hci & _ & Hii); [lia|].
      destruct (Hslot j) as (cj & Hcj & _ & Hij); [lia|].
      rewrite Heq in Hci. congruence.
    - intros q (i & -> & Hi%elem_of_seqZ)%list_elem_of_fmap Hq.
      destruct (Hslot i) as (ci & Hci & Hidi & Hii); [lia|].
      destruct (Hfree _ Hq) as (cq & Hcq & Hor). simplify_eq.
      destruct Hor; congruence. }
  assert (owned ++ free ⊆+ chunk_coords c) as Hsub.
  { apply NoDup_submseteq; [done|]. intros [[x y] z] Hin.
    apply elem_of_grid3, inBounds_spec, Hs.
    apply elem_of_app in Hin as [(i & -> & Hi%elem_of_seqZ)%list_elem_of_fmap|Hin].
    - destruct (Hslot i) as (ci & Hci & _); [lia|]. eauto.
    - destruct (Hfree _ Hin) as (cq & Hcq & _). eauto. }
  apply submseteq_length in Hsub.
  unfold owned in Hsub. rewrite length_app, length_fmap, length_seqZ in Hsub.
  unfold chunk_coords, coords in Hsub. rewrite length_grid3 in Hsub.
  unfold max_count.
  destruct (decide (0 < width (size c) ∧ 0 < height (size c))) as [[Hw Hh]|Hno].
  - assert (Z.of_nat (Z.to_nat (width (size c)) *
              (Z.to_nat (height (size c)) * Z.to_nat (width (size c)))) =
            width (size c) * height (size c) * width (size c)) as Hprod.
    { rewrite !Nat2Z.inj_mul, !Z2Nat.id by lia. lia. }
    lia.
  - assert ((Z.to_nat (width (size c)) *
              (Z.to_nat (height (size c)) * Z.to_nat (width (size c))))%nat = 0%nat)
      as Hzero.
    { destruct (decide (0 < width (size c))).
      - rewrite (Z2Nat.nonpos (height (size c))) by lia. lia.
      - rewrite (Z2Nat.nonpos (width (size c))) by lia. lia. }
    unfold max_count in Hmax. lia.
Qed.

Lemma inBounds_max_count c x y z : inBounds c x y z = true → 0 < max_count c.
Proof. intros (? & ? & ?)%inBounds_spec. unfold max_count. nia. Qed.

(** ** addBlock *)

Lemma shaped_with_children c m : shaped c → shaped (with_children c m).
Proof. done. Qed.

Lemma empty_cell_no_instance c q cell :
  chunk_inv c → cell_at c q = Some cell → id cell = blocks_empty_id →
  instanceId cell = None.
Proof.
  intros [_ Hlk] Hcell Hid. apply eq_None_not_Some. intros [i Hi].
  destruct (linked_cell _ _ Hlk _ _ _ Hcell Hi) as (mesh & Hmesh & _).
  assert (is_Some (children c !! id cell)) as Hsome by eauto.
  apply (linked_keys _ _ Hlk) in Hsome as [_ Hne]. done.
Qed.

(** Placing a registered, non-empty block in an empty cell. *)
Lemma addBlock_place store c x y z newId cell mesh :
  chunk_inv c →
  cell_at c (x, y, z) = Some cell → id cell = blocks_empty_id →
  newId ≠ blocks_empty_id →
  children c !! newId = Some mesh →
  ∃ c',
    addBlock store c x y z newId =
      Ok (c', ds_set store (pos_x (position c)) (pos_z (position c)) x y z newId) ∧
    same_setup c c' ∧ loaded c' = loaded c ∧
    children c' =
      <[newId := {| count := count mesh + 1; capacity := capacity mesh;
                    instanceMatrix := <[count mesh := (x, y, z)]> (instanceMatrix mesh) |}]>
        (children c) ∧
    (∀ q, cell_at c' q =
          if decide (q = (x, y, z))
          then Some {| id := newId; instanceId := Some (count mesh) |}
          else cell_at c q) ∧
    chunk_inv c'.
Proof.
  intros Hinv Hcell Hid Hnew Hmesh. pose proof Hinv as [Hs Hlk].
  pose proof (empty_cell_no_instance _ _ _ Hinv Hcell Hid) as Hnone.
  assert (inBounds c x y z = true) as Hb by (apply Hs; eauto).
  destruct (linked_mesh _ _ Hlk _ _ Hmesh) as [Hcap Hcnt].
  assert (count mesh < capacity mesh) as Hroom.
  { pose proof (count_plus_free c newId mesh [(x, y, z)] Hinv) as Hfree.
    simpl in Hfree. rewrite Hcap.
    cut (count mesh + 1 ≤ max_count c); [lia|]. apply Hfree; [|done| |].
    - apply inBounds_max_count in Hb. lia.
    - apply NoDup_singleton.
    - intros q ->%list_elem_of_singleton. exists cell. auto. }
  unfold addBlock. rewrite getBlock_shaped, bind_Ok, Hcell by done.
  rewrite (proj2 (Z.eqb_eq _ _) Hid).
  destruct (setBlockId_updated c x y z newId Hs) as (c1 & -> & Hupd1).
  rewrite bind_Ok. pose proof (updated_shaped _ _ _ _ Hs Hupd1) as Hs1.
  destruct Hupd1 as [(Hsz1 & Hps1 & Hpos1 & Hch1 & Hld1) Hcells1].
  assert (cell_at c1 (x, y, z) = Some (set_id newId cell)) as Hcell1.
  { by rewrite Hcells1, decide_True, Hcell. }
  unfold addBlockInstance. rewrite getBlock_shaped, bind_Ok, Hcell1 by done.
  simpl. rewrite (proj2 (Z.eqb_neq _ _) Hnew). simpl.
  rewrite bool_decide_true by done. rewrite Hch1, Hmesh. simpl.
  destruct (setBlockInstanceId_updated
              (with_children c1 (<[newId := set_count mesh (count mesh + 1)]> (children c)))
              x y z (Some (count mesh)))
    as (c2 & -> & Hupd2); [done|].
  rewrite !bind_Ok.
  destruct Hupd2 as [(Hsz2 & Hps2 & Hpos2 & Hch2 & Hld2) Hcells2]. simpl in *.
  assert (setMatrixAt (set_count mesh (count mesh + 1)) (count mesh) (Some (x, y, z)) =
          {| count := count mesh + 1; capacity := capacity mesh;
             instanceMatrix := <[count mesh := (x, y, z)]> (instanceMatrix mesh) |})
    as ->.
  { unfold setMatrixAt, set_count. simpl. rewrite bool_decide_true; [done|]. lia. }
  rewrite Hch2, insert_insert_eq.
  assert (∀ q, cell_at c2 q =
               if decide (q = (x, y, z))
               then Some {| id := newId; instanceId := Some (count mesh) |}
               else cell_at c q) as Hcells.
  { intros q. rewrite Hcells2. change (cell_at (with_children c1 _) q) with (cell_at c1 q).
    rewrite Hcells1. case_decide; [|done]. subst q. by rewrite Hcell. }
  eexists. split; [by rewrite Hpos2, Hpos1|].
  split; [repeat split; simpl; congruence|].
  split; [simpl; congruence|]. split; [done|]. split; [done|].
  split.
  - intros x' y' z'. change (cell_at (with_children c2 _) ?q) with (cell_at c2 q).
    rewrite Hcells.
    assert (inBounds (with_children c2
               (<[newId := {| count := count mesh + 1; capacity := capacity mesh;
                  instanceMatrix := <[count mesh := (x, y, z)]> (instanceMatrix mesh) |}]>
                  (children c))) x' y' z' = inBounds c x' y' z') as ->.
    { unfold inBounds. simpl. by rewrite Hsz2, Hsz1. }
    case_decide as Hq; [|apply Hs]. simplify_eq. split; [done|eauto].
  - simpl. eapply linked_claim; [done..| |done].
    unfold max_count. simpl. by rewrite Hsz2, Hsz1.
Qed.

(** ** removeBlock *)

(** Removing a block that has no instance touches no mesh. *)
Lemma removeBlock_hidden store c x y z cell :
  chunk_inv c →
  cell_at c (x, y, z) = Some cell → id cell ≠ blocks_empty_id →
  instanceId cell = None →
  ∃ c',
    removeBlock store c x y z =
      Ok (c', ds_set store (pos_x (position c)) (pos_z (position c)) x y z
                blocks_empty_id) ∧
    same_fields c c' ∧
    (∀ q, cell_at c' q =
          if decide (q = (x, y, z))
          then Some {| id := blocks_empty_id; instanceId := None |}
          else cell_at c q) ∧
    chunk_inv c'.
Proof.
  intros [Hs Hlk] Hcell Hid Hnone.
  unfold removeBlock. rewrite getBlock_shaped, bind_Ok, Hcell by done.
  rewrite (proj2 (Z.eqb_neq _ _) Hid). simpl.
  unfold deleteBlockInstance. rewrite getBlock_shaped, bind_Ok, Hcell, Hnone by done.
  rewrite bind_Ok.
  destruct (setBlockId_updated c x y z blocks_empty_id Hs) as (c' & -> & Hupd).
  rewrite bind_Ok. pose proof (updated_shaped _ _ _ _ Hs Hupd) as Hs'.
  destruct Hupd as [Hsame Hcells]. pose proof Hsame as (Hsz & Hps & Hpos & Hch & Hld).
  assert (∀ q, cell_at c' q =
               if decide (q = (x, y, z))
               then Some {| id := blocks_empty_id; instanceId := None |}
               else cell_at c q) as Hcells'.
  { intros q. rewrite Hcells. case_decide; [|done]. subst q. rewrite Hcell.
    unfold set_id. simpl. by rewrite Hnone. }
  exists c'. split; [by rewrite Hpos|]. split; [done|]. split; [done|].
  split; [done|]. rewrite Hch. destruct Hlk as [Hl1 Hl2 Hl3 Hl4].
  assert (∀ q cell' i, cell_at c q = Some cell' → instanceId cell' = Some i →
            q ≠ (x, y, z)) as Hother.
  { intros q cell' i Hq Hi ->. congruence. }
  split.
  - intros q cell' i. rewrite Hcells'. case_decide; [by intros ? ?; simplify_eq|].
    apply Hl1.
  - intros b mesh i Hmesh Hi.
    destruct (Hl2 b mesh i Hmesh Hi) as (q & cell' & Hmat & Hq & Hidq & Hiq).
    exists q, cell'. rewrite Hcells', decide_False by by eapply Hother. done.
  - done.
  - intros b mesh. rewrite (same_fields_max_count c c') by done. apply Hl4.
Qed.

(** Swap-with-last on the link between cells and slots. *)
Lemma linked_release c c' meshes p cell i mesh qlast e :
  linked c meshes →
  cell_at c p = Some cell → instanceId cell = Some i →
  meshes !! id cell = Some mesh →
  instanceMatrix mesh !! (count mesh - 1) = Some qlast →
  max_count c' = max_count c →
  (∀ q, cell_at c' q =
        if decide (q = p) then Some {| id := e; instanceId := None |}
        else if decide (q = qlast) then set_instanceId (Some i) <$> cell_at c q
        else cell_at c q) →
  linked c'
    (<[id cell := {| count := count mesh - 1; capacity := capacity mesh;
                     instanceMatrix := <[i := qlast]> (instanceMatrix mesh) |}]> meshes).
Proof.
  intros Hlk Hcell Hi Hmesh Hlast Hmax Hcells.
  destruct (linked_cell _ _ Hlk _ _ _ Hcell Hi) as (mesh0 & Hmesh0 & Hrange & Hmat).
  rewrite Hmesh in Hmesh0. injection Hmesh0 as <-.
  destruct (linked_slot _ _ Hlk _ _ (count mesh - 1) Hmesh)
    as (q0 & cell_l & Hlast0 & Hcell_l & Hid_l & Hi_l); [lia|].
  rewrite Hlast in Hlast0. injection Hlast0 as <-.
  destruct (linked_mesh _ _ Hlk _ _ Hmesh) as [Hcap Hcnt].
  assert (p ≠ qlast → i < count mesh - 1) as Hmid.
  { intros Hne. destruct (decide (i = count mesh - 1)) as [->|]; [|lia]. congruence. }
  split.
  - intros q cell' j. rewrite Hcells.
    destruct (decide (q = p)) as [->|Hqp]; [by intros ? ?; simplify_eq|].
    destruct (decide (q = qlast)) as [->|Hql].
    + rewrite Hcell_l. simpl. intros Hc' Hj. injection Hc' as <-. simpl in Hj.
      injection Hj as <-. simpl.
      rewrite Hid_l, lookup_insert_eq. eexists. split; [done|]. simpl.
      split; [|by rewrite lookup_insert_eq]. assert (i < count mesh - 1) by auto. lia.
    + intros Hq Hj.
      destruct (linked_cell _ _ Hlk _ _ _ Hq Hj) as (m & Hm & Hjr & Hjm).
      destruct (decide (id cell' = id cell)) as [Heq|Hneq].
      * rewrite Heq, lookup_insert_eq. rewrite Heq, Hmesh in Hm. injection Hm as <-.
        assert (j ≠ i) by (intros ->; congruence).
        assert (j ≠ count mesh - 1) by (intros ->; congruence).
        eexists. split; [done|]. simpl. split; [lia|]. by rewrite lookup_insert_ne.
      * rewrite lookup_insert_ne by done. eauto.
  - intros b m j. destruct (decide (b = id cell)) as [->|Hneq].
    + rewrite lookup_insert_eq. intros ? Hjr. simplify_eq. simpl in *.
      destruct (decide (j = i)) as [->|Hji].
      * assert (p ≠ qlast) as Hne by (intros ->; simplify_eq; lia).
        exists qlast, (set_instanceId (Some i) cell_l).
        rewrite lookup_insert_eq, Hcells, decide_False, decide_True, Hcell_l by done.
        done.
      * destruct (linked_slot _ _ Hlk _ _ j Hmesh) as (q & cq & Hqm & Hq & Hidq & Hiq);
          [lia|].
        assert (q ≠ p) by (intros ->; congruence).
        assert (q ≠ qlast) by (intros ->; simplify_eq; lia).
        exists q, cq. rewrite lookup_insert_ne, Hcells, !decide_False by done. done.
    + rewrite lookup_insert_ne by done. intros Hm Hjr.
      destruct (linked_slot _ _ Hlk _ _ j Hm Hjr) as (q & cq & Hqm & Hq & Hidq & Hiq).
      assert (q ≠ p) by (intros ->; congruence).
      assert (q ≠ qlast) by (intros ->; congruence).
      exists q, cq. rewrite Hcells, !decide_False by done. done.
  - intros b. rewrite <-(linked_keys _ _ Hlk b).
    destruct (decide (b = id cell)) as [->|Hneq].
    + rewrite lookup_insert_eq, Hmesh. split; eauto.
    + by rewrite lookup_insert_ne.
  - intros b m. rewrite Hmax. destruct (decide (b = id cell)) as [->|Hneq].
    + rewrite lookup_insert_eq. intros ?. simplify_eq. simpl. split; [done|lia].
    + rewrite lookup_insert_ne by done. by apply (linked_mesh _ _ Hlk).
Qed.

(** Removing a block that owns slot [i] of its mesh. *)
Lemma removeBlock_visible store c x y z cell i mesh :
  chunk_inv c →
  cell_at c (x, y, z) = Some cell → id cell ≠ blocks_empty_id →
  instanceId cell = Some i →
  children c !! id cell = Some mesh →
  ∃ c' qlast,
    instanceMatrix mesh !! (count mesh - 1) = Some qlast ∧
    removeBlock store c x y z =
      Ok (c', ds_set store (pos_x (position c)) (pos_z (position c)) x y z
                blocks_empty_id) ∧
    same_setup c c' ∧ loaded c' = loaded c ∧
    children c' =
      <[id cell := {| count := count mesh - 1; capacity := capacity mesh;
                      instanceMatrix := <[i := qlast]> (instanceMatrix mesh) |}]>
        (children c) ∧
    (∀ q, cell_at c' q =
          if decide (q = (x, y, z))
          then Some {| id := blocks_empty_id; instanceId := None |}
          else if decide (q = qlast) then set_instanceId (Some i) <$> cell_at c q
          else cell_at c q) ∧
    chunk_inv c'.
Proof.
  intros Hinv Hcell Hid Hi Hmesh. pose proof Hinv as [Hs Hlk].
  assert (inBounds c x y z = true) as Hb by (apply Hs; eauto).
  destruct (linked_cell _ _ Hlk _ _ _ Hcell Hi) as (mesh0 & Hmesh0 & Hrange & Hmat).
  rewrite Hmesh in Hmesh0. injection Hmesh0 as <-.
  destruct (linked_slot _ _ Hlk _ _ (count mesh - 1) Hmesh)
    as ([[vx vy] vz] & cell_l & Hlast & Hcell_l & Hid_l & Hi_l); [lia|].
  destruct (linked_mesh _ _ Hlk _ _ Hmesh) as [Hcap Hcnt].
  assert (count mesh ≤ capacity mesh) as Hfull.
  { pose proof (count_plus_free c (id cell) mesh [] Hinv) as Hfree.
    simpl in Hfree. rewrite Hcap. rewrite <-(Z.add_0_r (count mesh)).
    apply Hfree; [|done|apply NoDup_nil_2|by intros q ?%elem_of_nil].
    apply inBounds_max_count in Hb. lia. }
  unfold removeBlock. rewrite getBlock_shaped, bind_Ok, Hcell by done.
  rewrite (proj2 (Z.eqb_neq _ _) Hid). simpl.
  unfold deleteBlockInstance. rewrite getBlock_shaped, bind_Ok, Hcell, Hi, Hmesh by done.
  simpl. unfold getMatrixAt. rewrite bool_decide_true by lia. rewrite Hlast.
  destruct (setBlockInstanceId_updated c vx vy vz (Some i) Hs) as (c1 & -> & Hupd1).
  rewrite bind_Ok. pose proof (updated_shaped _ _ _ _ Hs Hupd1) as Hs1.
  destruct Hupd1 as [(Hsz1 & Hps1 & Hpos1 & Hch1 & Hld1) Hcells1].
  assert (set_count (setMatrixAt mesh i (Some (vx, vy, vz))) (count mesh - 1) =
          {| count := count mesh - 1; capacity := capacity mesh;
             instanceMatrix := <[i := (vx, vy, vz)]> (instanceMatrix mesh) |}) as ->.
  { unfold setMatrixAt, set_count. rewrite bool_decide_true; [done|]. lia. }
  rewrite Hch1.
  destruct (setBlockInstanceId_updated
              (with_children c1
                 (<[id cell := {| count := count mesh - 1; capacity := capacity mesh;
                      instanceMatrix := <[i := (vx, vy, vz)]> (instanceMatrix mesh) |}]>
                    (children c)))
              x y z None)
    as (c2 & -> & Hupd2); [done|].
  rewrite bind_Ok.
  pose proof (updated_shaped _ _ _ _ (shaped_with_children _ _ Hs1) Hupd2) as Hs2.
  destruct Hupd2 as [(Hsz2 & Hps2 & Hpos2 & Hch2 & Hld2) Hcells2]. simpl in *.
  destruct (setBlockId_updated c2 x y z blocks_empty_id Hs2) as (c3 & -> & Hupd3).
  rewrite bind_Ok. pose proof (updated_shaped _ _ _ _ Hs2 Hupd3) as Hs3.
  destruct Hupd3 as [(Hsz3 & Hps3 & Hpos3 & Hch3 & Hld3) Hcells3].
  assert (∀ q, cell_at c3 q =
               if decide (q = (x, y, z))
               then Some {| id := blocks_empty_id; instanceId := None |}
               else if decide (q = (vx, vy, vz))
                    then set_instanceId (Some i) <$> cell_at c q
                    else cell_at c q) as Hcells.
  { intros q. rewrite Hcells3, Hcells2.
    change (cell_at (with_children c1 _) q) with (cell_at c1 q). rewrite Hcells1.
    case_decide; [|done]. subst q. rewrite Hcell. by case_decide. }
  exists c3, (vx, vy, vz). split; [done|].
  split; [by rewrite Hpos3, Hpos2, Hpos1|].
  split; [repeat split; congruence|]. split; [congruence|].
  split; [congruence|]. split; [done|]. split; [done|].
  rewrite Hch3, Hch2. eapply linked_release; [done..| |done].
  unfold max_count. by rewrite Hsz3, Hsz2, Hsz1.
Qed.

(** ** Calls that change nothing *)

Lemma getBlock_Some c x y z cell :
  getBlock c x y z = Ok (Some cell) →
  inBounds c x y z = true ∧ cell_at c (x, y, z) = Some cell.
Proof.
  unfold getBlock, cell_at. simpl. destruct (inBounds c x y z); [|done].
  destruct (arr_get (data c) x) as [slice|]; [simpl|done].
  destruct (arr_get slice y) as [row|]; [simpl|done].
  by intros [= ->].
Qed.

Lemma addBlock_occupied store c x y z blockId cell :
  getBlock c x y z = Ok (Some cell) → id cell ≠ blocks_empty_id →
  addBlock store c x y z blockId = Ok (c, store).
Proof.
  intros Hget Hid. unfold addBlock. rewrite Hget, bind_Ok.
  by rewrite (proj2 (Z.eqb_neq _ _) Hid).
Qed.

Lemma removeBlock_empty_cell store c x y z cell :
  getBlock c x y z = Ok (Some cell) → id cell = blocks_empty_id →
  removeBlock store c x y z = Ok (c, store).
Proof.
  intros Hget Hid. unfold removeBlock. rewrite Hget, bind_Ok.
  by rewrite (proj2 (Z.eqb_eq _ _) Hid).
Qed.

Lemma addBlock_out_of_bounds store c x y z blockId :
  inBounds c x y z = false → addBlock store c x y z blockId = Ok (c, store).
Proof. intros Hb. unfold addBlock. by rewrite getBlock_out_of_bounds. Qed.

Lemma removeBlock_out_of_bounds store c x y z :
  inBounds c x y z = false → removeBlock store c x y z = Ok (c, store).
Proof. intros Hb. unfold removeBlock. by rewrite getBlock_out_of_bounds. Qed.

(** Adding the empty block to an empty cell only writes to the store. *)
Lemma addBlock_empty_id store c x y z cell :
  getBlock c x y z = Ok (Some cell) → id cell = blocks_empty_id →
  addBlock store c x y z blocks_empty_id =
    Ok (c, ds_set store (pos_x (position c)) (pos_z (position c)) x y z
             blocks_empty_id).
Proof.
  intros Hget Hid. destruct (getBlock_Some _ _ _ _ _ Hget) as [Hb Hcell].
  unfold addBlock. rewrite Hget, bind_Ok. rewrite (proj2 (Z.eqb_eq _ _) Hid).
  rewrite <-Hid at 1. rewrite (setBlockId_same _ _ _ _ _ Hcell), bind_Ok.
  unfold addBlockInstance. rewrite Hget, bind_Ok.
  by rewrite (proj2 (Z.eqb_eq _ _) Hid).
Qed.

(** ** Every completed operation keeps the invariant *)

Lemma addBlock_Ok_inv store c x y z blockId c' store' :
  chunk_inv c → addBlock store c x y z blockId = Ok (c', store') → chunk_inv c'.
Proof.
  intros Hinv Hrun. pose proof Hinv as [Hs Hlk].
  pose proof (getBlock_shaped c x y z Hs) as Hget.
  destruct (cell_at c (x, y, z)) as [cell|] eqn:Hcell.
  - destruct (decide (id cell = blocks_empty_id)) as [Hid|Hid].
    + destruct (decide (blockId = blocks_empty_id)) as [->|Hnew].
      * rewrite (addBlock_empty_id _ _ _ _ _ _ Hget Hid) in Hrun. by simplify_eq.
      * destruct (children c !! blockId) as [mesh|] eqn:Hmesh.
        -- destruct (addBlock_place store c x y z blockId cell mesh)
             as (c'' & Hrun' & _ & _ & _ & _ & Hinv'); [done..|].
           rewrite Hrun' in Hrun. by simplify_eq.
        -- exfalso. unfold addBlock in Hrun. rewrite Hget, bind_Ok in Hrun.
           rewrite (proj2 (Z.eqb_eq _ _) Hid) in Hrun.
           destruct (setBlockId_updated c x y z blockId Hs) as (c1 & Hrun1 & Hupd1).
           rewrite Hrun1, bind_Ok in Hrun.
           pose proof (updated_shaped _ _ _ _ Hs Hupd1) as Hs1.
           destruct Hupd1 as [(_ & _ & _ & Hch1 & _) Hcells1].
           unfold addBlockInstance in Hrun.
           rewrite getBlock_shaped, bind_Ok, Hcells1, decide_True, Hcell in Hrun by done.
           simpl in Hrun. rewrite (proj2 (Z.eqb_neq _ _) Hnew) in Hrun. simpl in Hrun.
           rewrite (empty_cell_no_instance _ _ _ Hinv Hcell Hid) in Hrun.
           rewrite bool_decide_true in Hrun by done.
           rewrite Hch1, Hmesh in Hrun. done.
    + rewrite (addBlock_occupied _ _ _ _ _ _ _ Hget Hid) in Hrun. by simplify_eq.
  - unfold addBlock in Hrun. rewrite Hget, bind_Ok in Hrun. by simplify_eq.
Qed.

(** On a chunk in a consistent state [removeBlock] does not throw. *)
Lemma removeBlock_total store c x y z :
  chunk_inv c →
  ∃ c' store', removeBlock store c x y z = Ok (c', store') ∧ chunk_inv c'.
Proof.
  intros Hinv. pose proof Hinv as [Hs Hlk].
  pose proof (getBlock_shaped c x y z Hs) as Hget.
  destruct (cell_at c (x, y, z)) as [cell|] eqn:Hcell.
  - destruct (decide (id cell = blocks_empty_id)) as [Hid|Hid].
    + exists c, store. split; [|done]. by eapply removeBlock_empty_cell.
    + destruct (instanceId cell) as [i|] eqn:Hi.
      * destruct (linked_cell _ _ Hlk _ _ _ Hcell Hi) as (mesh & Hmesh & _).
        destruct (removeBlock_visible store c x y z cell i mesh)
          as (c' & qlast & _ & Hrun & _ & _ & _ & _ & Hinv'); [done..|]. eauto.
      * destruct (removeBlock_hidden store c x y z cell)
          as (c' & Hrun & _ & _ & Hinv'); [done..|]. eauto.
  - exists c, store. split; [|done]. unfold removeBlock. by rewrite Hget.
Qed.

Lemma removeBlock_Ok_inv store c x y z c' store' :
  chunk_inv c → removeBlock store c x y z = Ok (c', store') → chunk_inv c'.
Proof.
  intros Hinv Hrun.
  destruct (removeBlock_total store c x y z Hinv) as (c'' & store'' & Hrun' & Hinv').
  rewrite Hrun' in Hrun. by simplify_eq.
Qed.

Lemma loaded_chunk_inv c : loaded_chunk c → chunk_inv c.
Proof.
  induction 1 as [store c c' Hrun|store c x y z b c' store' _ IH Hrun
                 |store c x y z c' store' _ IH Hrun].
  - apply generate_Ok in Hrun. apply Hrun.
  - by eapply addBlock_Ok_inv.
  - by eapply removeBlock_Ok_inv.
Qed.

(** ** The batch count invariant *)

Lemma NoDup_omap_inj {A B} (f : A → option B) (l : list A) :
  NoDup l →
  (∀ x y v, x ∈ l → y ∈ l → f x = Some v → f y = Some v → x = y) →
  NoDup (omap f l).
Proof.
  induction 1 as [|x l Hx Hnd IH]; intros Hinj; simpl; [constructor|].
  assert (NoDup (omap f l)) as Hrest.
  { apply IH. intros ? ? ? ? ?. apply Hinj; by right. }
  destruct (f x) as [v|] eqn:Hfx; [|done].
  constructor; [|done]. intros (y & Hy & Hfy)%list_elem_of_omap.
  assert (x = y) as -> by (apply (Hinj x y v); [by left|by right|done..]). done.
Qed.

Lemma length_omap_total {A B} (f : A → option B) (l : list A) :
  (∀ x, x ∈ l → is_Some (f x)) → length (omap f l) = length l.
Proof.
  induction l as [|x l IH]; intros Htot; simpl; [done|].
  destruct (Htot x) as [v ->]; [by left|]. simpl. f_equal. apply IH.
  intros ? ?. apply Htot. by right.
Qed.

Lemma elem_of_visible_cells c b q :
  shaped c → q ∈ visible_cells c b ↔ has_instance c b q.
Proof.
  intros Hs. unfold visible_cells. rewrite list_elem_of_filter.
  split; [by intros [? _]|]. intros Hq. split; [done|].
  destruct Hq as (cell & Hcell & _). destruct q as [[x y] z].
  apply elem_of_grid3, inBounds_spec, Hs. eauto.
Qed.

Lemma chunk_inv_batch_count c : chunk_inv c → batch_count_invariant c.
Proof.
  intros [Hs Hlk] b Hb Hne.
  destruct (proj2 (linked_keys _ _ Hlk b)) as [mesh Hmesh]; [done|].
  exists mesh. split; [done|].
  assert (instance_ids c b ≡ₚ seqZ 0 (count mesh)) as Hperm.
  { apply NoDup_Permutation.
    - apply NoDup_omap_inj; [apply NoDup_filter, NoDup_grid3|].
      intros q1 q2 i (c1 & Hc1 & Hid1 & _)%elem_of_visible_cells
        (c2 & Hc2 & Hid2 & _)%elem_of_visible_cells; [|done..].
      rewrite Hc1, Hc2. simpl. intros Hi1 Hi2.
      destruct (linked_cell _ _ Hlk _ _ _ Hc1 Hi1) as (m1 & Hm1 & _ & Hq1).
      destruct (linked_cell _ _ Hlk _ _ _ Hc2 Hi2) as (m2 & Hm2 & _ & Hq2).
      rewrite Hid1 in Hm1. rewrite Hid2 in Hm2. congruence.
    - apply NoDup_seqZ.
    - intros i. unfold instance_ids. rewrite elem_of_seqZ, list_elem_of_omap. split.
      + intros (q & (cell & Hcell & Hid & _)%elem_of_visible_cells & Hi); [|done].
        rewrite Hcell in Hi. simpl in Hi.
        destruct (linked_cell _ _ Hlk _ _ _ Hcell Hi) as (m & Hm & Hrange & _).
        rewrite Hid in Hm. simplify_eq. lia.
      + intros Hrange.
        destruct (linked_slot _ _ Hlk _ _ i Hmesh) as (q & cell & _ & Hcell & Hid & Hi);
          [lia|].
        exists q. split; [|by rewrite Hcell].
        apply elem_of_visible_cells; [done|]. exists cell. by rewrite Hi. }
  split; [|done].
  destruct (linked_mesh _ _ Hlk _ _ Hmesh) as [_ Hcnt].
  apply Permutation_length in Hperm. rewrite length_seqZ in Hperm.
  unfold instance_ids in Hperm. rewrite length_omap_total in Hperm; [lia|].
  intros q (cell & Hcell & _ & Hi)%elem_of_visible_cells; [|done].
  by rewrite Hcell.
Qed.

(** ** generate reads only size, params, position and the store *)

Lemma foldM_commute {A S} (g : S → S) (body : A → S → result S) l s :
  (∀ a s, body a (g s) = on_result g (body a s)) →
  foldM body l (g s) = on_result g (foldM body l s).
Proof.
  intros Hbody. revert s. induction l as [|a l IH]; intros s; simpl; [done|].
  rewrite Hbody. unfold on_result at 1. destruct (body a s) as [s'|]; simpl; [|done].
  apply IH.
Qed.

Lemma for_range_commute {S} (g : S → S) n (body : Z → S → result S) s :
  (∀ a s, body a (g s) = on_result g (body a s)) →
  for_range n body (g s) = on_result g (for_range n body s).
Proof. apply foldM_commute. Qed.

Section grid_blind.
Variable g : WorldChunk → WorldChunk.
Hypothesis Hg : grid_blind g.

Lemma inBounds_blind c x y z : inBounds (g c) x y z = inBounds c x y z.
Proof. unfold inBounds. by destruct (Hg c) as (_ & -> & _). Qed.

Lemma getBlock_blind c x y z : getBlock (g c) x y z = getBlock c x y z.
Proof. unfold getBlock. rewrite inBounds_blind. by destruct (Hg c) as (-> & _). Qed.

Lemma assign_cell_blind f c x y z :
  assign_cell f (g c) x y z = on_result g (assign_cell f c x y z).
Proof.
  unfold assign_cell, on_result. destruct (Hg c) as (-> & _ & _ & _ & Hd).
  destruct (arr_get (data c) x) as [slice|]; [simpl|done].
  destruct (arr_get slice y) as [row|]; [simpl|done].
  destruct (arr_get row z); [simpl|done]. by rewrite Hd.
Qed.

Lemma setBlockId_blind c x y z i :
  setBlockId (g c) x y z i = on_result g (setBlockId c x y z i).
Proof.
  unfold setBlockId. rewrite inBounds_blind.
  destruct (inBounds c x y z); [apply assign_cell_blind|done].
Qed.

Lemma setBlockInstanceId_blind c x y z i :
  setBlockInstanceId (g c) x y z i = on_result g (setBlockInstanceId c x y z i).
Proof.
  unfold setBlockInstanceId. rewrite inBounds_blind.
  destruct (inBounds c x y z); [apply assign_cell_blind|done].
Qed.

Lemma generateResources_blind c :
  generateResources (g c) = on_result g (generateResources c).
Proof.
  unfold generateResources. destruct (Hg c) as (_ & -> & -> & -> & _).
  apply foldM_commute. intros r c1.
  apply for_range_commute. intros x c2. apply for_range_commute. intros y c3.
  apply for_range_commute. intros z c4. unfold place_resource.
  destruct (resource_hit _ _ _ _ _ _); [apply setBlockId_blind|done].
Qed.

Lemma fill_column_cell_blind h x z y c :
  fill_column_cell h x z y (g c) = on_result g (fill_column_cell h x z y c).
Proof.
  unfold fill_column_cell. rewrite getBlock_blind.
  assert ((if eq_height y h then setBlockId (g c) x y z blocks_grass_id
           else if gt_height y h then setBlockId (g c) x y z blocks_empty_id
                else Ok (g c)) =
          on_result g
            (if eq_height y h then setBlockId c x y z blocks_grass_id
             else if gt_height y h then setBlockId c x y z blocks_empty_id
                  else Ok c)) as Hrest.
  { repeat case_match; try apply setBlockId_blind; done. }
  destruct (lt_height y h); [|done].
  destruct (getBlock c x y z) as [b|]; [simpl|done].
  case_bool_decide; [apply setBlockId_blind|done].
Qed.

Lemma generateTerrain_blind c :
  generateTerrain (g c) = on_result g (generateTerrain c).
Proof.
  unfold generateTerrain. destruct (Hg c) as (_ & -> & -> & -> & _).
  apply for_range_commute. intros x c1.
  apply for_range_commute. intros z c2. apply for_range_commute. intros y c3.
  apply fill_column_cell_blind.
Qed.

End grid_blind.

Lemma load_change_empty store pos x y z c :
  store_empty store → load_change store pos x y z c = Ok c.
Proof. intros Hempty. unfold load_change. by rewrite Hempty. Qed.

Lemma loadPlayerChanges_empty store c :
  store_empty store → loadPlayerChanges store c = Ok c.
Proof.
  intros Hempty. unfold loadPlayerChanges. rewrite for_nest_grid3.
  induction (grid3 _ _ _) as [|p ps IH]; [done|]. cbn [foldM].
  by rewrite load_change_empty, bind_Ok.
Qed.

Lemma loadPlayerChanges_blind g store c :
  grid_blind g →
  loadPlayerChanges store (g c) = on_result g (loadPlayerChanges store c).
Proof.
  intros Hg. unfold loadPlayerChanges. destruct (Hg c) as (_ & -> & _ & -> & _).
  apply for_range_commute. intros x c1.
  apply for_range_commute. intros y c2. apply for_range_commute. intros z c3.
  unfold load_change.
  destruct (ds_contains _ _ _ _ _ _); [by apply setBlockId_blind|done].
Qed.

Lemma isBlockObscured_blind g c x y z :
  grid_blind g → isBlockObscured (g c) x y z = isBlockObscured c x y z.
Proof.
  intros Hg. unfold isBlockObscured, block_id_or_empty.
  by rewrite !(getBlock_blind g Hg).
Qed.

Lemma restate_blind l m : grid_blind (restate l m).
Proof. done. Qed.

Lemma with_loaded_blind l : grid_blind (λ c, with_loaded c l).
Proof. done. Qed.

Lemma mesh_cell_with_loaded l x y z c meshes :
  mesh_cell x y z (with_loaded c l, meshes) =
  on_result (λ st, (with_loaded st.1 l, st.2)) (mesh_cell x y z (c, meshes)).
Proof.
  pose proof (with_loaded_blind l) as Hg. unfold mesh_cell.
  rewrite (getBlock_blind _ Hg).
  destruct (getBlock c x y z) as [[cell|]|]; [simpl|done..].
  destruct (id cell =? blocks_empty_id); [done|].
  destruct (meshes !! id cell) as [mesh|]; [simpl|done].
  rewrite (isBlockObscured_blind _ _ _ _ _ Hg).
  destruct (isBlockObscured c x y z) as [[]|]; [done| |done]. simpl.
  rewrite (setBlockInstanceId_blind _ Hg). unfold on_result.
  by destruct (setBlockInstanceId c x y z (Some (count mesh))).
Qed.

Lemma generateMeshes_restate l m c :
  generateMeshes (restate l m c) = on_result (λ c', with_loaded c' l) (generateMeshes c).
Proof.
  unfold generateMeshes. cbn zeta.
  change (width (size (with_children (restate l m c) ∅))) with (width (size c)).
  change (height (size (with_children (restate l m c) ∅))) with (height (size c)).
  change (width (size (with_children c ∅))) with (width (size c)).
  change (height (size (with_children c ∅))) with (height (size c)).
  destruct (build_meshes _) as [meshes|]; [|done]. rewrite !bind_Ok.
  change (with_children (restate l m c) ∅) with (with_loaded (with_children c ∅) l).
  unfold for_range.
  match goal with
  | |- context [foldM ?body ?xs (with_loaded (with_children c ∅) _, meshes)] =>
      pose proof (foldM_commute
                    (λ st : WorldChunk * gmap Z InstancedMesh, (with_loaded st.1 l, st.2))
                    body xs (with_children c ∅, meshes)) as Hloop
  end.
  cbn [fst snd] in Hloop. rewrite Hloop.
  - unfold on_result.
    match goal with
    | |- context [foldM ?body ?xs (with_children c ∅, meshes)] =>
        by destruct (foldM body xs (with_children c ∅, meshes)) as [[c1 meshes1]|]
    end.
  - intros x st. apply (foldM_commute (λ st : WorldChunk * gmap Z InstancedMesh,
                                         (with_loaded st.1 l, st.2))).
    intros y st'. apply (foldM_commute (λ st : WorldChunk * gmap Z InstancedMesh,
                                          (with_loaded st.1 l, st.2))).
    intros z [c1 meshes1]. apply mesh_cell_with_loaded.
Qed.

(** [generate] starts from scratch: what the overwritten fields held before
    does not matter. *)
Lemma generate_restate store l m d c :
  generate store (with_data (restate l m c) d) = generate store c.
Proof.
  unfold generate. cbn zeta.
  change (initializeTerrain (with_data (restate l m c) d))
    with (restate l m (initializeTerrain c)).
  rewrite (generateResources_blind _ (restate_blind l m)). unfold on_result.
  destruct (generateResources (initializeTerrain c)) as [c1|]; [|done].
  rewrite !bind_Ok. rewrite (generateTerrain_blind _ (restate_blind l m)).
  unfold on_result. destruct (generateTerrain c1) as [c2|]; [|done].
  rewrite !bind_Ok. rewrite (loadPlayerChanges_blind _ _ _ (restate_blind l m)).
  unfold on_result. destruct (loadPlayerChanges store c2) as [c3|]; [|done].
  rewrite !bind_Ok. rewrite generateMeshes_restate. unfold on_result.
  by destruct (generateMeshes c3) as [c4|].
Qed.

Lemma generate_from_scratch store c :
  generate store c = generate store (new_WorldChunk (size c) (params c) (position c)).
Proof.
  rewrite <-(generate_restate store (loaded c) (children c) (data c)
               (new_WorldChunk (size c) (params c) (position c))).
  by destruct c.
Qed.

(** With no stored change, the store does not matter either. *)
Lemma generate_empty_store store1 store2 c :
  store_empty store1 → store_empty store2 → generate store1 c = generate store2 c.
Proof.
  intros H1 H2. unfold generate. cbn zeta.
  destruct (generateResources (initializeTerrain c)) as [c1|]; [|done].
  rewrite !bind_Ok. destruct (generateTerrain c1) as [c2|]; [|done].
  by rewrite !bind_Ok, !loadPlayerChanges_empty.
Qed.

(** ** Resources under the terrain *)

Lemma stamp_stamped_from ps pos rs q i acc :
  foldl (λ acc r, if resource_hit ps pos r q.1.1 q.1.2 q.2 then res_id r else acc)
    (default i acc) rs =
  default i
    (foldl (λ acc r,
              if resource_hit ps pos r q.1.1 q.1.2 q.2 then Some (res_id r) else acc)
       acc rs).
Proof.
  revert acc. induction rs as [|r rs IH]; intros acc; simpl; [done|].
  destruct (resource_hit ps pos r q.1.1 q.1.2 q.2); [apply (IH (Some (res_id r)))|apply IH].
Qed.

Lemma stamp_stamped ps pos q i :
  stamp ps pos resources q i = default i (stamped ps pos q).
Proof. apply (stamp_stamped_from ps pos resources q i None). Qed.

Lemma stamped_resource ps pos q r :
  stamped ps pos q = Some r → r ∈ (res_id <$> resources).
Proof.
  unfold stamped.
  cut (∀ rs acc,
         foldl (λ acc r0,
                  if resource_hit ps pos r0 q.1.1 q.1.2 q.2 then Some (res_id r0) else acc)
           acc rs = Some r →
         acc = Some r ∨ r ∈ (res_id <$> rs)).
  { intros Hcut Hst. by destruct (Hcut _ _ Hst). }
  induction rs as [|r0 rs IH]; intros acc; simpl; [auto|].
  intros [Hacc| Hin]%IH; [|right; by right].
  destruct (resource_hit ps pos r0 q.1.1 q.1.2 q.2); [|auto].
  right. injection Hacc as <-. left.
Qed.

Lemma generated_id_empty_store store c q :
  store_empty store →
  generated_id store c q =
  terrain_id (column_height (size c) (params c) (position c) q.1.1 q.2) q.1.2
    (default blocks_empty_id (stamped (params c) (position c) q)).
Proof.
  intros Hempty. unfold generated_id, overlay_id. by rewrite Hempty, stamp_stamped.
Qed.

Lemma store_empty_registered store pos : store_empty store → store_registered store pos.
Proof. intros Hempty x y z. by rewrite Hempty. Qed.

Lemma generated_cell store c c' x y z :
  generated store c c' → inBounds c x y z = true →
  ∃ cell, cell_at c' (x, y, z) = Some cell ∧
          id cell = generated_id store c (x, y, z).
Proof.
  intros ((Hsz & _) & _ & [Hs _] & Hids & _) Hb.
  assert (is_Some (cell_at c' (x, y, z))) as [cell Hcell].
  { apply Hs. unfold inBounds. by rewrite Hsz. }
  exists cell. split; [done|]. by apply Hids.
Qed.

Lemma generate_registered store c :
  0 ≤ max_count c → resources_registered → store_registered store (position c) →
  ∃ c', generate store c = Ok c' ∧ generated store c c'.
Proof.
  intros Hmax Hres Hstore. apply generate_spec; [done|].
  intros x y z _ _. by apply generated_id_registered.
Qed.

(** * The statements of the specification *)

(** C1. Determinism: for a fixed seed, origin, chunk size and terrain
    parameters, two independent runs of [generate] on chunks backed by an
    empty store both complete and leave the same cells grid, with the same
    block at every coordinate, whatever the two chunks held before. *)
Theorem generate_deterministic store1 store2 c1 c2 :
  size c1 = size c2 → params c1 = params c2 → position c1 = position c2 →
  store_empty store1 → store_empty store2 →
  resources_registered → 0 ≤ height (size c1) →
  ∃ c1' c2',
    generate store1 c1 = Ok c1' ∧ generate store2 c2 = Ok c2' ∧
    data c1' = data c2' ∧
    ∀ x y z, getBlock c1' x y z = getBlock c2' x y z.
Proof.
  intros Hsz Hps Hpos He1 He2 Hres Hh.
  destruct (generate_registered store1 c1) as (c' & Hrun & _);
    [unfold max_count; nia|done|by apply store_empty_registered|].
  exists c', c'. split; [done|]. split; [|done].
  rewrite (generate_from_scratch store2 c2), <-Hsz, <-Hps, <-Hpos.
  rewrite <-(generate_from_scratch store2 c1).
  by rewrite <-(generate_empty_store store1 store2 c1).
Qed.

(** C2. Batch count invariant: after [generate] has completed, and after
    every later completed [addBlock] or [removeBlock], the count of every
    batch is the number of cells of its block type that have an instance id,
    and those instance ids are exactly 0, ..., count - 1, each taken once. *)
Theorem batch_count_invariant_loaded c : loaded_chunk c → batch_count_invariant c.
Proof. intros Hc. by apply chunk_inv_batch_count, loaded_chunk_inv. Qed.

(** C3 (as amended). Occlusion: after [generate], an empty cell has no
    instance; a non-empty cell has no instance exactly when each of its six
    neighbours is a cell of the chunk holding a non-empty block; and a
    neighbour outside the bounds counts as empty, so on the border
    [isBlockObscured] is false and every non-empty cell has an instance. *)
Theorem occlusion_after_generate store c c' x y z cell :
  generate store c = Ok c' →
  cell_at c' (x, y, z) = Some cell →
  (id cell = blocks_empty_id → instanceId cell = None) ∧
  (id cell ≠ blocks_empty_id →
     (instanceId cell = None ↔
      ∀ n, n ∈ neighbours (x, y, z) →
           ∃ cn, cell_at c' n = Some cn ∧ id cn ≠ blocks_empty_id)) ∧
  (∀ n, n ∈ neighbours (x, y, z) → inBounds c' n.1.1 n.1.2 n.2 = false →
        isBlockObscured c' x y z = Ok false ∧
        (id cell ≠ blocks_empty_id → is_Some (instanceId cell))).
Proof.
  intros (_ & _ & [Hs _] & _ & Hvis)%generate_Ok Hcell.
  specialize (Hvis _ _ Hcell). split_and!.
  - intros Hid. apply Hvis. by left.
  - intros Hid. rewrite Hvis, obscured_true. split.
    + intros [?|Hobs] n Hn; [done|]. specialize (Hobs n Hn). unfold id_at in Hobs.
      destruct (cell_at c' n) as [cn|]; [eauto|done].
    + intros Hall. right. intros n Hn. destruct (Hall n Hn) as (cn & Hcn & Hne).
      unfold id_at. by rewrite Hcn.
  - intros [[nx ny] nz] Hn Hout.
    assert (obscured c' (x, y, z) = false) as Hobs.
    { apply not_true_is_false. rewrite obscured_true. intros Hall.
      apply (Hall _ Hn). by apply id_at_out_of_bounds. }
    split; [by rewrite isBlockObscured_shaped, Hobs|].
    intros Hid. apply not_eq_None_Some. rewrite Hvis. intros [?|?]; congruence.
Qed.

(** C4. Resources and terrain: with an empty store, in a column of clamped
    height [h] the cell at y = h is grass whatever the resource noise says,
    a cell below h stamped with a resource keeps that resource, a cell below
    h not stamped is dirt, and every cell above h is empty. *)
Theorem terrain_over_resources store c x y z h :
  store_empty store → resources_registered → resources_nonempty →
  inBounds c x y z = true →
  column_height (size c) (params c) (position c) x z = Some h →
  ∃ c' cell,
    generate store c = Ok c' ∧ cell_at c' (x, y, z) = Some cell ∧
    (y = h → id cell = blocks_grass_id) ∧
    (y < h → ∀ r, stamped (params c) (position c) (x, y, z) = Some r → id cell = r) ∧
    (y < h → stamped (params c) (position c) (x, y, z) = None →
       id cell = blocks_dirt_id) ∧
    (h < y → id cell = blocks_empty_id).
Proof.
  intros Hempty Hres Hne Hb Hh.
  destruct (generate_registered store c) as (c' & Hrun & Hgen);
    [apply inBounds_max_count in Hb; lia|done|by apply store_empty_registered|].
  destruct (generated_cell _ _ _ x y z Hgen Hb) as (cell & Hcell & Hid).
  exists c', cell. split; [done|]. split; [done|].
  rewrite Hid, generated_id_empty_store by done. simpl. rewrite Hh.
  unfold terrain_id, lt_height, eq_height, gt_height. simpl. split_and!.
  - intros ->. rewrite Z.ltb_irrefl, Z.eqb_refl. done.
  - intros Hlt r Hr. rewrite Hr. simpl.
    assert (r ≠ blocks_empty_id) as Hrne.
    { apply stamped_resource in Hr as (r0 & -> & Hr0)%list_elem_of_fmap.
      unfold resources_nonempty in Hne. rewrite Forall_forall in Hne. by apply Hne. }
    rewrite (proj2 (Z.ltb_lt _ _) Hlt), (proj2 (Z.eqb_neq _ _) Hrne). simpl.
    rewrite (proj2 (Z.eqb_neq y h)) by lia.
    by rewrite Z.gtb_ltb, (proj2 (Z.ltb_ge h y)) by lia.
  - intros Hlt Hr. rewrite Hr. simpl.
    by rewrite (proj2 (Z.ltb_lt _ _) Hlt), Z.eqb_refl.
  - intros Hgt. rewrite (proj2 (Z.ltb_ge y h)) by lia. simpl.
    rewrite (proj2 (Z.eqb_neq y h)) by lia.
    by rewrite Z.gtb_ltb, (proj2 (Z.ltb_lt h y)) by lia.
Qed.

(** C5 (as amended). Swap-with-last: on a loaded chunk, removing the block
    of a cell that owns slot [i] of a batch with count [n] writes the
    transform of slot n - 1 into slot [i], makes the count n - 1, and leaves
    the removed cell empty and without an instance; when i < n - 1 the other
    cell that owned slot n - 1 now owns slot [i], and when i = n - 1 the
    removed cell was that owner itself; afterwards every cell with an
    instance id owns a slot that stores the cell's local position. *)
Theorem swap_with_last store c x y z cell i mesh :
  loaded_chunk c →
  cell_at c (x, y, z) = Some cell → instanceId cell = Some i →
  children c !! id cell = Some mesh →
  ∃ c' qlast mesh',
    instanceMatrix mesh !! (count mesh - 1) = Some qlast ∧
    removeBlock store c x y z =
      Ok (c', ds_set store (pos_x (position c)) (pos_z (position c)) x y z
                blocks_empty_id) ∧
    children c' !! id cell = Some mesh' ∧
    count mesh' = count mesh - 1 ∧
    instanceMatrix mesh' !! i = Some qlast ∧
    cell_at c' (x, y, z) = Some {| id := blocks_empty_id; instanceId := None |} ∧
    (qlast = (x, y, z) ↔ i = count mesh - 1) ∧
    (i < count mesh - 1 →
       ∃ cl, cell_at c qlast = Some cl ∧ instanceId cl = Some (count mesh - 1) ∧
             cell_at c' qlast = Some (set_instanceId (Some i) cl)) ∧
    (∀ q cell' j, cell_at c' q = Some cell' → instanceId cell' = Some j →
       ∃ m, children c' !! id cell' = Some m ∧ 0 ≤ j < count m ∧
            instanceMatrix m !! j = Some q).
Proof.
  intros Hinv%loaded_chunk_inv Hcell Hi Hmesh. pose proof Hinv as [Hs Hlk].
  assert (id cell ≠ blocks_empty_id) as Hid.
  { assert (is_Some (children c !! id cell)) as Hsome by eauto.
    by apply (linked_keys _ _ Hlk) in Hsome as [_ ?]. }
  destruct (removeBlock_visible store c x y z cell i mesh)
    as (c' & qlast & Hlast & Hrun & _ & _ & Hch & Hcells & [Hs' Hlk']); [done..|].
  destruct (linked_cell _ _ Hlk _ _ _ Hcell Hi) as (mesh0 & Hmesh0 & Hrange & Hmat).
  rewrite Hmesh in Hmesh0. injection Hmesh0 as <-.
  destruct (linked_slot _ _ Hlk _ _ (count mesh - 1) Hmesh)
    as (q0 & cl & Hlast0 & Hcl & Hidl & Hil); [lia|].
  rewrite Hlast in Hlast0. injection Hlast0 as <-.
  assert (qlast = (x, y, z) ↔ i = count mesh - 1) as Hsame.
  { split; [intros ->; congruence|intros ->; congruence]. }
  eexists c', qlast, _. split; [done|]. split; [done|].
  split; [by rewrite Hch, lookup_insert_eq|]. split; [done|].
  split; [simpl; by rewrite lookup_insert_eq|].
  split; [by rewrite Hcells, decide_True|]. split; [done|]. split.
  - intros Hmid. exists cl. split; [done|]. split; [done|].
    rewrite Hcells, decide_False, decide_True, Hcl; [done..|].
    intros Heq%Hsame. lia.
  - apply (linked_cell _ _ Hlk').
Qed.

(** C6. Overlay precedence: for every coordinate inside the chunk for which
    the store holds an entry under this chunk's origin, [generate] leaves the
    cell with the stored block id, whatever resources and terrain produced
    there, the empty id included. *)
Theorem overlay_precedence store c x y z :
  resources_registered → store_registered store (position c) →
  inBounds c x y z = true →
  ds_contains store (pos_x (position c)) (pos_z (position c)) x y z = true →
  ∃ c' cell,
    generate store c = Ok c' ∧ cell_at c' (x, y, z) = Some cell ∧
    id cell = ds_get store (pos_x (position c)) (pos_z (position c)) x y z.
Proof.
  intros Hres Hstore Hb Hc.
  destruct (generate_registered store c) as (c' & Hrun & Hgen);
    [apply inBounds_max_count in Hb; lia|done..|].
  destruct (generated_cell _ _ _ x y z Hgen Hb) as (cell & Hcell & Hid).
  exists c', cell. split; [done|]. split; [done|].
  rewrite Hid. unfold generated_id, overlay_id. simpl. by rewrite Hc.
Qed.

(** C7 (as amended). [addBlock] of a registered, non-empty block type on an
    empty cell of a loaded chunk sets the cell's block id, appends an
    instance for the cell at the end of that type's batch (instance id = the
    previous count, count incremented, transform = the cell's local
    position) and writes the id into the store under the chunk's origin and
    the local coordinate; no other cell and no other batch changes. *)
Theorem addBlock_appends_instance store c x y z newId cell :
  loaded_chunk c →
  cell_at c (x, y, z) = Some cell → id cell = blocks_empty_id →
  newId ∈ blocks_ids → newId ≠ blocks_empty_id →
  ∃ c' mesh mesh',
    children c !! newId = Some mesh ∧
    addBlock store c x y z newId =
      Ok (c', ds_set store (pos_x (position c)) (pos_z (position c)) x y z newId) ∧
    cell_at c' (x, y, z) = Some {| id := newId; instanceId := Some (count mesh) |} ∧
    children c' !! newId = Some mesh' ∧
    count mesh' = count mesh + 1 ∧
    instanceMatrix mesh' !! count mesh = Some (x, y, z) ∧
    (∀ q, q ≠ (x, y, z) → cell_at c' q = cell_at c q) ∧
    (∀ b, b ≠ newId → children c' !! b = children c !! b).
Proof.
  intros Hinv%loaded_chunk_inv Hcell Hid Hreg Hnew. pose proof Hinv as [Hs Hlk].
  assert (is_Some (children c !! newId)) as [mesh Hmesh].
  { by apply (linked_keys _ _ Hlk). }
  destruct (addBlock_place store c x y z newId cell mesh)
    as (c' & Hrun & _ & _ & Hch & Hcells & _); [done..|].
  eexists c', mesh, _. split; [done|]. split; [done|].
  split; [by rewrite Hcells, decide_True|].
  split; [by rewrite Hch, lookup_insert_eq|]. split; [done|].
  split; [simpl; by rewrite lookup_insert_eq|]. split.
  - intros q Hq. by rewrite Hcells, decide_False.
  - intros b Hb. by rewrite Hch, lookup_insert_ne.
Qed.

(** C8. No-ops: [addBlock] on a cell that already holds a block,
    [removeBlock] on an empty cell, and both at coordinates outside the
    bounds return without an error and leave the chunk and the store as they
    were. *)
Theorem occupied_empty_and_outside_are_noops store c x y z blockId :
  (∀ cell, getBlock c x y z = Ok (Some cell) → id cell ≠ blocks_empty_id →
     addBlock store c x y z blockId = Ok (c, store)) ∧
  (∀ cell, getBlock c x y z = Ok (Some cell) → id cell = blocks_empty_id →
     removeBlock store c x y z = Ok (c, store)) ∧
  (inBounds c x y z = false →
     addBlock store c x y z blockId = Ok (c, store) ∧
     removeBlock store c x y z = Ok (c, store)).
Proof.
  split_and!.
  - intros cell. apply addBlock_occupied.
  - intros cell. apply removeBlock_empty_cell.
  - intros Hb. split; [by apply addBlock_out_of_bounds|by apply removeBlock_out_of_bounds].
Qed.

(** C9. Bounds policy: at a coordinate outside the bounds a read returns no
    cell (taken as empty by the neighbour test) and a write is discarded,
    neither raising an error; the grid of a loaded chunk holds a cell exactly
    at the coordinates inside the bounds; and the terrain fill loop, at
    y = height, leaves the chunk as it is. *)
Theorem bounds_policy c x y z :
  (inBounds c x y z = false →
     getBlock c x y z = Ok None ∧
     block_id_or_empty c x y z = Ok blocks_empty_id ∧
     (∀ i, setBlockId c x y z i = Ok c) ∧
     (∀ i, setBlockInstanceId c x y z i = Ok c)) ∧
  (loaded_chunk c → (is_Some (cell_at c (x, y, z)) ↔ inBounds c x y z = true)) ∧
  (∀ h, fill_column_cell h x z (height (size c)) c = Ok c).
Proof.
  split_and!.
  - intros Hb. split_and!.
    + by apply getBlock_out_of_bounds.
    + unfold block_id_or_empty. by rewrite getBlock_out_of_bounds.
    + intros i. by apply setBlockId_out_of_bounds.
    + intros i. by apply setBlockInstanceId_out_of_bounds.
  - intros [Hs _]%loaded_chunk_inv. apply Hs.
  - intros h.
    assert (inBounds c x (height (size c)) z = false) as Hb.
    { apply not_true_is_false. intros (_ & ? & _)%inBounds_spec. lia. }
    unfold fill_column_cell.
    rewrite getBlock_out_of_bounds, !setBlockId_out_of_bounds by done.
    simpl. by repeat case_match.
Qed.

(** C10. [addBlock] of the empty id on an empty cell inside the bounds
    changes no cell and no batch, creates no instance, and still writes the
    empty id into the store for that coordinate. *)
Theorem addBlock_empty_id_only_writes_store store c x y z cell :
  getBlock c x y z = Ok (Some cell) → id cell = blocks_empty_id →
  addBlock store c x y z blocks_empty_id =
    Ok (c, ds_set store (pos_x (position c)) (pos_z (position c)) x y z
             blocks_empty_id).
Proof. apply addBlock_empty_id. Qed.

(** * Further properties of the chunk *)

(** ** Generation steps *)

(** X1. [initializeTerrain] resets the grid whatever it held: afterwards a
    read inside the bounds returns an empty cell without an instance, a read
    outside returns no cell, and the other fields (the meshes included) are
    as before. *)
Theorem initializeTerrain_resets c x y z :
  getBlock (initializeTerrain c) x y z =
    Ok (if inBounds c x y z
        then Some {| id := blocks_empty_id; instanceId := None |}
        else None) ∧
  same_fields c (initializeTerrain c).
Proof.
  split; [|by repeat split].
  rewrite getBlock_shaped by apply initializeTerrain_shaped.
  by rewrite initializeTerrain_cell.
Qed.

Lemma stamped_from_miss ps pos q rs acc :
  Forall (λ r, resource_hit ps pos r q.1.1 q.1.2 q.2 = false) rs →
  foldl (λ acc r,
           if resource_hit ps pos r q.1.1 q.1.2 q.2 then Some (res_id r) else acc)
    acc rs = acc.
Proof.
  intros Hmiss. revert acc. induction Hmiss as [|r rs Hr _ IH]; intros acc; simpl; [done|].
  by rewrite Hr, IH.
Qed.

Lemma stamped_last ps pos q rs1 r rs2 :
  resources = rs1 ++ r :: rs2 →
  resource_hit ps pos r q.1.1 q.1.2 q.2 = true →
  Forall (λ r', resource_hit ps pos r' q.1.1 q.1.2 q.2 = false) rs2 →
  stamped ps pos q = Some (res_id r).
Proof.
  intros Hrs Hhit Hmiss. unfold stamped. rewrite Hrs, foldl_app. simpl.
  rewrite Hhit. by apply stamped_from_miss.
Qed.

Lemma stamped_none ps pos q :
  Forall (λ r, resource_hit ps pos r q.1.1 q.1.2 q.2 = false) resources →
  stamped ps pos q = None.
Proof. apply stamped_from_miss. Qed.

(** X2. [generateResources] does not throw on a grid of the chunk's size,
    and at every cell the last resource of the list whose noise value
    exceeds its scarcity wins: the cell takes its id, keeping its instance
    id; a cell where no resource qualifies is left as it was. *)
Theorem generateResources_last_wins c x y z cell :
  shaped c → cell_at c (x, y, z) = Some cell →
  ∃ c',
    generateResources c = Ok c' ∧ same_fields c c' ∧
    (∀ rs1 r rs2,
       resources = rs1 ++ r :: rs2 →
       resource_hit (params c) (position c) r x y z = true →
       Forall (λ r', resource_hit (params c) (position c) r' x y z = false) rs2 →
       cell_at c' (x, y, z) = Some (set_id (res_id r) cell)) ∧
    (Forall (λ r, resource_hit (params c) (position c) r x y z = false) resources →
       cell_at c' (x, y, z) = Some cell).
Proof.
  intros Hs Hcell. destruct (generateResources_remapped c Hs) as (c' & Hrun & Hf & Hcells).
  exists c'. split; [done|]. split; [done|].
  assert (cell_at c' (x, y, z) =
          Some (set_id (default (id cell)
                          (stamped (params c) (position c) (x, y, z))) cell)) as ->.
  { rewrite Hcells, Hcell. simpl. by rewrite stamp_stamped. }
  split.
  - intros rs1 r rs2 Hrs Hhit Hmiss.
    by rewrite (stamped_last _ _ (x, y, z) rs1 r rs2).
  - intros Hmiss. rewrite (stamped_none _ _ (x, y, z)) by done. simpl.
    by rewrite set_id_same.
Qed.

Lemma clamp_height_range raw hmax h :
  clamp_height raw hmax = Some h → 0 < hmax → 0 ≤ h < hmax.
Proof. destruct raw; simpl; intros [= <-] ?; lia. Qed.

(** X3. With an empty store the generated terrain is a height field: in a
    column whose clamped height is the number [h], [h] is a level of the
    chunk, the cells up to and including level [h] hold a block and the
    cells above it are empty. *)
Theorem terrain_is_a_height_field store c x y z h :
  store_empty store → resources_registered → resources_nonempty →
  blocks_grass_id ≠ blocks_empty_id → blocks_dirt_id ≠ blocks_empty_id →
  inBounds c x y z = true →
  column_height (size c) (params c) (position c) x z = Some h →
  0 ≤ h < height (size c) ∧
  ∃ c' cell,
    generate store c = Ok c' ∧ cell_at c' (x, y, z) = Some cell ∧
    (id cell ≠ blocks_empty_id ↔ y ≤ h).
Proof.
  intros Hempty Hres Hne Hgrass Hdirt Hb Hh.
  pose proof (proj1 (inBounds_spec _ _ _ _) Hb) as (Hx & Hy & Hz).
  split; [apply clamp_height_range in Hh; lia|].
  destruct (generate_registered store c) as (c' & Hrun & Hgen);
    [apply inBounds_max_count in Hb; lia|done|by apply store_empty_registered|].
  destruct (generated_cell _ _ _ x y z Hgen Hb) as (cell & Hcell & Hid).
  exists c', cell. split; [done|]. split; [done|].
  rewrite Hid, generated_id_empty_store by done. simpl. rewrite Hh.
  unfold terrain_id, lt_height, eq_height, gt_height. simpl.
  assert (∀ r, stamped (params c) (position c) (x, y, z) = Some r →
               r ≠ blocks_empty_id) as Hstamp.
  { intros r (r0 & -> & Hr0)%stamped_resource%list_elem_of_fmap.
    unfold resources_nonempty in Hne. rewrite Forall_forall in Hne. by apply Hne. }
  destruct (Z.ltb_spec y h) as [Hlt|Hge]; simpl.
  - destruct (stamped (params c) (position c) (x, y, z)) as [r|] eqn:Hr; simpl.
    + rewrite (proj2 (Z.eqb_neq r blocks_empty_id)) by auto.
      rewrite (proj2 (Z.eqb_neq y h)) by lia.
      rewrite Z.gtb_ltb, (proj2 (Z.ltb_ge h y)) by lia.
      split; [lia|]. intros _. auto.
    + rewrite Z.eqb_refl. split; [lia|done].
  - destruct (Z.eqb_spec y h) as [->|Hneq]; [split; [lia|done]|].
    rewrite Z.gtb_ltb, (proj2 (Z.ltb_lt h y)) by lia. split; [done|lia].
Qed.

(** X4. A column whose height computes to NaN is left alone by the terrain
    fill: with an empty store, each of its cells ends with the id of the
    last qualifying resource, or empty when there is none - no grass, no
    dirt, nothing cleared. *)
Theorem nan_height_leaves_column store c x y z :
  store_empty store → resources_registered →
  inBounds c x y z = true →
  column_height (size c) (params c) (position c) x z = None →
  ∃ c' cell,
    generate store c = Ok c' ∧ cell_at c' (x, y, z) = Some cell ∧
    id cell = default blocks_empty_id (stamped (params c) (position c) (x, y, z)).
Proof.
  intros Hempty Hres Hb Hh.
  destruct (generate_registered store c) as (c' & Hrun & Hgen);
    [apply inBounds_max_count in Hb; lia|done|by apply store_empty_registered|].
  destruct (generated_cell _ _ _ x y z Hgen Hb) as (cell & Hcell & Hid).
  exists c', cell. split; [done|]. split; [done|].
  rewrite Hid, generated_id_empty_store by done. simpl. by rewrite Hh.
Qed.

(** ** Cell access *)

Lemma arr_get_nil {A} (i : Z) : arr_get (@nil A) i = None.
Proof. unfold arr_get. case_bool_decide; [apply lookup_nil|done]. Qed.

(** X5. Before [generate] has run the grid is the empty array: at a
    coordinate inside the bounds a read, a write, [addBlock] and
    [removeBlock] all throw a TypeError. *)
Theorem unloaded_chunk_throws sz ps pos store x y z i :
  inBounds (new_WorldChunk sz ps pos) x y z = true →
  getBlock (new_WorldChunk sz ps pos) x y z = Throw TypeError ∧
  setBlockId (new_WorldChunk sz ps pos) x y z i = Throw TypeError ∧
  setBlockInstanceId (new_WorldChunk sz ps pos) x y z (Some i) = Throw TypeError ∧
  addBlock store (new_WorldChunk sz ps pos) x y z i = Throw TypeError ∧
  removeBlock store (new_WorldChunk sz ps pos) x y z = Throw TypeError.
Proof.
  intros Hb.
  assert (getBlock (new_WorldChunk sz ps pos) x y z = Throw TypeError) as Hget.
  { unfold getBlock. rewrite Hb. simpl. by rewrite arr_get_nil. }
  split; [done|]. split_and!.
  - unfold setBlockId, assign_cell. rewrite Hb. simpl. by rewrite arr_get_nil.
  - unfold setBlockInstanceId, assign_cell. rewrite Hb. simpl. by rewrite arr_get_nil.
  - unfold addBlock. by rewrite Hget.
  - unfold removeBlock. by rewrite Hget.
Qed.

Lemma assign_cell_getBlock f c x y z cell c' :
  inBounds c x y z = true → cell_at c (x, y, z) = Some cell →
  assign_cell f c x y z = Ok c' →
  ∀ x' y' z',
    getBlock c' x' y' z' =
    if decide ((x', y', z') = (x, y, z)) then Ok (Some (f cell))
    else getBlock c x' y' z'.
Proof.
  unfold cell_at, assign_cell. simpl. intros Hb Hcell.
  destruct (arr_get (data c) x) as [slice|] eqn:Hx; [simpl in *|done].
  destruct (arr_get slice y) as [row|] eqn:Hy; [simpl in *|done].
  rewrite Hcell. simpl. intros [= <-] x' y' z'. unfold getBlock.
  change (inBounds (with_data c _) x' y' z') with (inBounds c x' y' z').
  destruct (inBounds c x' y' z') eqn:Hb'.
  - simpl. rewrite (arr_get_insert _ _ _ _ _ Hx).
    destruct (decide (x' = x)) as [->|Hnx]; simpl.
    + rewrite (arr_get_insert _ _ _ _ _ Hy), Hx. simpl.
      destruct (decide (y' = y)) as [->|Hny]; simpl.
      * rewrite (arr_get_insert _ _ _ _ _ Hcell), Hy. simpl.
        destruct (decide (z' = z)) as [->|Hnz].
        -- by rewrite decide_True.
        -- by rewrite decide_False by congruence.
      * by rewrite decide_False by congruence.
    + by rewrite decide_False by congruence.
  - rewrite decide_False; [done|]. intros [= -> -> ->]. congruence.
Qed.

(** X6. What is written is read back: on a cell of the grid, [setBlockId]
    and [setBlockInstanceId] do not throw, a read at the same coordinate
    returns the cell with the new field and the other field as it was, and a
    read at any other coordinate returns what it returned before. *)
Theorem write_then_read c x y z cell :
  getBlock c x y z = Ok (Some cell) →
  (∀ i, ∃ c',
     setBlockId c x y z i = Ok c' ∧
     getBlock c' x y z = Ok (Some {| id := i; instanceId := instanceId cell |}) ∧
     ∀ x' y' z', (x', y', z') ≠ (x, y, z) →
                 getBlock c' x' y' z' = getBlock c x' y' z') ∧
  (∀ i, ∃ c',
     setBlockInstanceId c x y z i = Ok c' ∧
     getBlock c' x y z = Ok (Some {| id := id cell; instanceId := i |}) ∧
     ∀ x' y' z', (x', y', z') ≠ (x, y, z) →
                 getBlock c' x' y' z' = getBlock c x' y' z').
Proof.
  intros [Hb Hcell]%getBlock_Some. split; intros i.
  - destruct (assign_cell_updated (set_id i) c x y z cell Hcell) as (c' & Hrun & _).
    exists c'. unfold setBlockId. rewrite Hb. split; [done|].
    pose proof (assign_cell_getBlock _ _ _ _ _ _ _ Hb Hcell Hrun) as Hget. split.
    + by rewrite Hget, decide_True.
    + intros x' y' z' Hne. by rewrite Hget, decide_False.
  - destruct (assign_cell_updated (set_instanceId i) c x y z cell Hcell)
      as (c' & Hrun & _).
    exists c'. unfold setBlockInstanceId. rewrite Hb. split; [done|].
    pose proof (assign_cell_getBlock _ _ _ _ _ _ _ Hb Hcell Hrun) as Hget. split.
    + by rewrite Hget, decide_True.
    + intros x' y' z' Hne. by rewrite Hget, decide_False.
Qed.

(** ** Errors of the operations *)

(** X7. [removeBlock] never throws on a loaded chunk, at any coordinate, and
    leaves a loaded chunk. *)
Theorem removeBlock_never_throws store c x y z :
  loaded_chunk c →
  ∃ c' store', removeBlock store c x y z = Ok (c', store') ∧ loaded_chunk c'.
Proof.
  intros Hc.
  destruct (removeBlock_total store c x y z) as (c' & store' & Hrun & _);
    [by apply loaded_chunk_inv|].
  exists c', store'. split; [done|]. by eapply loaded_removeBlock.
Qed.

Lemma addBlock_no_batch store c x y z b cell :
  shaped c →
  cell_at c (x, y, z) = Some cell → id cell = blocks_empty_id →
  instanceId cell = None →
  b ≠ blocks_empty_id → children c !! b = None →
  addBlock store c x y z b = Throw TypeError.
Proof.
  intros Hs Hcell Hid Hnone Hnew Hmesh.
  unfold addBlock. rewrite getBlock_shaped, bind_Ok, Hcell by done.
  rewrite (proj2 (Z.eqb_eq _ _) Hid).
  destruct (setBlockId_updated c x y z b Hs) as (c1 & -> & Hupd1).
  rewrite bind_Ok. pose proof (updated_shaped _ _ _ _ Hs Hupd1) as Hs1.
  destruct Hupd1 as [(_ & _ & _ & Hch1 & _) Hcells1].
  unfold addBlockInstance.
  rewrite getBlock_shaped, bind_Ok, Hcells1, decide_True, Hcell by done.
  simpl. rewrite (proj2 (Z.eqb_neq _ _) Hnew). simpl.
  rewrite Hnone, bool_decide_true by done. by rewrite Hch1, Hmesh.
Qed.

(** X8. On a loaded chunk [addBlock] throws exactly when it is asked to
    put, on an empty cell, a non-empty block id that has no batch (an id
    outside the registry); the error is a TypeError, and in every other case
    the call completes. *)
Theorem addBlock_throws_exactly_without_batch store c x y z b :
  loaded_chunk c →
  (addBlock store c x y z b = Throw TypeError ↔
   ∃ cell, cell_at c (x, y, z) = Some cell ∧ id cell = blocks_empty_id ∧
           b ≠ blocks_empty_id ∧ b ∉ blocks_ids) ∧
  ((∃ r, addBlock store c x y z b = Ok r) ∨
   addBlock store c x y z b = Throw TypeError).
Proof.
  intros Hinv%loaded_chunk_inv. pose proof Hinv as [Hs Hlk].
  pose proof (getBlock_shaped c x y z Hs) as Hget.
  assert ((∃ cell, cell_at c (x, y, z) = Some cell ∧ id cell = blocks_empty_id ∧
                   b ≠ blocks_empty_id ∧ b ∉ blocks_ids) →
          addBlock store c x y z b = Throw TypeError) as Hthrow.
  { intros (cell & Hcell & Hid & Hnew & Hreg).
    apply addBlock_no_batch with cell;
      [done|done|done|by eapply empty_cell_no_instance|done|].
    apply eq_None_not_Some. intros [Hin _]%(linked_keys _ _ Hlk). done. }
  assert (¬ (∃ cell, cell_at c (x, y, z) = Some cell ∧ id cell = blocks_empty_id ∧
                     b ≠ blocks_empty_id ∧ b ∉ blocks_ids) →
          ∃ r, addBlock store c x y z b = Ok r) as Hok.
  { intros Hno. destruct (cell_at c (x, y, z)) as [cell|] eqn:Hcell.
    - destruct (decide (id cell = blocks_empty_id)) as [Hid|Hid].
      + destruct (decide (b = blocks_empty_id)) as [->|Hnew].
        * rewrite (addBlock_empty_id _ _ _ _ _ _ Hget Hid). eauto.
        * destruct (decide (b ∈ blocks_ids)) as [Hreg|Hreg].
          -- assert (is_Some (children c !! b)) as [mesh Hmesh]
               by (by apply (linked_keys _ _ Hlk)).
             destruct (addBlock_place store c x y z b cell mesh)
               as (c' & -> & _); [done..|]. eauto.
          -- exfalso. apply Hno. eauto.
      + rewrite (addBlock_occupied _ _ _ _ _ _ _ Hget Hid). eauto.
    - unfold addBlock. rewrite Hget, bind_Ok. eauto. }
  assert ((∃ cell, cell_at c (x, y, z) = Some cell ∧ id cell = blocks_empty_id ∧
                   b ≠ blocks_empty_id ∧ b ∉ blocks_ids) ∨
          ¬ (∃ cell, cell_at c (x, y, z) = Some cell ∧ id cell = blocks_empty_id ∧
                     b ≠ blocks_empty_id ∧ b ∉ blocks_ids)) as [Hyes|Hno].
  { destruct (cell_at c (x, y, z)) as [cell|]; [|right; by intros (? & ? & _)].
    destruct (decide (id cell = blocks_empty_id));
      [|right; intros (? & [= <-] & ? & _); done].
    destruct (decide (b = blocks_empty_id));
      [right; intros (? & _ & _ & ? & _); done|].
    destruct (decide (b ∈ blocks_ids));
      [right; intros (? & _ & _ & _ & ?); done|].
    left. eauto. }
  - split; [by split|]. right. auto.
  - destruct (Hok Hno) as [r Hr]. split; [|eauto].
    split; [rewrite Hr; discriminate|done].
Qed.

(** A loop throws [e] when one of its steps does, provided the steps before
    it either keep the invariant or throw [e] themselves. *)
Lemma foldM_throws {A S} (I : list A → S → Prop) (f : A → S → result S)
    l s e done a rest :
  l = done ++ a :: rest →
  I [] s →
  (∀ done' a' rest' s', l = done' ++ a' :: rest' → I done' s' →
     (∃ s'', f a' s' = Ok s'' ∧ I (done' ++ [a']) s'') ∨ f a' s' = Throw e) →
  (∀ s', I done s' → f a s' = Throw e) →
  foldM f l s = Throw e.
Proof.
  intros Hl Hinit Hstep Hbad.
  cut (∀ rest' done' s', l = done' ++ rest' → I done' s' →
         (length done' ≤ length done)%nat → foldM f rest' s' = Throw e).
  { intros Hcut. apply (Hcut l []); [done..|simpl; lia]. }
  induction rest' as [|a' rest' IH]; intros done' s' Hl' HI Hlen.
  - exfalso. rewrite app_nil_r in Hl'. rewrite Hl' in Hl.
    apply (f_equal length) in Hl. rewrite length_app in Hl. simpl in Hl. lia.
  - cbn [foldM]. destruct (decide (length done' = length done)) as [Heq|Hne].
    + rewrite Hl in Hl'. apply app_inj_1 in Hl' as [-> [= -> ->]]; [|done].
      by rewrite (Hbad _ HI).
    + destruct (Hstep done' a' rest' s' Hl' HI) as [(s'' & -> & HI')| ->]; [|done].
      rewrite bind_Ok. apply (IH (done' ++ [a'])); [by rewrite <-app_assoc|done|].
      rewrite length_app. simpl. lia.
Qed.

(** A visit of the meshing loop either keeps the loop's invariant or throws
    a TypeError, which it does at the cells whose block has no batch. *)
Lemma mesh_cell_outcome c0 done x y z rest c meshes :
  chunk_coords c0 = done ++ (x, y, z) :: rest →
  meshing c0 done (c, meshes) →
  (∃ st', mesh_cell x y z (c, meshes) = Ok st' ∧ meshing c0 (done ++ [(x, y, z)]) st') ∨
  (mesh_cell x y z (c, meshes) = Throw TypeError).
Proof.
  intros Hl Hm. pose proof Hm as [Hs Hf Hids Hlk Hv Hc]. simpl in *.
  assert ((x, y, z) ∈ chunk_coords c0) as Hin.
  { rewrite Hl. apply elem_of_app. right. left. }
  assert (is_Some (cell_at c (x, y, z))) as [cell Hcell].
  { apply Hs. apply inBounds_spec. destruct Hf as (-> & _).
    by apply elem_of_grid3 in Hin. }
  destruct (decide (id cell = blocks_empty_id)) as [Hid|Hid].
  { left. eapply mesh_cell_step; [done..|]. intros cell' ?. by simplify_eq. }
  destruct (meshes !! id cell) as [mesh|] eqn:Hmesh.
  { left. eapply mesh_cell_step; [done..|]. intros cell' ? _. by simplify_eq. }
  right. unfold mesh_cell. rewrite getBlock_shaped, bind_Ok, Hcell by done.
  rewrite (proj2 (Z.eqb_neq _ _) Hid). by rewrite Hmesh.
Qed.

Lemma mesh_cell_no_batch c0 done x y z c meshes cell :
  meshing c0 done (c, meshes) →
  cell_at c0 (x, y, z) = Some cell →
  id cell ≠ blocks_empty_id → id cell ∉ blocks_ids →
  mesh_cell x y z (c, meshes) = Throw TypeError.
Proof.
  intros [Hs Hf Hids Hlk Hv Hc] Hcell Hid Hreg. simpl in *.
  pose proof (Hids (x, y, z)) as Hsame. rewrite Hcell in Hsame. simpl in Hsame.
  destruct (cell_at c (x, y, z)) as [cell'|] eqn:Hcell'; [|done].
  injection Hsame as Hsame.
  unfold mesh_cell. rewrite getBlock_shaped, bind_Ok, Hcell', Hsame by done.
  rewrite (proj2 (Z.eqb_neq _ _) Hid).
  assert (meshes !! id cell = None) as ->; [|done].
  apply eq_None_not_Some. by intros [? _]%(linked_keys _ _ Hlk).
Qed.

Lemma generateMeshes_unregistered c x y z cell :
  shaped c →
  (∀ q cell, cell_at c q = Some cell → instanceId cell = None) →
  cell_at c (x, y, z) = Some cell →
  id cell ≠ blocks_empty_id → id cell ∉ blocks_ids →
  generateMeshes c = Throw TypeError.
Proof.
  intros Hs Hnone Hcell Hid Hreg.
  assert (inBounds c x y z = true) as Hb by (by apply Hs).
  pose proof (inBounds_max_count _ _ _ _ Hb) as Hmax.
  unfold generateMeshes. cbn zeta.
  change (width (size (with_children c ∅))) with (width (size c)).
  change (height (size (with_children c ∅))) with (height (size c)).
  fold (max_count c). rewrite build_meshes_ok, bind_Ok by lia.
  rewrite for_nest_grid3.
  assert ((x, y, z) ∈ grid3 (width (size c)) (height (size c)) (width (size c)))
    as (done & rest & Hl)%list_elem_of_split.
  { by apply elem_of_grid3, inBounds_spec. }
  rewrite (foldM_throws (meshing (with_children c ∅))
             (λ p, mesh_cell p.1.1 p.1.2 p.2) _ _ TypeError done (x, y, z) rest Hl);
    [done| |..].
  - by apply meshing_start.
  - intros done' [[x' y'] z'] rest' [c' meshes'] Hl' Hm. simpl.
    by eapply mesh_cell_outcome.
  - intros [c' meshes'] Hm. simpl. by eapply mesh_cell_no_batch.
Qed.

(** X9. A stored player change decides whether the chunk can be built: when
    the store holds, for a coordinate of the chunk, a non-empty block id
    outside the registry, [generate] throws a TypeError (the change is
    written to the grid, and the meshing pass finds no batch for it). *)
Theorem generate_throws_on_unregistered_change store c x y z :
  inBounds c x y z = true →
  ds_contains store (pos_x (position c)) (pos_z (position c)) x y z = true →
  ds_get store (pos_x (position c)) (pos_z (position c)) x y z ∉ blocks_ids →
  generate store c = Throw TypeError.
Proof.
  intros Hb Hcont Hreg.
  destruct (generate_grid store c) as (c3 & Hrun & Hs3 & Hf3 & Hcells).
  assert (generate store c = generateMeshes c3 ≫= λ c4, Ok (with_loaded c4 true)) as ->.
  { unfold generate. cbn zeta.
    destruct (generateResources (initializeTerrain c)) as [c1|]; [|done].
    rewrite bind_Ok in Hrun |- *.
    destruct (generateTerrain c1) as [c2|]; [|done].
    rewrite bind_Ok in Hrun |- *. by rewrite Hrun, bind_Ok. }
  assert (generated_id store c (x, y, z) =
          ds_get store (pos_x (position c)) (pos_z (position c)) x y z) as Hgen.
  { unfold generated_id, overlay_id. simpl. by rewrite Hcont. }
  rewrite (generateMeshes_unregistered c3 x y z
             {| id := generated_id store c (x, y, z); instanceId := None |}); [done|done|..].
  - intros [[x' y'] z'] cell. rewrite Hcells. destruct (inBounds c x' y' z'); [|done].
    by intros [= <-].
  - by rewrite Hcells, Hb.
  - simpl. rewrite Hgen. intros Heq. apply Hreg. rewrite Heq. left.
  - simpl. by rewrite Hgen.
Qed.

(** ** What the edits keep *)

Lemma same_setup_refl c : same_setup c c.
Proof. done. Qed.

Lemma addBlock_setup store c x y z b c' store' :
  chunk_inv c → addBlock store c x y z b = Ok (c', store') →
  same_setup c c' ∧ loaded c' = loaded c.
Proof.
  intros Hinv Hrun. pose proof Hinv as [Hs Hlk].
  pose proof (getBlock_shaped c x y z Hs) as Hget.
  destruct (cell_at c (x, y, z)) as [cell|] eqn:Hcell.
  - destruct (decide (id cell = blocks_empty_id)) as [Hid|Hid].
    + destruct (decide (b = blocks_empty_id)) as [->|Hnew].
      * rewrite (addBlock_empty_id _ _ _ _ _ _ Hget Hid) in Hrun. by simplify_eq.
      * destruct (children c !! b) as [mesh|] eqn:Hmesh.
        -- destruct (addBlock_place store c x y z b cell mesh)
             as (c'' & Hrun' & Hsetup & Hld & _); [done..|].
           rewrite Hrun' in Hrun. by simplify_eq.
        -- rewrite (addBlock_no_batch store c x y z b cell) in Hrun;
             [done..|by eapply empty_cell_no_instance|done|done].
    + rewrite (addBlock_occupied _ _ _ _ _ _ _ Hget Hid) in Hrun. by simplify_eq.
  - unfold addBlock in Hrun. rewrite Hget, bind_Ok in Hrun. by simplify_eq.
Qed.

(** The effect of a completed [removeBlock] on the cells: the target cell
    ends up empty and without an instance, every other cell keeps its block
    and keeps, or keeps lacking, an instance. *)
Lemma removeBlock_frame store c x y z c' store' :
  chunk_inv c → removeBlock store c x y z = Ok (c', store') →
  same_setup c c' ∧ loaded c' = loaded c ∧
  ∀ q cell, cell_at c q = Some cell →
    ∃ cell', cell_at c' q = Some cell' ∧
      (q = (x, y, z) → id cell' = blocks_empty_id ∧ instanceId cell' = None) ∧
      (q ≠ (x, y, z) →
         id cell' = id cell ∧
         (is_Some (instanceId cell') ↔ is_Some (instanceId cell))).
Proof.
  intros Hinv Hrun. pose proof Hinv as [Hs Hlk].
  pose proof (getBlock_shaped c x y z Hs) as Hget.
  assert (c' = c →
          (∀ cell, cell_at c (x, y, z) = Some cell → id cell = blocks_empty_id) →
          same_setup c c' ∧ loaded c' = loaded c ∧
          ∀ q cell, cell_at c q = Some cell →
            ∃ cell', cell_at c' q = Some cell' ∧
              (q = (x, y, z) → id cell' = blocks_empty_id ∧ instanceId cell' = None) ∧
              (q ≠ (x, y, z) →
                 id cell' = id cell ∧
                 (is_Some (instanceId cell') ↔ is_Some (instanceId cell)))) as Hsame.
  { intros -> Hempty. split; [done|]. split; [done|]. intros q cell Hq.
    exists cell. split; [done|]. split; [|done]. intros ->.
    split; [by apply Hempty|]. eapply empty_cell_no_instance; eauto. }
  destruct (cell_at c (x, y, z)) as [cell|] eqn:Hcell.
  - destruct (decide (id cell = blocks_empty_id)) as [Hid|Hid].
    + rewrite (removeBlock_empty_cell _ _ _ _ _ _ Hget Hid) in Hrun.
      apply Hsame; [by simplify_eq|]. by intros ? [= <-].
    + destruct (instanceId cell) as [i|] eqn:Hi.
      * destruct (linked_cell _ _ Hlk _ _ _ Hcell Hi) as (mesh & Hmesh & Hrange & _).
        destruct (removeBlock_visible store c x y z cell i mesh)
          as (c'' & qlast & Hlast & Hrun' & Hsetup & Hld & _ & Hcells & _); [done..|].
        rewrite Hrun' in Hrun. injection Hrun as <- <-.
        split; [done|]. split; [done|]. intros q cell0 Hq. rewrite Hcells.
        destruct (decide (q = (x, y, z))) as [->|Hne].
        { eexists. split; [done|]. split; [done|]. done. }
        destruct (decide (q = qlast)) as [->|Hnl].
        -- rewrite Hq. simpl. eexists. split; [done|]. split; [done|]. intros _.
           split; [done|]. simpl.
           destruct (linked_slot _ _ Hlk _ _ (count mesh - 1) Hmesh)
             as (q' & cl & Hq' & Hcl & _ & Hil); [lia|].
           rewrite Hlast in Hq'. injection Hq' as <-.
           rewrite Hq in Hcl. injection Hcl as <-. rewrite Hil. done.
        -- exists cell0. done.
      * destruct (removeBlock_hidden store c x y z cell)
          as (c'' & Hrun' & Hf & Hcells & _); [done..|].
        rewrite Hrun' in Hrun. injection Hrun as <- <-.
        destruct Hf as (Hsz & Hps & Hpos & _ & Hld).
        split; [done|]. split; [done|]. intros q cell0 Hq. rewrite Hcells.
        destruct (decide (q = (x, y, z))) as [->|Hne].
        { eexists. split; [done|]. split; [done|]. done. }
        exists cell0. done.
  - unfold removeBlock in Hrun. rewrite Hget, bind_Ok in Hrun.
    apply Hsame; [by simplify_eq|done].
Qed.

Lemma loaded_chunk_loaded c : loaded_chunk c → loaded c = true.
Proof.
  induction 1 as [store c c' Hrun|store c x y z b c' store' Hc IH Hrun
                 |store c x y z c' store' Hc IH Hrun].
  - apply generate_Ok in Hrun. apply Hrun.
  - apply addBlock_setup in Hrun as [_ ->]; [done|by apply loaded_chunk_inv].
  - apply removeBlock_frame in Hrun as (_ & -> & _); [done|by apply loaded_chunk_inv].
Qed.

(** X10. [removeBlock] only takes away: once it has completed on a loaded
    chunk, the cell at the coordinate is empty and has no instance, and every
    other cell has the block it had and an instance exactly if it had one
    before. In particular no hidden block gets an instance. *)
Theorem removeBlock_reveals_nothing store c x y z c' store' :
  loaded_chunk c → removeBlock store c x y z = Ok (c', store') →
  ∀ q cell, cell_at c q = Some cell →
    ∃ cell', cell_at c' q = Some cell' ∧
      (q = (x, y, z) → id cell' = blocks_empty_id ∧ instanceId cell' = None) ∧
      (q ≠ (x, y, z) →
         id cell' = id cell ∧
         (is_Some (instanceId cell') ↔ is_Some (instanceId cell))).
Proof.
  intros Hc Hrun. by eapply removeBlock_frame; [apply loaded_chunk_inv|].
Qed.

Lemma neighbours_sym p n : n ∈ neighbours p → p ∈ neighbours n.
Proof.
  destruct p as [[x y] z]. unfold neighbours at 1. rewrite !elem_of_cons, elem_of_nil.
  intros [->|[->|[->|[->|[->|[->|[]]]]]]]; simpl; rewrite !elem_of_cons.
  - right. left. f_equal. f_equal. lia.
  - left. f_equal. f_equal. lia.
  - do 3 right. left. do 2 f_equal. lia.
  - do 2 right. left. do 2 f_equal. lia.
  - do 5 right. left. f_equal. lia.
  - do 4 right. left. f_equal. lia.
Qed.

Lemma neighbours_ne p n : n ∈ neighbours p → n ≠ p.
Proof.
  destruct p as [[x y] z]. unfold neighbours. rewrite !elem_of_cons, elem_of_nil.
  intros [->|[->|[->|[->|[->|[->|[]]]]]]] [= ?]; lia.
Qed.

(** X11. After [removeBlock] has taken a block away, a neighbouring block
    that was hidden (non-empty, without an instance) is still without an
    instance although it is no longer obscured: the chunk leaves revealing
    the neighbours to its caller. *)
Theorem removeBlock_leaves_neighbours_hidden store c x y z cell n cn :
  loaded_chunk c →
  cell_at c (x, y, z) = Some cell → id cell ≠ blocks_empty_id →
  n ∈ neighbours (x, y, z) →
  cell_at c n = Some cn → id cn ≠ blocks_empty_id → instanceId cn = None →
  ∃ c' store' cn',
    removeBlock store c x y z = Ok (c', store') ∧
    cell_at c' n = Some cn' ∧ id cn' = id cn ∧ instanceId cn' = None ∧
    isBlockObscured c' n.1.1 n.1.2 n.2 = Ok false.
Proof.
  intros Hinv%loaded_chunk_inv Hcell Hid Hn Hcn Hidn Hin.
  destruct (removeBlock_total store c x y z Hinv) as (c' & store' & Hrun & [Hs' _]).
  destruct (removeBlock_frame _ _ _ _ _ _ _ Hinv Hrun) as (_ & _ & Hframe).
  destruct (Hframe _ _ Hcn) as (cn' & Hcn' & _ & Hother).
  destruct Hother as [Hsame Hinst]; [by apply neighbours_ne|].
  destruct (Hframe _ _ Hcell) as (cell' & Hcell' & [Hempty _] & _); [done|].
  exists c', store', cn'. split; [done|]. split; [done|]. split; [done|]. split.
  { apply eq_None_not_Some. rewrite Hinst, Hin. by intros [? ?]. }
  destruct n as [[a b] d]. simpl. rewrite isBlockObscured_shaped by done. f_equal.
  apply not_true_is_false. rewrite obscured_true. intros Hall.
  apply (Hall (x, y, z)); [by apply neighbours_sym|].
  unfold id_at. by rewrite Hcell'.
Qed.

(** ** Invariants of a loaded chunk *)

(** X12. On a loaded chunk the cells and the batches agree: a cell with
    instance id [i] holds a non-empty block, its batch has more than [i]
    instances and stores the cell's own coordinate in slot [i]; and every
    slot below a batch's count stores the coordinate of a cell of that block
    type whose instance id is the slot. *)
Theorem instances_match_cells c :
  loaded_chunk c →
  (∀ q cell i, cell_at c q = Some cell → instanceId cell = Some i →
     id cell ≠ blocks_empty_id ∧
     ∃ mesh, children c !! id cell = Some mesh ∧ 0 ≤ i < count mesh ∧
             instanceMatrix mesh !! i = Some q) ∧
  (∀ b mesh i, children c !! b = Some mesh → 0 ≤ i < count mesh →
     ∃ q cell, instanceMatrix mesh !! i = Some q ∧ cell_at c q = Some cell ∧
               id cell = b ∧ instanceId cell = Some i).
Proof.
  intros Hinv%loaded_chunk_inv. pose proof Hinv as [Hs Hlk]. split.
  - intros q cell i Hcell Hi. split.
    + intros Hid. rewrite (empty_cell_no_instance _ _ _ Hinv Hcell Hid) in Hi. done.
    + by eapply linked_cell.
  - intros b mesh i Hmesh Hi. by eapply linked_slot.
Qed.

Lemma build_meshes_negative n m :
  n < 0 → build_meshes n = Ok m →
  filter (λ blockType, blockType ≠ blocks_empty_id) blocks_ids = [].
Proof.
  intros Hn. unfold build_meshes, new_InstancedMesh.
  rewrite bool_decide_false by lia.
  by destruct (filter _ blocks_ids) as [|b l].
Qed.

(** [generate] as the meshing pass run on the grid the first three passes
    and the store produce. *)
Lemma generate_meshes_of_grid store c :
  ∃ c3,
    generate store c = (generateMeshes c3 ≫= λ c4, Ok (with_loaded c4 true)) ∧
    shaped c3 ∧ same_fields c c3 ∧
    ∀ x y z,
      cell_at c3 (x, y, z) =
      if inBounds c x y z
      then Some {| id := generated_id store c (x, y, z); instanceId := None |}
      else None.
Proof.
  destruct (generate_grid store c) as (c3 & Hrun & Hs3 & Hf3 & Hcells).
  exists c3. split; [|done]. unfold generate. cbn zeta.
  destruct (generateResources (initializeTerrain c)) as [c1|]; [|done].
  rewrite bind_Ok in Hrun |- *.
  destruct (generateTerrain c1) as [c2|]; [|done].
  rewrite bind_Ok in Hrun |- *. by rewrite Hrun, bind_Ok.
Qed.

Lemma same_setup_max_count c c' : same_setup c c' → max_count c' = max_count c.
Proof. intros (Hsz & _). unfold max_count. by rewrite Hsz. Qed.

Lemma loaded_chunk_capacity c b :
  loaded_chunk c → is_Some (children c !! b) → 0 ≤ max_count c.
Proof.
  induction 1 as [store c c' Hrun|store c x y z b' c' store' Hc IH Hrun
                 |store c x y z c' store' Hc IH Hrun]; intros Hsome.
  - pose proof (generate_Ok _ _ _ Hrun) as (Hsetup & _ & [_ Hlk] & _).
    destruct (generate_meshes_of_grid store c) as (c3 & Heq & _ & Hf3 & _).
    rewrite Heq in Hrun. apply bind_Ok_inv in Hrun as (c4 & Hrun & _).
    unfold generateMeshes in Hrun. cbn zeta in Hrun.
    apply bind_Ok_inv in Hrun as (m & Hm & _).
    change (width (size (with_children c3 ∅))) with (width (size c3)) in Hm.
    change (height (size (with_children c3 ∅))) with (height (size c3)) in Hm.
    fold (max_count c3) in Hm.
    rewrite (same_setup_max_count _ _ Hsetup), <-(same_fields_max_count _ _ Hf3).
    destruct (decide (0 ≤ max_count c3)) as [|Hneg]; [done|]. exfalso.
    apply build_meshes_negative in Hm; [|lia].
    apply (linked_keys _ _ Hlk) in Hsome as [Hin Hne].
    assert (b ∈ filter (λ blockType, blockType ≠ blocks_empty_id) blocks_ids) as Hb
      by by apply list_elem_of_filter.
    rewrite Hm in Hb. by apply elem_of_nil in Hb.
  - pose proof (loaded_chunk_inv _ Hc) as Hinv.
    pose proof (addBlock_Ok_inv _ _ _ _ _ _ _ _ Hinv Hrun) as [_ Hlk'].
    apply addBlock_setup in Hrun as [Hsetup _]; [|done].
    rewrite (same_setup_max_count _ _ Hsetup). apply IH.
    apply (linked_keys _ _ (proj2 Hinv)). by apply (linked_keys _ _ Hlk').
  - pose proof (loaded_chunk_inv _ Hc) as Hinv.
    pose proof (removeBlock_Ok_inv _ _ _ _ _ _ _ Hinv Hrun) as [_ Hlk'].
    apply removeBlock_frame in Hrun as (Hsetup & _); [|done].
    rewrite (same_setup_max_count _ _ Hsetup). apply IH.
    apply (linked_keys _ _ (proj2 Hinv)). by apply (linked_keys _ _ Hlk').
Qed.

(** X13. The batches of a loaded chunk never overflow: each one has the
    capacity width * height * width it was created with, its count stays
    between 0 and that capacity, and as long as some cell of the grid has no
    instance there is a free slot in every batch. *)
Theorem batches_never_overflow c b mesh :
  loaded_chunk c → children c !! b = Some mesh →
  capacity mesh = width (size c) * height (size c) * width (size c) ∧
  0 ≤ count mesh ≤ capacity mesh ∧
  (∀ q cell, cell_at c q = Some cell → instanceId cell = None →
     count mesh < capacity mesh).
Proof.
  intros Hc Hmesh. pose proof (loaded_chunk_inv _ Hc) as Hinv.
  pose proof (loaded_chunk_capacity c b Hc (mk_is_Some _ _ Hmesh)) as Hmax.
  destruct (linked_mesh _ _ (proj2 Hinv) _ _ Hmesh) as [Hcap Hcnt].
  fold (max_count c). split; [done|]. rewrite Hcap. split.
  - split; [done|].
    pose proof (count_plus_free c b mesh [] Hinv Hmax Hmesh) as Hfree.
    simpl in Hfree. rewrite Z.add_0_r in Hfree. apply Hfree; [constructor|].
    by intros q ?%elem_of_nil.
  - intros q cell Hcell Hnone.
    pose proof (count_plus_free c b mesh [q] Hinv Hmax Hmesh) as Hfree.
    simpl in Hfree. cut (count mesh + 1 ≤ max_count c); [lia|].
    apply Hfree; [apply NoDup_singleton|].
    intros q' ->%list_elem_of_singleton. eauto.
Qed.

(** X14. Neither edit touches the setup: after a completed [addBlock] or
    [removeBlock] on a loaded chunk the size, the parameters and the position
    are the ones before, and the chunk is still marked loaded. *)
Theorem edits_keep_setup store c x y z b c' store' :
  loaded_chunk c →
  addBlock store c x y z b = Ok (c', store') ∨
  removeBlock store c x y z = Ok (c', store') →
  size c' = size c ∧ params c' = params c ∧ position c' = position c ∧
  loaded c' = true.
Proof.
  intros Hc Hrun. pose proof (loaded_chunk_inv _ Hc) as Hinv.
  pose proof (loaded_chunk_loaded _ Hc) as Hld.
  destruct Hrun as [Hrun|Hrun].
  - apply addBlock_setup in Hrun as [(? & ? & ?) Hld']; [|done].
    by rewrite Hld', Hld.
  - apply removeBlock_frame in Hrun as ((? & ? & ?) & Hld' & _); [|done].
    by rewrite Hld', Hld.
Qed.

(** ** Round trips *)

(** X15. Placing a block on an empty cell and removing it again restores
    the grid and the batches' counts and used slots; only the store remembers:
    it now holds the empty id for the coordinate. *)
Theorem add_then_remove_restores store c x y z b cell :
  loaded_chunk c →
  cell_at c (x, y, z) = Some cell → id cell = blocks_empty_id →
  b ∈ blocks_ids → b ≠ blocks_empty_id →
  ∃ c1 store1 c2,
    addBlock store c x y z b = Ok (c1, store1) ∧
    removeBlock store1 c1 x y z =
      Ok (c2, ds_set store1 (pos_x (position c)) (pos_z (position c)) x y z
                blocks_empty_id) ∧
    (∀ q, cell_at c2 q = cell_at c q) ∧
    (∀ b', count <$> children c2 !! b' = count <$> children c !! b') ∧
    (∀ b' m m2 i, children c !! b' = Some m → children c2 !! b' = Some m2 →
       0 ≤ i < count m → instanceMatrix m2 !! i = instanceMatrix m !! i).
Proof.
  intros Hinv%loaded_chunk_inv Hcell Hid Hreg Hnew. pose proof Hinv as [Hs Hlk].
  assert (is_Some (children c !! b)) as [mesh Hmesh]
    by (by apply (linked_keys _ _ Hlk)).
  pose proof (empty_cell_no_instance _ _ _ Hinv Hcell Hid) as Hnone.
  destruct (addBlock_place store c x y z b cell mesh)
    as (c1 & Hrun1 & (_ & _ & Hpos) & _ & Hch1 & Hcells1 & Hinv1); [done..|].
  assert (cell_at c1 (x, y, z) = Some {| id := b; instanceId := Some (count mesh) |})
    as Hcell1 by (by rewrite Hcells1, decide_True).
  destruct (removeBlock_visible
              (ds_set store (pos_x (position c)) (pos_z (position c)) x y z b)
              c1 x y z _ (count mesh)
              {| count := count mesh + 1; capacity := capacity mesh;
                 instanceMatrix := <[count mesh := (x, y, z)]> (instanceMatrix mesh) |}
              Hinv1 Hcell1)
    as (c2 & qlast & Hlast & Hrun2 & _ & _ & Hch2 & Hcells2 & _);
    [done|done|by rewrite Hch1; apply lookup_insert_eq|].
  simpl in Hlast, Hrun2, Hch2.
  replace (count mesh + 1 - 1) with (count mesh) in Hlast, Hch2 by lia.
  rewrite lookup_insert_eq in Hlast. injection Hlast as <-.
  rewrite Hpos in Hrun2.
  eexists c1, _, c2. split; [done|]. split; [done|]. split; [|split].
  - intros q. rewrite Hcells2.
    destruct (decide (q = (x, y, z))) as [->|Hne].
    + rewrite Hcell. f_equal. destruct cell as [i o]. simpl in *. by subst.
    + by rewrite Hcells1, decide_False.
  - intros b'. rewrite Hch2, Hch1. destruct (decide (b' = b)) as [->|Hne].
    + by rewrite lookup_insert_eq, Hmesh.
    + by rewrite !lookup_insert_ne.
  - intros b' m m2 i Hm. rewrite Hch2, Hch1. destruct (decide (b' = b)) as [->|Hne].
    + rewrite lookup_insert_eq. intros [= <-] Hi. simpl.
      rewrite Hmesh in Hm. injection Hm as <-.
      by rewrite !lookup_insert_ne by lia.
    + rewrite !lookup_insert_ne by done. intros Hm2 _. by simplify_eq.
Qed.

(** ** Edits and regeneration *)

Lemma regenerate_reads_change store c c1 x y z v :
  same_setup c c1 → inBounds c x y z = true →
  ds_contains store (pos_x (position c)) (pos_z (position c)) x y z = true →
  ds_get store (pos_x (position c)) (pos_z (position c)) x y z = v →
  resources_registered → store_registered store (position c) →
  ∃ c2 cell2,
    generate store c1 = Ok c2 ∧ cell_at c2 (x, y, z) = Some cell2 ∧
    id cell2 = v ∧ (v = blocks_empty_id → instanceId cell2 = None).
Proof.
  intros (Hsz & Hps & Hpos) Hb Hcont Hget Hres Hstore.
  assert (inBounds c1 x y z = true) as Hb1.
  { apply inBounds_spec. rewrite Hsz. by apply inBounds_spec. }
  destruct (generate_registered store c1) as (c2 & Hrun & Hgen);
    [apply inBounds_max_count in Hb1; lia|done|by rewrite Hpos|].
  destruct (generated_cell _ _ _ x y z Hgen Hb1) as (cell2 & Hcell2 & Hid2).
  exists c2, cell2. split; [done|]. split; [done|].
  assert (id cell2 = v) as Hv.
  { rewrite Hid2. unfold generated_id, overlay_id. simpl. by rewrite Hpos, Hcont. }
  split; [done|]. intros ->.
  destruct Hgen as (_ & _ & Hinv2 & _). by eapply empty_cell_no_instance.
Qed.

(** X16. A placed block survives regeneration: after [addBlock] on an
    empty cell, [generate] with the store that [addBlock] returns puts the
    placed block id at the coordinate again, provided the store returns for
    the coordinate what was set and holds registered ids only. *)
Theorem placed_block_survives_regeneration store c x y z b cell :
  loaded_chunk c →
  cell_at c (x, y, z) = Some cell → id cell = blocks_empty_id →
  b ∈ blocks_ids →
  ds_contains (ds_set store (pos_x (position c)) (pos_z (position c)) x y z b)
    (pos_x (position c)) (pos_z (position c)) x y z = true →
  ds_get (ds_set store (pos_x (position c)) (pos_z (position c)) x y z b)
    (pos_x (position c)) (pos_z (position c)) x y z = b →
  resources_registered →
  store_registered (ds_set store (pos_x (position c)) (pos_z (position c)) x y z b)
    (position c) →
  ∃ c1 c2 cell2,
    addBlock store c x y z b =
      Ok (c1, ds_set store (pos_x (position c)) (pos_z (position c)) x y z b) ∧
    generate (ds_set store (pos_x (position c)) (pos_z (position c)) x y z b) c1 =
      Ok c2 ∧
    cell_at c2 (x, y, z) = Some cell2 ∧ id cell2 = b.
Proof.
  intros Hinv%loaded_chunk_inv Hcell Hid Hreg Hcont Hget Hres Hstore.
  pose proof Hinv as [Hs Hlk].
  assert (inBounds c x y z = true) as Hb by (by apply Hs).
  assert (∃ c1, addBlock store c x y z b =
                  Ok (c1, ds_set store (pos_x (position c)) (pos_z (position c))
                            x y z b) ∧ same_setup c c1) as (c1 & Hrun & Hsetup).
  { destruct (decide (b = blocks_empty_id)) as [->|Hnew].
    - exists c. split; [|done]. apply addBlock_empty_id with cell; [|done].
      by rewrite getBlock_shaped, Hcell.
    - assert (is_Some (children c !! b)) as [mesh Hmesh]
        by (by apply (linked_keys _ _ Hlk)).
      destruct (addBlock_place store c x y z b cell mesh)
        as (c1 & Hrun & Hsetup & _); [done..|]. eauto. }
  destruct (regenerate_reads_change _ c c1 x y z b Hsetup Hb Hcont Hget Hres Hstore)
    as (c2 & cell2 & Hgen & Hcell2 & Hid2 & _).
  exists c1, c2, cell2. done.
Qed.

(** X17. A removed block stays removed: after [removeBlock] on a block,
    [generate] with the store that [removeBlock] returns leaves the cell
    empty and without an instance, whatever the terrain passes put there,
    under the same provisos on the store. *)
Theorem removed_block_stays_removed store c x y z cell :
  loaded_chunk c →
  cell_at c (x, y, z) = Some cell → id cell ≠ blocks_empty_id →
  ds_contains
    (ds_set store (pos_x (position c)) (pos_z (position c)) x y z blocks_empty_id)
    (pos_x (position c)) (pos_z (position c)) x y z = true →
  ds_get
    (ds_set store (pos_x (position c)) (pos_z (position c)) x y z blocks_empty_id)
    (pos_x (position c)) (pos_z (position c)) x y z = blocks_empty_id →
  resources_registered →
  store_registered
    (ds_set store (pos_x (position c)) (pos_z (position c)) x y z blocks_empty_id)
    (position c) →
  ∃ c1 c2,
    removeBlock store c x y z =
      Ok (c1, ds_set store (pos_x (position c)) (pos_z (position c)) x y z
                blocks_empty_id) ∧
    generate
      (ds_set store (pos_x (position c)) (pos_z (position c)) x y z blocks_empty_id)
      c1 = Ok c2 ∧
    cell_at c2 (x, y, z) = Some {| id := blocks_empty_id; instanceId := None |}.
Proof.
  intros Hinv%loaded_chunk_inv Hcell Hid Hcont Hget Hres Hstore.
  pose proof Hinv as [Hs Hlk].
  assert (inBounds c x y z = true) as Hb by (by apply Hs).
  assert (∃ c1, removeBlock store c x y z =
                  Ok (c1, ds_set store (pos_x (position c)) (pos_z (position c))
                            x y z blocks_empty_id) ∧ same_setup c c1)
    as (c1 & Hrun & Hsetup).
  { destruct (instanceId cell) as [i|] eqn:Hi.
    - destruct (linked_cell _ _ Hlk _ _ _ Hcell Hi) as (mesh & Hmesh & _).
      destruct (removeBlock_visible store c x y z cell i mesh)
        as (c1 & qlast & _ & Hrun & Hsetup & _); [done..|]. eauto.
    - destruct (removeBlock_hidden store c x y z cell)
        as (c1 & Hrun & (? & ? & ? & _) & _); [done..|].
      exists c1. by split. }
  destruct (regenerate_reads_change _ c c1 x y z _ Hsetup Hb Hcont Hget Hres Hstore)
    as (c2 & [i2 o2] & Hgen & Hcell2 & Hid2 & Hnone).
  exists c1, c2. split; [done|]. split; [done|].
  simpl in *. rewrite Hcell2, Hid2, Hnone by done. done.
Qed.

(** X18. Regeneration starts from nothing: the outcome of [generate],
    result or error, depends on the store and on the chunk's size, parameters
    and position only, not on the grid, the batches or the loaded flag the
    chunk had. *)
Theorem regeneration_forgets_the_chunk store c1 c2 :
  size c1 = size c2 → params c1 = params c2 → position c1 = position c2 →
  generate store c1 = generate store c2.
Proof.
  intros Hsz Hps Hpos.
  rewrite (generate_from_scratch store c1), (generate_from_scratch store c2).
  by rewrite Hsz, Hps, Hpos.
Qed.

(** X19. [disposeInstances] takes the batches away and nothing else: reads
    of the grid return what they returned, but on the disposed chunk removing
    a block that has an instance, or placing a block on an empty cell, throws
    a TypeError; [generate] rebuilds the chunk as from the chunk before. *)
Theorem disposed_chunk_has_no_batches store c x y z cell :
  loaded_chunk c →
  cell_at c (x, y, z) = Some cell →
  getBlock (disposeInstances c) x y z = Ok (Some cell) ∧
  (is_Some (instanceId cell) →
     removeBlock store (disposeInstances c) x y z = Throw TypeError) ∧
  (id cell = blocks_empty_id → ∀ b, b ≠ blocks_empty_id →
     addBlock store (disposeInstances c) x y z b = Throw TypeError) ∧
  generate store (disposeInstances c) = generate store c.
Proof.
  intros Hinv%loaded_chunk_inv Hcell. pose proof Hinv as [Hs Hlk].
  assert (shaped (disposeInstances c)) as Hs' by (by apply shaped_with_children).
  assert (cell_at (disposeInstances c) (x, y, z) = Some cell) as Hcell' by done.
  split; [by rewrite getBlock_shaped, Hcell'|]. split; [|split].
  - intros [i Hi].
    assert (id cell ≠ blocks_empty_id) as Hid.
    { intros Hid. rewrite (empty_cell_no_instance _ _ _ Hinv Hcell Hid) in Hi. done. }
    unfold removeBlock. rewrite getBlock_shaped, bind_Ok, Hcell' by done.
    rewrite (proj2 (Z.eqb_neq _ _) Hid). simpl.
    unfold deleteBlockInstance. rewrite getBlock_shaped, bind_Ok, Hcell', Hi by done.
    simpl. by rewrite lookup_empty.
  - intros Hid b Hnew. apply addBlock_no_batch with cell; [done..| |done|].
    + by eapply empty_cell_no_instance.
    + simpl. apply lookup_empty.
  - by rewrite (generate_from_scratch store (disposeInstances c)),
      (generate_from_scratch store c).
Qed.

Lemma loadPlayerChanges_agree store1 store2 c :
  (∀ x y z, inBounds c x y z = true →
     ds_contains store1 (pos_x (position c)) (pos_z (position c)) x y z =
     ds_contains store2 (pos_x (position c)) (pos_z (position c)) x y z ∧
     (ds_contains store1 (pos_x (position c)) (pos_z (position c)) x y z = true →
      ds_get store1 (pos_x (position c)) (pos_z (position c)) x y z =
      ds_get store2 (pos_x (position c)) (pos_z (position c)) x y z)) →
  loadPlayerChanges store1 c = loadPlayerChanges store2 c.
Proof.
  intros Hagree. unfold loadPlayerChanges. rewrite !for_nest_grid3.
  apply foldM_ext. intros [[x y] z] s Hin. simpl.
  apply elem_of_grid3 in Hin. apply inBounds_spec in Hin.
  destruct (Hagree x y z Hin) as [Hcont Hget]. unfold load_change.
  rewrite <-Hcont.
  destruct (ds_contains store1 _ _ x y z); [|done]. by rewrite Hget.
Qed.

(** X20. [generate] reads the store only at the chunk's own position and
    at the coordinates of its grid: two stores that agree there (on what they
    contain, and on the ids they hold) give the same outcome, whatever else
    they hold. *)
Theorem generate_reads_own_entries store1 store2 c :
  (∀ x y z, inBounds c x y z = true →
     ds_contains store1 (pos_x (position c)) (pos_z (position c)) x y z =
     ds_contains store2 (pos_x (position c)) (pos_z (position c)) x y z ∧
     (ds_contains store1 (pos_x (position c)) (pos_z (position c)) x y z = true →
      ds_get store1 (pos_x (position c)) (pos_z (position c)) x y z =
      ds_get store2 (pos_x (position c)) (pos_z (position c)) x y z)) →
  generate store1 c = generate store2 c.
Proof.
  intros Hagree. unfold generate. cbn zeta.
  pose proof (initializeTerrain_shaped c) as Hs0.
  destruct (generateResources_remapped _ Hs0) as (c1 & -> & Hm1).
  pose proof (remapped_shaped _ _ _ Hs0 Hm1) as Hs1. rewrite !bind_Ok.
  destruct (generateTerrain_remapped _ Hs1) as (c2 & -> & Hm2).
  rewrite !bind_Ok.
  destruct Hm1 as [(Hsz1 & _ & Hpos1 & _) _], Hm2 as [(Hsz2 & _ & Hpos2 & _) _].
  assert (size c2 = size c) as Hsz by (by rewrite Hsz2, Hsz1).
  assert (position c2 = position c) as Hpos by (by rewrite Hpos2, Hpos1).
  rewrite (loadPlayerChanges_agree store1 store2 c2); [done|].
  intros x y z Hb. rewrite Hpos. apply Hagree.
  apply inBounds_spec. rewrite <-Hsz. by apply inBounds_spec.
Qed.

(** X21. Repeating an edit changes nothing: once [addBlock] of a non-empty
    id has completed on a loaded chunk, a further [addBlock] at the same
    coordinate, of any id, returns the chunk and the store as they are; and
    a [removeBlock] followed by a second one at the same coordinate ends with
    the chunk and the store the first one returned. *)
Theorem repeated_edits_are_noops store c x y z b :
  loaded_chunk c →
  (∀ c1 store1, b ≠ blocks_empty_id →
     addBlock store c x y z b = Ok (c1, store1) →
     ∀ b', addBlock store1 c1 x y z b' = Ok (c1, store1)) ∧
  (∃ c1 store1,
     removeBlock store c x y z = Ok (c1, store1) ∧
     removeBlock store1 c1 x y z = Ok (c1, store1)).
Proof.
  intros Hinv%loaded_chunk_inv. pose proof Hinv as [Hs Hlk].
  pose proof (getBlock_shaped c x y z Hs) as Hget. split.
  - intros c1 store1 Hnew Hrun b'.
    destruct (cell_at c (x, y, z)) as [cell|] eqn:Hcell.
    + destruct (decide (id cell = blocks_empty_id)) as [Hid|Hid].
      * destruct (children c !! b) as [mesh|] eqn:Hmesh.
        -- destruct (addBlock_place store c x y z b cell mesh)
             as (c'' & Hrun' & _ & _ & _ & Hcells & [Hs1 _]); [done..|].
           rewrite Hrun' in Hrun. injection Hrun as <- <-.
           eapply addBlock_occupied.
           ++ by rewrite getBlock_shaped, Hcells, decide_True.
           ++ done.
        -- rewrite (addBlock_no_batch store c x y z b cell) in Hrun;
             [done..|by eapply empty_cell_no_instance|done|done].
      * rewrite (addBlock_occupied _ _ _ _ _ _ _ Hget Hid) in Hrun.
        injection Hrun as <- <-. by eapply addBlock_occupied.
    + unfold addBlock in Hrun |- *. rewrite Hget, bind_Ok in Hrun.
      injection Hrun as <- <-. by rewrite Hget.
  - destruct (removeBlock_total store c x y z Hinv) as (c1 & store1 & Hrun & [Hs1 _]).
    exists c1, store1. split; [done|].
    destruct (removeBlock_frame _ _ _ _ _ _ _ Hinv Hrun) as (_ & _ & Hframe).
    destruct (cell_at c (x, y, z)) as [cell|] eqn:Hcell.
    + destruct (Hframe _ _ Hcell) as (cell' & Hcell' & [Hempty _] & _); [done|].
      eapply removeBlock_empty_cell; [|done].
      by rewrite getBlock_shaped, Hcell'.
    + unfold removeBlock in Hrun |- *. rewrite Hget, bind_Ok in Hrun.
      injection Hrun as <- <-. by rewrite Hget.
Qed.

(** ** The order of the instances *)

Lemma in_order_app {A} (R : A → A → Prop) l1 l2 :
  in_order R l1 → in_order R l2 →
  (∀ x y, x ∈ l1 → y ∈ l2 → R x y) →
  in_order R (l1 ++ l2).
Proof.
  induction l1 as [|a l1 IH]; intros H1 H2 Hcross; simpl; [done|].
  destruct H1 as [Ha H1]. split.
  - apply Forall_app. split; [done|]. apply Forall_forall. intros y Hy.
    apply Hcross; [left|done].
  - apply IH; [done..|]. intros x y Hx Hy. apply Hcross; [by right|done].
Qed.

Lemma in_order_before {A} (R : A → A → Prop) l1 l2 x y :
  in_order R (l1 ++ l2) → x ∈ l1 → y ∈ l2 → R x y.
Proof.
  induction l1 as [|a l1 IH]; simpl; intros Hord Hx Hy.
  - by apply elem_of_nil in Hx.
  - destruct Hord as [Ha Hord]. apply elem_of_cons in Hx as [->|Hx]; [|by apply IH].
    rewrite Forall_forall in Ha. apply Ha. apply elem_of_app. by right.
Qed.

Lemma in_order_bind {A B} (RA : A → A → Prop) (RB : B → B → Prop)
    (f : A → list B) l :
  in_order RA l →
  (∀ a, a ∈ l → in_order RB (f a)) →
  (∀ a a' x x', RA a a' → x ∈ f a → x' ∈ f a' → RB x x') →
  in_order RB (l ≫= f).
Proof.
  intros Hl Hf Hcross. induction l as [|a l IH]; [done|].
  destruct Hl as [Ha Hl]. change ((a :: l) ≫= f) with (f a ++ (l ≫= f)).
  apply in_order_app.
  - apply Hf. left.
  - apply IH; [done|]. intros a' Ha'. apply Hf. by right.
  - intros x y Hx (a' & Hy & Ha')%list_elem_of_bind.
    rewrite Forall_forall in Ha. by apply (Hcross a a'); [apply Ha|..].
Qed.

Lemma in_order_seqZ m n : in_order Z.lt (seqZ m n).
Proof.
  remember (Z.to_nat n) as k eqn:Hk. revert m n Hk.
  induction k as [|k IH]; intros m n Hk.
  - by rewrite seqZ_nil by lia.
  - rewrite seqZ_cons by lia. split; [|apply IH; lia].
    apply Forall_seqZ. intros. lia.
Qed.

Lemma in_order_grid3 a b d : in_order scan_before (grid3 a b d).
Proof.
  unfold grid3.
  apply (in_order_bind Z.lt); [apply in_order_seqZ| |].
  - intros i _. apply (in_order_bind Z.lt); [apply in_order_seqZ| |].
    + intros j _. apply (in_order_bind Z.lt); [apply in_order_seqZ| |].
      * intros k _. by split.
      * intros k k' q q' Hk ->%list_elem_of_singleton ->%list_elem_of_singleton.
        right. split; [done|]. right. by split.
    + intros j j' q q' Hj (k & ->%list_elem_of_singleton & _)%list_elem_of_bind
        (k' & ->%list_elem_of_singleton & _)%list_elem_of_bind.
      right. split; [done|]. by left.
  - intros i i' q q' Hi (j & Hq & _)%list_elem_of_bind (j' & Hq' & _)%list_elem_of_bind.
    apply list_elem_of_bind in Hq as (k & ->%list_elem_of_singleton & _).
    apply list_elem_of_bind in Hq' as (k' & ->%list_elem_of_singleton & _).
    by left.
Qed.

Lemma scan_before_asym q1 q2 : scan_before q1 q2 → scan_before q2 q1 → False.
Proof. unfold scan_before. lia. Qed.

Lemma mesh_cell_numbered c0 done x y z rest st st' :
  chunk_coords c0 = done ++ (x, y, z) :: rest →
  meshing c0 done st → numbered_in_order st.1 →
  mesh_cell x y z st = Ok st' →
  numbered_in_order st'.1.
Proof.
  intros Hl Hm Hnum Hrun. destruct st as [c meshes].
  pose proof Hm as [Hs Hf Hids Hlk Hv Hc]. simpl in *.
  unfold mesh_cell in Hrun. rewrite getBlock_shaped, bind_Ok in Hrun by done.
  destruct (cell_at c (x, y, z)) as [cell|] eqn:Hcell; [|done].
  destruct (id cell =? blocks_empty_id); [by simplify_eq|].
  destruct (meshes !! id cell) as [mesh|] eqn:Hmesh; [|done]. simpl in Hrun.
  rewrite isBlockObscured_shaped, bind_Ok in Hrun by done.
  destruct (obscured c (x, y, z)); [by simplify_eq|].
  destruct (setBlockInstanceId_updated c x y z (Some (count mesh)) Hs)
    as (c' & Hset & [_ Hcells]).
  rewrite Hset, bind_Ok in Hrun. injection Hrun as <-. simpl.
  assert (∀ q cell' i, cell_at c q = Some cell' → instanceId cell' = Some i →
                       scan_before q (x, y, z)) as Hdone.
  { intros q cell' i Hq Hi.
    assert (q ∈ done) as Hin by (apply (Hv _ _ Hq); by rewrite Hi).
    pose proof (in_order_grid3 (width (size c0)) (height (size c0))
                  (width (size c0))) as Hord.
    fold (coords (width (size c0)) (height (size c0))) in Hord.
    fold (chunk_coords c0) in Hord. rewrite Hl in Hord.
    eapply in_order_before; [done..|left]. }
  intros q1 q2 cell1 cell2 i1 i2. rewrite !Hcells.
  destruct (decide (q1 = (x, y, z))) as [->|Hne1];
    destruct (decide (q2 = (x, y, z))) as [->|Hne2].
  - intros _ _ _ _ _ Hlt. exfalso. by eapply scan_before_asym.
  - intros _ Hq2 _ _ Hi2 Hlt. exfalso.
    eapply scan_before_asym; [done|]. by eapply Hdone.
  - rewrite Hcell. simpl. intros Hq1 [= <-] Hid Hi1 [= <-] _. simpl in Hid.
    destruct (linked_cell _ _ Hlk _ _ _ Hq1 Hi1) as (mesh1 & Hmesh1 & Hrange & _).
    rewrite Hid, Hmesh in Hmesh1. injection Hmesh1 as <-. lia.
  - apply Hnum.
Qed.

Lemma generateMeshes_numbered c c' :
  shaped c →
  (∀ q cell, cell_at c q = Some cell → instanceId cell = None) →
  generateMeshes c = Ok c' → numbered_in_order c'.
Proof.
  intros Hs Hnone. unfold generateMeshes. cbn zeta.
  change (width (size (with_children c ∅))) with (width (size c)).
  change (height (size (with_children c ∅))) with (height (size c)).
  fold (max_count c).
  intros (meshes0 & ->%build_meshes_Ok & Hrun)%bind_Ok_inv.
  rewrite for_nest_grid3 in Hrun.
  apply bind_Ok_inv in Hrun as ([c1 meshes] & Hrun & Hret).
  injection Hret as <-.
  cut (meshing (with_children c ∅) (chunk_coords c) (c1, meshes) ∧
       numbered_in_order c1); [by intros [_ ?]|].
  eapply (foldM_inv_Ok
            (λ done st, meshing (with_children c ∅) done st ∧ numbered_in_order st.1));
    [| |exact Hrun].
  - intros done [[x y] z] rest st st' Hl [Hm Hnum] Hstep. simpl in Hstep. split.
    + by eapply mesh_cell_Ok.
    + by apply (mesh_cell_numbered (with_children c ∅) done x y z rest st st').
  - split; [by apply meshing_start|]. simpl.
    intros q1 q2 cell1 cell2 i1 i2 Hq1 _ _ Hi1.
    change (cell_at c q1 = Some cell1) in Hq1.
    by rewrite (Hnone _ _ Hq1) in Hi1.
Qed.

(** X22. [generate] numbers the instances of each batch in scan order (x
    outermost, then y, then z): of two cells of the same block type that have
    an instance, the one the loop nest visits first has the smaller instance
    id. *)
Theorem generate_numbers_in_scan_order store c c' q1 q2 cell1 cell2 i1 i2 :
  generate store c = Ok c' →
  cell_at c' q1 = Some cell1 → cell_at c' q2 = Some cell2 →
  id cell1 = id cell2 →
  instanceId cell1 = Some i1 → instanceId cell2 = Some i2 →
  scan_before q1 q2 → i1 < i2.
Proof.
  intros Hrun.
  destruct (generate_meshes_of_grid store c) as (c3 & Heq & Hs3 & _ & Hcells).
  rewrite Heq in Hrun. apply bind_Ok_inv in Hrun as (c4 & Hrun & [= <-]).
  apply generateMeshes_numbered in Hrun; [by apply Hrun|done|].
  intros [[x y] z] cell. rewrite Hcells. destruct (inBounds c x y z); [|done].
  by intros [= <-].
Qed.

End Proofs.

(** * The statements on the concrete world *)

Section Examples.
Local Existing Instances Demo.numeric Demo.blocks Demo.simplex Demo.store_ops.

Lemma demo_store_empty : store_empty Demo.no_changes.
Proof. intros ox oz x y z. reflexivity. Qed.

Lemma demo_resources_registered : resources_registered.
Proof. unfold resources_registered. simpl. repeat constructor. Qed.

Lemma demo_resources_nonempty : resources_nonempty.
Proof. unfold resources_nonempty. simpl. repeat constructor; discriminate. Qed.

Lemma demo_generate_high :
  generate Demo.no_changes Demo.chunk_high = Ok Demo.loaded_high.
Proof. vm_compute. reflexivity. Qed.

Lemma demo_generate_low :
  generate Demo.no_changes Demo.chunk_low = Ok Demo.loaded_low.
Proof. vm_compute. reflexivity. Qed.

Lemma demo_loaded_high : loaded_chunk Demo.loaded_high.
Proof. exact (loaded_generate _ _ _ demo_generate_high). Qed.

Lemma demo_loaded_edited : loaded_chunk Demo.edited.1.
Proof.
  apply (loaded_removeBlock Demo.placed.2 Demo.placed.1 0 0 1 _ Demo.edited.2);
    [|vm_compute; reflexivity].
  apply (loaded_addBlock Demo.no_changes Demo.loaded_high 0 3 0 3 _ Demo.placed.2);
    [apply demo_loaded_high|vm_compute; reflexivity].
Qed.

(** C1 on two chunks of the same setup, one fresh and one already loaded. *)
Lemma generate_deterministic_witness :
  ∃ c1' c2',
    generate Demo.no_changes Demo.chunk_high = Ok c1' ∧
    generate Demo.no_changes Demo.loaded_high = Ok c2' ∧
    data c1' = data c2' ∧
    ∀ x y z, getBlock c1' x y z = getBlock c2' x y z.
Proof.
  apply generate_deterministic;
    [reflexivity|reflexivity|reflexivity|apply demo_store_empty|apply demo_store_empty
    |apply demo_resources_registered|vm_compute; discriminate].
Defined.

(** C2 on the chunk obtained by generating, adding a block and removing one. *)
Lemma batch_count_invariant_loaded_witness :
  loaded_chunk Demo.edited.1 ∧ batch_count_invariant Demo.edited.1.
Proof.
  split; [apply demo_loaded_edited|].
  apply batch_count_invariant_loaded, demo_loaded_edited.
Defined.

(** C3 at the buried stone block (1, 1, 1). *)
Lemma occlusion_after_generate_witness :
  generate Demo.no_changes Demo.chunk_high = Ok Demo.loaded_high ∧
  cell_at Demo.loaded_high (1, 1, 1) = Some {| id := 3; instanceId := None |} ∧
  (instanceId {| id := 3; instanceId := None |} = None ↔
   ∀ n, n ∈ neighbours (1, 1, 1) →
        ∃ cn, cell_at Demo.loaded_high n = Some cn ∧ id cn ≠ blocks_empty_id).
Proof.
  split; [apply demo_generate_high|]. split; [reflexivity|].
  apply (occlusion_after_generate Demo.no_changes Demo.chunk_high Demo.loaded_high
           1 1 1 {| id := 3; instanceId := None |});
    [apply demo_generate_high|reflexivity|vm_compute; discriminate].
Defined.

(** C3 as stated fails at the empty cell (1, 2, 1) of a chunk with terrain
    height 1: all its neighbours are inside the bounds, it has no instance,
    and the neighbour above it is empty. *)
Lemma occlusion_iff_fails_on_empty_cell :
  ¬ (∀ c' x y z cell,
       generate Demo.no_changes Demo.chunk_low = Ok c' →
       (∀ n, n ∈ neighbours (x, y, z) → inBounds c' n.1.1 n.1.2 n.2 = true) →
       cell_at c' (x, y, z) = Some cell →
       (instanceId cell = None ↔
        ∀ n, n ∈ neighbours (x, y, z) →
             ∃ cn, cell_at c' n = Some cn ∧ id cn ≠ blocks_empty_id)).
Proof.
  intros Hclaim.
  destruct (Hclaim Demo.loaded_low 1 2 1 {| id := 0; instanceId := None |})
    as [Hall _]; [apply demo_generate_low| |reflexivity|].
  - intros n Hn. simpl in Hn. rewrite !elem_of_cons, elem_of_nil in Hn.
    destruct Hn as [->|[->|[->|[->|[->|[->|[]]]]]]]; reflexivity.
  - destruct (Hall eq_refl (1, 3, 1)) as (cn & Hcn & Hne); [simpl; by left|].
    vm_compute in Hcn. injection Hcn as <-. by apply Hne.
Qed.

(** C4 in the column (1, 1) of height 2, at the stone block below the
    surface. *)
Lemma terrain_over_resources_witness :
  column_height (size Demo.chunk_high) (params Demo.chunk_high)
    (position Demo.chunk_high) 1 1 = Some 2 ∧
  ∃ c' cell,
    generate Demo.no_changes Demo.chunk_high = Ok c' ∧
    cell_at c' (1, 1, 1) = Some cell ∧
    (1 = 2 → id cell = blocks_grass_id) ∧
    (1 < 2 → ∀ r, stamped (params Demo.chunk_high) (position Demo.chunk_high)
                    (1, 1, 1) = Some r → id cell = r) ∧
    (1 < 2 → stamped (params Demo.chunk_high) (position Demo.chunk_high)
               (1, 1, 1) = None → id cell = blocks_dirt_id) ∧
    (2 < 1 → id cell = blocks_empty_id).
Proof.
  split; [vm_compute; reflexivity|].
  apply terrain_over_resources;
    [apply demo_store_empty|apply demo_resources_registered
    |apply demo_resources_nonempty|reflexivity|vm_compute; reflexivity].
Defined.

(** C5 on the grass block at (0, 2, 1), which owns slot 1 of 9. *)
Lemma swap_with_last_witness :
  ∃ c' qlast mesh',
    instanceMatrix Demo.grass_batch !! (count Demo.grass_batch - 1) = Some qlast ∧
    removeBlock Demo.no_changes Demo.loaded_high 0 2 1 =
      Ok (c', ds_set Demo.no_changes 0 0 0 2 1 blocks_empty_id) ∧
    children c' !! 1 = Some mesh' ∧
    count mesh' = count Demo.grass_batch - 1 ∧
    instanceMatrix mesh' !! 1 = Some qlast ∧
    cell_at c' (0, 2, 1) = Some {| id := blocks_empty_id; instanceId := None |} ∧
    (qlast = (0, 2, 1) ↔ 1 = count Demo.grass_batch - 1) ∧
    (1 < count Demo.grass_batch - 1 →
       ∃ cl, cell_at Demo.loaded_high qlast = Some cl ∧
             instanceId cl = Some (count Demo.grass_batch - 1) ∧
             cell_at c' qlast = Some (set_instanceId (Some 1) cl)) ∧
    (∀ q cell' j, cell_at c' q = Some cell' → instanceId cell' = Some j →
       ∃ m, children c' !! id cell' = Some m ∧ 0 ≤ j < count m ∧
            instanceMatrix m !! j = Some q).
Proof.
  apply (swap_with_last Demo.no_changes Demo.loaded_high 0 2 1
           {| id := 1; instanceId := Some 1 |} 1 Demo.grass_batch);
    [apply demo_loaded_high|reflexivity|reflexivity|vm_compute; reflexivity].
Defined.

(** C5 as stated fails when the removed cell owns the last slot: the grass
    block at (2, 2, 2) owns slot 8 of 9, so it is itself the cell that claimed
    slot n - 1, and it ends without an instance. *)
Lemma swap_with_last_fails_for_last_slot :
  ¬ (∀ c x y z cell i mesh qlast c' store',
       loaded_chunk c →
       cell_at c (x, y, z) = Some cell → instanceId cell = Some i →
       children c !! id cell = Some mesh →
       instanceMatrix mesh !! (count mesh - 1) = Some qlast →
       removeBlock Demo.no_changes c x y z = Ok (c', store') →
       cell_at c' qlast ≫= instanceId = Some i).
Proof.
  intros Hclaim.
  assert (cell_at Demo.removed_last.1 (2, 2, 2) ≫= instanceId = Some 8) as Hbad.
  { apply (Hclaim Demo.loaded_high 2 2 2 {| id := 1; instanceId := Some 8 |} 8
             Demo.grass_batch (2, 2, 2) Demo.removed_last.1 Demo.removed_last.2);
      [apply demo_loaded_high|reflexivity|reflexivity|vm_compute; reflexivity
      |vm_compute; reflexivity|vm_compute; reflexivity]. }
  vm_compute in Hbad. discriminate.
Qed.

(** C6 with a stored stone block at (0, 0, 0), where generation puts dirt. *)
Lemma overlay_precedence_witness :
  ds_contains Demo.one_change 0 0 0 0 0 = true ∧
  ∃ c' cell,
    generate Demo.one_change Demo.chunk_high = Ok c' ∧
    cell_at c' (0, 0, 0) = Some cell ∧ id cell = 3.
Proof.
  split; [reflexivity|].
  apply (overlay_precedence Demo.one_change Demo.chunk_high 0 0 0);
    [apply demo_resources_registered| |reflexivity|reflexivity].
  intros x y z. unfold ds_contains, ds_get. simpl.
  destruct (decide ((0, 0, x, y, z) = (0, 0, 0, 0, 0))) as [->|Hne].
  - intros _. vm_compute. repeat constructor.
  - unfold Demo.one_change. rewrite lookup_singleton_ne by done. discriminate.
Defined.

(** C7 placing stone on the empty cell (0, 3, 0). *)
Lemma addBlock_appends_instance_witness :
  ∃ c' mesh mesh',
    children Demo.loaded_high !! 3 = Some mesh ∧
    addBlock Demo.no_changes Demo.loaded_high 0 3 0 3 =
      Ok (c', ds_set Demo.no_changes 0 0 0 3 0 3) ∧
    cell_at c' (0, 3, 0) = Some {| id := 3; instanceId := Some (count mesh) |} ∧
    children c' !! 3 = Some mesh' ∧
    count mesh' = count mesh + 1 ∧
    instanceMatrix mesh' !! count mesh = Some (0, 3, 0) ∧
    (∀ q, q ≠ (0, 3, 0) → cell_at c' q = cell_at Demo.loaded_high q) ∧
    (∀ b, b ≠ 3 → children c' !! b = children Demo.loaded_high !! b).
Proof.
  apply (addBlock_appends_instance Demo.no_changes Demo.loaded_high 0 3 0 3
           {| id := 0; instanceId := None |});
    [apply demo_loaded_high|reflexivity|reflexivity|vm_compute; repeat constructor
    |discriminate].
Defined.

(** C7 as stated fails for the empty id: placed on the empty cell (0, 3, 0)
    it creates no instance, and there is no batch for it. *)
Lemma addBlock_empty_id_creates_no_instance :
  ¬ (∀ c x y z cell newId c' store',
       loaded_chunk c →
       cell_at c (x, y, z) = Some cell → id cell = blocks_empty_id →
       addBlock Demo.no_changes c x y z newId = Ok (c', store') →
       ∃ i, cell_at c' (x, y, z) = Some {| id := newId; instanceId := Some i |}).
Proof.
  intros Hclaim.
  destruct (Hclaim Demo.loaded_high 0 3 0 {| id := 0; instanceId := None |} 0
              Demo.loaded_high (ds_set Demo.no_changes 0 0 0 3 0 0)
              demo_loaded_high eq_refl eq_refl) as (i & Hcell).
  - vm_compute. reflexivity.
  - vm_compute in Hcell. discriminate.
Qed.

(** C8 on an occupied cell, an empty cell and a coordinate outside. *)
Lemma occupied_empty_and_outside_are_noops_witness :
  addBlock Demo.no_changes Demo.loaded_high 0 0 0 3 =
    Ok (Demo.loaded_high, Demo.no_changes) ∧
  removeBlock Demo.no_changes Demo.loaded_high 0 3 0 =
    Ok (Demo.loaded_high, Demo.no_changes) ∧
  addBlock Demo.no_changes Demo.loaded_high 0 4 0 3 =
    Ok (Demo.loaded_high, Demo.no_changes) ∧
  removeBlock Demo.no_changes Demo.loaded_high 0 4 0 =
    Ok (Demo.loaded_high, Demo.no_changes).
Proof.
  split_and!.
  - apply (proj1 (occupied_empty_and_outside_are_noops Demo.no_changes
                    Demo.loaded_high 0 0 0 3)) with {| id := 2; instanceId := Some 0 |};
      [reflexivity|discriminate].
  - apply (proj1 (proj2 (occupied_empty_and_outside_are_noops Demo.no_changes
                           Demo.loaded_high 0 3 0 3)))
      with {| id := 0; instanceId := None |}; reflexivity.
  - apply (proj2 (proj2 (occupied_empty_and_outside_are_noops Demo.no_changes
                           Demo.loaded_high 0 4 0 3))). reflexivity.
  - apply (proj2 (proj2 (occupied_empty_and_outside_are_noops Demo.no_changes
                           Demo.loaded_high 0 4 0 3))). reflexivity.
Defined.

(** C9 at (0, 4, 0), one step above the top of the chunk. *)
Lemma bounds_policy_witness :
  (getBlock Demo.loaded_high 0 4 0 = Ok None ∧
   block_id_or_empty Demo.loaded_high 0 4 0 = Ok blocks_empty_id ∧
   (∀ i, setBlockId Demo.loaded_high 0 4 0 i = Ok Demo.loaded_high) ∧
   (∀ i, setBlockInstanceId Demo.loaded_high 0 4 0 i = Ok Demo.loaded_high)) ∧
  (is_Some (cell_at Demo.loaded_high (0, 4, 0)) ↔
   inBounds Demo.loaded_high 0 4 0 = true).
Proof.
  destruct (bounds_policy Demo.loaded_high 0 4 0) as (Hout & Hgrid & _).
  split; [apply Hout; reflexivity|apply Hgrid, demo_loaded_high].
Defined.

(** C10 on the empty cell (0, 3, 0). *)
Lemma addBlock_empty_id_only_writes_store_witness :
  addBlock Demo.no_changes Demo.loaded_high 0 3 0 blocks_empty_id =
    Ok (Demo.loaded_high, ds_set Demo.no_changes 0 0 0 3 0 blocks_empty_id).
Proof.
  apply (addBlock_empty_id_only_writes_store Demo.no_changes Demo.loaded_high 0 3 0
           {| id := 0; instanceId := None |}); reflexivity.
Defined.

(** ** The further properties *)

(** X2 on the freshly initialised grid, at (2, 1, 1), where both resources
    qualify. *)
Lemma generateResources_last_wins_witness :
  ∃ c',
    generateResources (initializeTerrain Demo.chunk_high) = Ok c' ∧
    same_fields (initializeTerrain Demo.chunk_high) c' ∧
    (∀ rs1 r rs2,
       resources = rs1 ++ r :: rs2 →
       resource_hit Demo.params_high Demo.origin r 2 1 1 = true →
       Forall (λ r', resource_hit Demo.params_high Demo.origin r' 2 1 1 = false) rs2 →
       cell_at c' (2, 1, 1) =
         Some (set_id (res_id r) {| id := 0; instanceId := None |})) ∧
    (Forall (λ r, resource_hit Demo.params_high Demo.origin r 2 1 1 = false)
       resources →
     cell_at c' (2, 1, 1) = Some {| id := 0; instanceId := None |}).
Proof.
  apply (generateResources_last_wins (initializeTerrain Demo.chunk_high) 2 1 1
           {| id := 0; instanceId := None |});
    [apply initializeTerrain_shaped|reflexivity].
Defined.

(** X3 in the column (1, 1) of height 2, at level 1. *)
Lemma terrain_is_a_height_field_witness :
  0 ≤ 2 < height (size Demo.chunk_high) ∧
  ∃ c' cell,
    generate Demo.no_changes Demo.chunk_high = Ok c' ∧
    cell_at c' (1, 1, 1) = Some cell ∧
    (id cell ≠ blocks_empty_id ↔ 1 ≤ 2).
Proof.
  apply (terrain_is_a_height_field Demo.no_changes Demo.chunk_high 1 1 1 2);
    [apply demo_store_empty|apply demo_resources_registered
    |apply demo_resources_nonempty|discriminate|discriminate|reflexivity
    |vm_compute; reflexivity].
Defined.

(** X5 on the chunk before generation, at (0, 0, 0). *)
Lemma unloaded_chunk_throws_witness :
  getBlock Demo.chunk_high 0 0 0 = Throw TypeError ∧
  setBlockId Demo.chunk_high 0 0 0 3 = Throw TypeError ∧
  setBlockInstanceId Demo.chunk_high 0 0 0 (Some 3) = Throw TypeError ∧
  addBlock Demo.no_changes Demo.chunk_high 0 0 0 3 = Throw TypeError ∧
  removeBlock Demo.no_changes Demo.chunk_high 0 0 0 = Throw TypeError.
Proof.
  apply (unloaded_chunk_throws Demo.chunk_size Demo.params_high Demo.origin
           Demo.no_changes 0 0 0 3).
  reflexivity.
Defined.

(** X6 at the buried stone block (1, 1, 1). *)
Lemma write_then_read_witness :
  (∀ i, ∃ c',
     setBlockId Demo.loaded_high 1 1 1 i = Ok c' ∧
     getBlock c' 1 1 1 = Ok (Some {| id := i; instanceId := None |}) ∧
     ∀ x' y' z', (x', y', z') ≠ (1, 1, 1) →
                 getBlock c' x' y' z' = getBlock Demo.loaded_high x' y' z') ∧
  (∀ i, ∃ c',
     setBlockInstanceId Demo.loaded_high 1 1 1 i = Ok c' ∧
     getBlock c' 1 1 1 = Ok (Some {| id := 3; instanceId := i |}) ∧
     ∀ x' y' z', (x', y', z') ≠ (1, 1, 1) →
                 getBlock c' x' y' z' = getBlock Demo.loaded_high x' y' z').
Proof.
  apply (write_then_read Demo.loaded_high 1 1 1 {| id := 3; instanceId := None |}).
  reflexivity.
Defined.

(** X7 at a coordinate outside the loaded chunk. *)
Lemma removeBlock_never_throws_witness :
  ∃ c' store',
    removeBlock Demo.no_changes Demo.loaded_high 7 7 7 = Ok (c', store') ∧
    loaded_chunk c'.
Proof. apply removeBlock_never_throws, demo_loaded_high. Defined.

(** X8 with the unregistered id 9 on the empty cell (0, 3, 0). *)
Lemma addBlock_throws_exactly_without_batch_witness :
  (addBlock Demo.no_changes Demo.loaded_high 0 3 0 9 = Throw TypeError ↔
   ∃ cell, cell_at Demo.loaded_high (0, 3, 0) = Some cell ∧
           id cell = blocks_empty_id ∧ 9 ≠ blocks_empty_id ∧ 9 ∉ blocks_ids) ∧
  ((∃ r, addBlock Demo.no_changes Demo.loaded_high 0 3 0 9 = Ok r) ∨
   addBlock Demo.no_changes Demo.loaded_high 0 3 0 9 = Throw TypeError).
Proof. apply addBlock_throws_exactly_without_batch, demo_loaded_high. Defined.

(** X9 with the unregistered id 9 stored for (0, 0, 0). *)
Lemma generate_throws_on_unregistered_change_witness :
  generate (ds_set Demo.no_changes 0 0 0 0 0 9) Demo.chunk_high = Throw TypeError.
Proof.
  apply (generate_throws_on_unregistered_change
           (ds_set Demo.no_changes 0 0 0 0 0 9) Demo.chunk_high 0 0 0);
    [reflexivity|reflexivity|].
  vm_compute. intros Hin.
  repeat (apply elem_of_cons in Hin as [Hin|Hin]; [discriminate|]).
  by apply elem_of_nil in Hin.
Defined.

(** X10 on the removal of the grass block at (2, 2, 2), seen from the
    buried stone block (1, 1, 1). *)
Lemma removeBlock_reveals_nothing_witness :
  ∃ cell', cell_at Demo.removed_last.1 (1, 1, 1) = Some cell' ∧
    ((1, 1, 1) = (2, 2, 2) → id cell' = blocks_empty_id ∧ instanceId cell' = None) ∧
    ((1, 1, 1) ≠ (2, 2, 2) →
       id cell' = id {| id := 3; instanceId := None |} ∧
       (is_Some (instanceId cell') ↔
        is_Some (instanceId {| id := 3; instanceId := None |}))).
Proof.
  apply (removeBlock_reveals_nothing Demo.no_changes Demo.loaded_high 2 2 2
           Demo.removed_last.1 Demo.removed_last.2);
    [apply demo_loaded_high|vm_compute; reflexivity|reflexivity].
Defined.

(** X11 on the removal of the grass block at (1, 2, 1), above the buried
    stone block (1, 1, 1). *)
Lemma removeBlock_leaves_neighbours_hidden_witness :
  ∃ c' store' cn',
    removeBlock Demo.no_changes Demo.loaded_high 1 2 1 = Ok (c', store') ∧
    cell_at c' (1, 1, 1) = Some cn' ∧ id cn' = 3 ∧ instanceId cn' = None ∧
    isBlockObscured c' 1 1 1 = Ok false.
Proof.
  apply (removeBlock_leaves_neighbours_hidden Demo.no_changes Demo.loaded_high 1 2 1
           {| id := 1; instanceId := Some 4 |} (1, 1, 1)
           {| id := 3; instanceId := None |});
    [apply demo_loaded_high|reflexivity|discriminate|simpl; right; left
    |reflexivity|discriminate|reflexivity].
Defined.

(** X12 on the chunk obtained by generating, adding a block and removing
    one. *)
Lemma instances_match_cells_witness :
  (∀ q cell i, cell_at Demo.edited.1 q = Some cell → instanceId cell = Some i →
     id cell ≠ blocks_empty_id ∧
     ∃ mesh, children Demo.edited.1 !! id cell = Some mesh ∧ 0 ≤ i < count mesh ∧
             instanceMatrix mesh !! i = Some q) ∧
  (∀ b mesh i, children Demo.edited.1 !! b = Some mesh → 0 ≤ i < count mesh →
     ∃ q cell, instanceMatrix mesh !! i = Some q ∧
               cell_at Demo.edited.1 q = Some cell ∧
               id cell = b ∧ instanceId cell = Some i).
Proof. apply instances_match_cells, demo_loaded_edited. Defined.

(** X13 on the grass batch of the generated chunk. *)
Lemma batches_never_overflow_witness :
  capacity Demo.grass_batch =
    width (size Demo.loaded_high) * height (size Demo.loaded_high) *
    width (size Demo.loaded_high) ∧
  0 ≤ count Demo.grass_batch ≤ capacity Demo.grass_batch ∧
  (∀ q cell, cell_at Demo.loaded_high q = Some cell → instanceId cell = None →
     count Demo.grass_batch < capacity Demo.grass_batch).
Proof.
  apply (batches_never_overflow Demo.loaded_high 1 Demo.grass_batch);
    [apply demo_loaded_high|vm_compute; reflexivity].
Defined.

(** X14 on placing stone at (0, 3, 0). *)
Lemma edits_keep_setup_witness :
  size Demo.placed.1 = size Demo.loaded_high ∧
  params Demo.placed.1 = params Demo.loaded_high ∧
  position Demo.placed.1 = position Demo.loaded_high ∧
  loaded Demo.placed.1 = true.
Proof.
  apply (edits_keep_setup Demo.no_changes Demo.loaded_high 0 3 0 3
           Demo.placed.1 Demo.placed.2);
    [apply demo_loaded_high|left; vm_compute; reflexivity].
Defined.

(** X15 placing stone on the empty cell (0, 3, 0) and removing it. *)
Lemma add_then_remove_restores_witness :
  ∃ c1 store1 c2,
    addBlock Demo.no_changes Demo.loaded_high 0 3 0 3 = Ok (c1, store1) ∧
    removeBlock store1 c1 0 3 0 =
      Ok (c2, ds_set store1 0 0 0 3 0 blocks_empty_id) ∧
    (∀ q, cell_at c2 q = cell_at Demo.loaded_high q) ∧
    (∀ b', count <$> children c2 !! b' = count <$> children Demo.loaded_high !! b') ∧
    (∀ b' m m2 i, children Demo.loaded_high !! b' = Some m →
       children c2 !! b' = Some m2 →
       0 ≤ i < count m → instanceMatrix m2 !! i = instanceMatrix m !! i).
Proof.
  apply (add_then_remove_restores Demo.no_changes Demo.loaded_high 0 3 0 3
           {| id := 0; instanceId := None |});
    [apply demo_loaded_high|reflexivity|reflexivity
    |vm_compute; repeat constructor|discriminate].
Defined.

Lemma demo_store_registered k v :
  v ∈ blocks_ids →
  store_registered (<[k := v]> Demo.no_changes : DataStore) Demo.origin.
Proof.
  intros Hv x y z. unfold ds_contains, ds_get. simpl.
  destruct (decide (k = (0, 0, x, y, z))) as [->|Hne].
  - by rewrite lookup_insert_eq.
  - rewrite lookup_insert_ne by done. unfold Demo.no_changes.
    rewrite lookup_empty. by intros ?%bool_decide_eq_true%is_Some_None.
Qed.

(** X16 placing stone on the empty cell (0, 3, 0). *)
Lemma placed_block_survives_regeneration_witness :
  ∃ c1 c2 cell2,
    addBlock Demo.no_changes Demo.loaded_high 0 3 0 3 =
      Ok (c1, ds_set Demo.no_changes 0 0 0 3 0 3) ∧
    generate (ds_set Demo.no_changes 0 0 0 3 0 3) c1 = Ok c2 ∧
    cell_at c2 (0, 3, 0) = Some cell2 ∧ id cell2 = 3.
Proof.
  apply (placed_block_survives_regeneration Demo.no_changes Demo.loaded_high 0 3 0 3
           {| id := 0; instanceId := None |});
    [apply demo_loaded_high|reflexivity|reflexivity|vm_compute; repeat constructor
    |reflexivity|reflexivity|apply demo_resources_registered|].
  apply demo_store_registered. vm_compute. repeat constructor.
Defined.

(** X17 removing the dirt block at (0, 0, 1). *)
Lemma removed_block_stays_removed_witness :
  ∃ c1 c2,
    removeBlock Demo.no_changes Demo.loaded_high 0 0 1 =
      Ok (c1, ds_set Demo.no_changes 0 0 0 0 1 blocks_empty_id) ∧
    generate (ds_set Demo.no_changes 0 0 0 0 1 blocks_empty_id) c1 = Ok c2 ∧
    cell_at c2 (0, 0, 1) = Some {| id := blocks_empty_id; instanceId := None |}.
Proof.
  apply (removed_block_stays_removed Demo.no_changes Demo.loaded_high 0 0 1
           {| id := 2; instanceId := Some 1 |});
    [apply demo_loaded_high|reflexivity|discriminate
    |reflexivity|reflexivity|apply demo_resources_registered|].
  apply demo_store_registered. vm_compute. repeat constructor.
Defined.

(** X18 on a fresh chunk and an edited one of the same setup. *)
Lemma regeneration_forgets_the_chunk_witness :
  generate Demo.no_changes Demo.chunk_high = generate Demo.no_changes Demo.edited.1.
Proof.
  apply regeneration_forgets_the_chunk; reflexivity.
Defined.

(** X19 at the grass block (0, 2, 1), which has an instance. *)
Lemma disposed_chunk_has_no_batches_witness :
  getBlock (disposeInstances Demo.loaded_high) 0 2 1 =
    Ok (Some {| id := 1; instanceId := Some 1 |}) ∧
  (is_Some (instanceId {| id := 1; instanceId := Some 1 |}) →
     removeBlock Demo.no_changes (disposeInstances Demo.loaded_high) 0 2 1 =
       Throw TypeError) ∧
  (id {| id := 1; instanceId := Some 1 |} = blocks_empty_id →
   ∀ b, b ≠ blocks_empty_id →
     addBlock Demo.no_changes (disposeInstances Demo.loaded_high) 0 2 1 b =
       Throw TypeError) ∧
  generate Demo.no_changes (disposeInstances Demo.loaded_high) =
    generate Demo.no_changes Demo.loaded_high.
Proof.
  apply (disposed_chunk_has_no_batches Demo.no_changes Demo.loaded_high 0 2 1
           {| id := 1; instanceId := Some 1 |});
    [apply demo_loaded_high|reflexivity].
Defined.

(** X20 with a store that holds an entry of another chunk only. *)
Lemma generate_reads_own_entries_witness :
  generate Demo.no_changes Demo.chunk_high =
  generate (ds_set Demo.no_changes 3 0 0 0 0 4) Demo.chunk_high.
Proof.
  apply generate_reads_own_entries. intros x y z _.
  unfold ds_contains, ds_get, ds_set. simpl.
  rewrite lookup_insert_ne by discriminate. done.
Defined.

(** X21 on placing stone at (0, 3, 0), and on removing the grass block at
    (0, 2, 1). *)
Lemma repeated_edits_are_noops_witness :
  addBlock Demo.no_changes Demo.loaded_high 0 3 0 3 = Ok Demo.placed ∧
  (∀ b', addBlock Demo.placed.2 Demo.placed.1 0 3 0 b' = Ok Demo.placed) ∧
  (∃ c1 store1,
     removeBlock Demo.no_changes Demo.loaded_high 0 3 0 = Ok (c1, store1) ∧
     removeBlock store1 c1 0 3 0 = Ok (c1, store1)).
Proof.
  destruct (repeated_edits_are_noops Demo.no_changes Demo.loaded_high 0 3 0 3
              demo_loaded_high) as [Hadd Hremove].
  split; [vm_compute; reflexivity|]. split; [|exact Hremove].
  apply (Hadd Demo.placed.1 Demo.placed.2); [discriminate|vm_compute; reflexivity].
Defined.

(** X22 on the grass blocks at (0, 2, 1) and (1, 2, 1). *)
Lemma generate_numbers_in_scan_order_witness : 1 < 4.
Proof.
  apply (generate_numbers_in_scan_order Demo.no_changes Demo.chunk_high
           Demo.loaded_high (0, 2, 1) (1, 2, 1)
           {| id := 1; instanceId := Some 1 |} {| id := 1; instanceId := Some 4 |});
    [apply demo_generate_high|reflexivity|reflexivity|reflexivity|reflexivity
    |reflexivity|left; simpl; lia].
Defined.

End Examples.

(** * The NaN column *)

Section ExamplesNaN.
Local Existing Instances DemoNaN.numeric DemoNaN.blocks DemoNaN.simplex Demo.store_ops.

Lemma demo_nan_resources_registered : resources_registered.
Proof. unfold resources_registered. simpl. repeat constructor. Qed.

(** X4 in the only column of the chunk with terrain scale 0, at level 1,
    where stone is the last qualifying resource. *)
Lemma nan_height_leaves_column_witness :
  ∃ c' cell,
    generate Demo.no_changes DemoNaN.chunk_nan = Ok c' ∧
    cell_at c' (0, 1, 0) = Some cell ∧
    id cell = default blocks_empty_id
                (stamped (params DemoNaN.chunk_nan) (position DemoNaN.chunk_nan)
                   (0, 1, 0)).
Proof.
  apply (nan_height_leaves_column Demo.no_changes DemoNaN.chunk_nan 0 1 0);
    [apply demo_store_empty|apply demo_nan_resources_registered|reflexivity
    |vm_compute; reflexivity].
Defined.

End ExamplesNaN.
